(** * Classroom lighting simulator: range matching and pixel transform

    A shallow embedding of the numeric core of the simulator scripts
    ([New/simulator.js], [classroom-simulator.js], [comparisn.-grid.js]).

    JavaScript numbers are modelled by exact rationals [Q]: every finite
    double is a rational, and the comparisons [<=], [>=], [<] of the source
    agree with the order of [Q] on finite values.  Arithmetic is exact
    (no rounding to 53 bits); [NaN] and the infinities are not numbers of
    the model, except that the initial [Infinity] of the closest-range
    scans is modelled by [None] and that the [NaN] of a read past the end
    of the pixel array is followed to the 0 it is stored as.  Pixel bytes
    and counters are integers. *)

From Stdlib Require Import ZArith QArith Qround Qabs Qminmax Lia Lqa ZifyNat.
From Stdlib Require Import String Ascii.
From stdpp Require Import base option list strings gmap.

Local Open Scope Q_scope.

(** [lia] also reasons about division and remainder by constants. *)
Ltac Zify.zify_post_hook ::= Z.to_euclidean_division_equations.

(* ================================================================== *)
(** * Part I: definitions                                              *)
(* ================================================================== *)

(** ** Numbers *)

(** [a < b] on finite numbers. *)
Definition Qltb (a b : Q) : bool := negb (Qle_bool b a).

(** [Math.round]: nearest integer, halves rounded towards +infinity. *)
Definition Math_round (x : Q) : Z := Qfloor (x + (1 # 2)).

(** [function lerp(a, b, t) { return a + (b - a) * t; }] *)
Definition lerp (a b t : Q) : Q := a + (b - a) * t.

(** [function clamp(value) {
       return Math.max(0, Math.min(255, Math.round(value))); }] *)
Definition clamp (value : Q) : Z := Z.max 0 (Z.min 255 (Math_round value)).

(** ** The lighting transform ([processImageWithLighting]) *)

(** The Kelvin ladder: [redMultiplier], [greenMultiplier],
    [blueMultiplier] as assigned by the [if / else if] chain. *)
Definition colorMultipliers (kelvin : Q) : Q * Q * Q :=
  if Qle_bool kelvin 2000 then (1.8, 0.8, 0.4)
  else if Qle_bool kelvin 3000 then (1.6, 0.9, 0.5)
  else if Qle_bool kelvin 4000 then (1.3, 1.0, 0.7)
  else if Qle_bool kelvin 5000 then (1.1, 1.0, 0.9)
  else if Qle_bool kelvin 6000 then (0.9, 1.0, 1.1)
  else if Qle_bool kelvin 7000 then (0.7, 0.9, 1.3)
  else (0.5, 0.8, 1.6).

(** The glare brightness factor. *)
Definition brightnessMultiplier (glare : Q) : Q :=
  if Qle_bool glare 19 then
    1.0 + (glare / 19) * 0.3
  else
    let highGlareFactor := (glare - 19) / 9 in
    1.3 + (highGlareFactor * 2.7).

(** An RGB triple, as the loop body holds it in [r], [g], [b]. *)
Definition rgb (A : Type) : Type := (A * A * A)%type.

(** First stage of the loop body: the colour temperature multipliers,
    each product passed through [clamp]. *)
Definition applyTemperature (mult : Q * Q * Q) (px : rgb Z) : rgb Z :=
  let '(redMultiplier, greenMultiplier, blueMultiplier) := mult in
  let '(r, g, b) := px in
  let r := clamp (inject_Z r * redMultiplier) in
  let g := clamp (inject_Z g * greenMultiplier) in
  let b := clamp (inject_Z b * blueMultiplier) in
  (r, g, b).

(** Second stage: the glare brightness, again through [clamp]. *)
Definition applyGlare (brightness : Q) (px : rgb Z) : rgb Z :=
  let '(r, g, b) := px in
  let r := clamp (inject_Z r * brightness) in
  let g := clamp (inject_Z g * brightness) in
  let b := clamp (inject_Z b * brightness) in
  (r, g, b).

(** Third stage: the CRI passes and the final [clamp] of the three
    stores. *)
Definition applyCRI (cri : Q) (px : rgb Z) : rgb Z :=
  let '(r, g, b) := px in
  let r := inject_Z r in
  let g := inject_Z g in
  let b := inject_Z b in
  let criFactor := cri / 100 in
  let avg := (r + g + b) / 3 in
  let '(r, g, b) :=
    if Qltb cri 95 then
      (lerp r avg (1 - criFactor),
       lerp g avg (1 - criFactor),
       lerp b avg (1 - criFactor))
    else (r, g, b) in
  let r := lerp r avg (0.5 * (1 - criFactor)) in
  let g := lerp g avg (0.5 * (1 - criFactor)) in
  let b := lerp b avg (0.5 * (1 - criFactor)) in
  (clamp r, clamp g, clamp b).

(** The whole loop body on one pixel. *)
Definition processPixel
    (mult : Q * Q * Q) (brightness cri : Q) (px : rgb Z) : rgb Z :=
  applyCRI cri (applyGlare brightness (applyTemperature mult px)).

(** What one iteration stores at [i], [i+1], [i+2].  The index [i] is
    within the array; when [i+1] or [i+2] is not (a length that is not a
    multiple of four, which [ImageData] excludes), that read is
    [undefined], the average and with it every channel is [NaN], and
    [NaN] is stored in the byte array as 0. *)
Definition newPixel (mult : Q * Q * Q) (brightness cri : Q)
    (data : list Z) (i : nat) : rgb Z :=
  match data !! i, data !! (i + 1)%nat, data !! (i + 2)%nat with
  | Some r, Some g, Some b => processPixel mult brightness cri (r, g, b)
  | _, _, _ => (0, 0, 0)%Z
  end.

(** [for (let i = 0; i < data.length; i += 4) { ... }] over the byte
    array [data], which is updated in place at [i], [i+1], [i+2]; a
    store past the end of a typed array is ignored.  The loop is run
    with fuel; [length data] iterations always suffice. *)
Fixpoint pixelLoop (fuel : nat) (mult : Q * Q * Q) (brightness cri : Q)
    (i : nat) (data : list Z) : list Z :=
  match fuel with
  | O => data
  | S fuel' =>
      if bool_decide (i < length data)%nat then
        let '(r, g, b) := newPixel mult brightness cri data i in
        let data := <[i := r]> data in
        let data := <[(i + 1)%nat := g]> data in
        let data := <[(i + 2)%nat := b]> data in
        pixelLoop fuel' mult brightness cri (i + 4)%nat data
      else data
  end.

(** [ImageData]: RGBA bytes, row by row. *)
Record ImageData : Type := mkImageData {
  data : list Z;
  width : nat;
  height : nat
}.

(** The part of the script's global state that the transform touches:
    the snapshot [originalImageData] and the pixels last painted on the
    canvas by [ctx.putImageData]. *)
Record Canvas : Type := mkCanvas {
  originalImageData : option ImageData;
  painted : option ImageData
}.

(** [processImageWithLighting(cct, cri, glare, flicker)]: returns at once
    when there is no snapshot; otherwise copies the snapshot, runs the
    pixel loop on the copy and paints it. *)
Definition processImageWithLighting
    (cct cri glare flicker : Q) (st : Canvas) : Canvas :=
  match originalImageData st with
  | None => st
  | Some original =>
      let imageData :=
        mkImageData (data original) (width original) (height original) in
      let kelvin := cct in
      let out :=
        pixelLoop (length (data imageData))
          (colorMultipliers kelvin) (brightnessMultiplier glare) cri
          0%nat (data imageData) in
      mkCanvas (originalImageData st)
               (Some (mkImageData out (width imageData) (height imageData)))
  end.

(** The pixel that starts at byte offset [base] of a buffer, and the
    channel of a triple stored at offset [c] (0 red, 1 green, 2 blue). *)
Definition pixelAt (bytes : list Z) (base : nat) : rgb Z :=
  (bytes !!! base, bytes !!! (base + 1)%nat, bytes !!! (base + 2)%nat).

Definition channel (c : nat) (px : rgb Z) : Z :=
  let '(r, g, b) := px in
  match c with
  | O => r
  | S O => g
  | _ => b
  end.

(** A value a [Uint8ClampedArray] cell can hold. *)
Definition isByte (v : Z) : Prop := (0 <= v <= 255)%Z.

Definition allBytes (px : rgb Z) : Prop :=
  let '(r, g, b) := px in isByte r /\ isByte g /\ isByte b.

(** ** Strings, units and ratings *)

Local Open Scope string_scope.

(** [String.prototype.toLowerCase] and [toUpperCase] on ASCII text (the
    ratings and parameter names of the data files are ASCII). *)
Definition lowerAscii (c : ascii) : ascii :=
  let n := nat_of_ascii c in
  if ((65 <=? n) && (n <=? 90))%nat then ascii_of_nat (n + 32) else c.

Definition upperAscii (c : ascii) : ascii :=
  let n := nat_of_ascii c in
  if ((97 <=? n) && (n <=? 122))%nat then ascii_of_nat (n - 32) else c.

Fixpoint toLowerCase (s : string) : string :=
  match s with
  | EmptyString => EmptyString
  | String c s' => String (lowerAscii c) (toLowerCase s')
  end.

Fixpoint toUpperCase (s : string) : string :=
  match s with
  | EmptyString => EmptyString
  | String c s' => String (upperAscii c) (toUpperCase s')
  end.

(** [getUnit(param)]: the [units] table, [''] for any other name. *)
Definition getUnit (param : string) : string :=
  if String.eqb param "CCT" then "K"
  else if String.eqb param "CRI" then ""
  else if String.eqb param "Flicker" then "HZ"
  else if String.eqb param "UGR" then ""
  else if String.eqb param "Uniformity" then ""
  else if String.eqb param "Melanopic_EDI" then ""
  else if String.eqb param "Vertical_Illuminance" then "lux"
  else if String.eqb param "Exposure_Duration" then "hours"
  else if String.eqb param "Lux" then "lux"
  else "".

(** [getRatingPriority(rating)]: [priorities[rating.toLowerCase()] || 0]. *)
Definition getRatingPriority (rating : string) : nat :=
  let key := toLowerCase rating in
  if String.eqb key "good" then 3
  else if String.eqb key "medium" then 2
  else if String.eqb key "bad" then 1
  else 0.

(** ** Range records *)

Module Range.
Record t : Type := mk { min : Q; max : Q }.
End Range.

(** An entry of a parameter's array ([paramDataArray],
    [recommendations]); [range] may be missing from the object. *)
Module ParamData.
Record t : Type := mk {
  range : option Range.t;
  rating : string;
  reason : string;
  recommendation : string
}.
End ParamData.

(** An entry of an environment in the data file ([envData[param]]). *)
Module ParamInfo.
Record t : Type := mk {
  range : option Range.t;
  reason : string;
  recommendation : string
}.
End ParamInfo.

(** [currentValue >= min && currentValue <= max] *)
Definition inRange (currentValue : Q) (rg : Range.t) : bool :=
  Qle_bool (Range.min rg) currentValue && Qle_bool currentValue (Range.max rg).

(** [p.range && currentValue >= p.range.min && currentValue <= p.range.max] *)
Definition contains (currentValue : Q) (p : ParamData.t) : bool :=
  match ParamData.range p with
  | Some rg => inRange currentValue rg
  | None => false
  end.

(** [d < best] where [best] starts as [Infinity] ([None]). *)
Definition belowDistance (d : Q) (best : option Q) : bool :=
  match best with
  | None => true
  | Some b => Qltb d b
  end.

(** What a function leaves behind: a value, or a thrown [TypeError]
    (a property read on [undefined]). *)
Inductive Completion (A : Type) : Type :=
| Normal (a : A)
| TypeError.
Arguments Normal {A} a.
Arguments TypeError {A}.

(** ** [updateParameterValidation] *)

(** Body of the first [for ... of] loop; the state is
    [(bestMatch, bestRating)]. *)
Definition matchStep (currentValue : Q)
    (st : option ParamData.t * string) (paramData : ParamData.t)
    : option ParamData.t * string :=
  let '(bestMatch, bestRating) := st in
  match ParamData.range paramData with
  | Some rg =>
      if inRange currentValue rg then
        let rating := toLowerCase (ParamData.rating paramData) in
        if (getRatingPriority bestRating <? getRatingPriority rating)%nat
        then (Some paramData, rating)
        else (bestMatch, bestRating)
      else (bestMatch, bestRating)
  | None => (bestMatch, bestRating)
  end.

Definition findBestMatch (currentValue : Q)
    (paramDataArray : list ParamData.t) : option ParamData.t * string :=
  fold_left (matchStep currentValue) paramDataArray (None, "bad").

(** Distance of the value to the nearer end of a range. *)
Definition endDistance (currentValue : Q) (rg : Range.t) : Q :=
  let distanceToMin := Qabs (currentValue - Range.min rg) in
  let distanceToMax := Qabs (currentValue - Range.max rg) in
  Qmin distanceToMin distanceToMax.

(** Body of the second loop; the state is [(closestDistance, bestMatch)]. *)
Definition closestStep (currentValue : Q)
    (st : option Q * option ParamData.t) (paramData : ParamData.t)
    : option Q * option ParamData.t :=
  let '(closestDistance, bestMatch) := st in
  match ParamData.range paramData with
  | Some rg =>
      let minDistance := endDistance currentValue rg in
      if belowDistance minDistance closestDistance
      then (Some minDistance, Some paramData)
      else (closestDistance, bestMatch)
  | None => (closestDistance, bestMatch)
  end.

Definition findClosest (currentValue : Q)
    (paramDataArray : list ParamData.t) : option ParamData.t :=
  snd (fold_left (closestStep currentValue) paramDataArray (None, None)).

(** The text put in the status element, with its interpolated parts. *)
Inductive StatusText : Type :=
| NoDataAvailable
    (* 'No Data Available' *)
| BadOutsideRange (min max : Q) (unit : string)
    (* `BAD - Outside recommended range (${min}-${max} ${unit})` *)
| RatingAndReason (rating reason : string)
    (* `${bestRating.toUpperCase()} - ${reason}` *)
| NoStandardsAvailable.
    (* 'NO STANDARDS AVAILABLE' *)

Record StatusElement : Type := mkStatusElement {
  textContent : StatusText;
  className : string
}.

(** [a || b] on strings: the empty string is falsy. *)
Definition orElse (a b : string) : string :=
  if String.eqb a "" then b else a.

(** [updateParameterValidation(paramName, currentValue, paramDataArray,
    statusElementId)].  [statusElement] is the element found for the id
    ([None] when there is none, and then nothing happens);
    [paramDataArray] is [None] when the argument is not an array.  The
    result is the element after the call. *)
Definition updateParameterValidation (paramName : string) (currentValue : Q)
    (paramDataArray : option (list ParamData.t))
    (statusElement : option StatusElement)
    : Completion (option StatusElement) :=
  match statusElement with
  | None => Normal None
  | Some _ =>
      match paramDataArray with
      | None | Some [] =>
          Normal (Some (mkStatusElement NoDataAvailable
                          "validation-status evaluating"))
      | Some paramDataArray =>
          let '(bestMatch, bestRating) :=
            findBestMatch currentValue paramDataArray in
          let '(bestMatch, bestRating) :=
            match bestMatch with
            | None => (findClosest currentValue paramDataArray, "bad")
            | Some _ => (bestMatch, bestRating)
            end in
          let className := "validation-status " ++ bestRating in
          match bestMatch with
          | Some bestMatch =>
              let reason :=
                orElse (ParamData.reason bestMatch)
                  "Standard lighting parameter" in
              if String.eqb bestRating "bad"
                 && negb (existsb (contains currentValue) paramDataArray)
              then
                match ParamData.range bestMatch with
                | Some rg =>
                    Normal (Some (mkStatusElement
                                    (BadOutsideRange (Range.min rg)
                                       (Range.max rg) (getUnit paramName))
                                    className))
                | None => TypeError
                end
              else
                Normal (Some (mkStatusElement
                                (RatingAndReason (toUpperCase bestRating)
                                   reason)
                                className))
          | None =>
              Normal (Some (mkStatusElement NoStandardsAvailable className))
          end
      end
  end.

(** ** [comparisonCards] *)

(** [currentValue >= min && currentValue <= max] when [currentValue] may
    be [undefined] ([None]): every comparison with [undefined] is false. *)
Definition inRangeOpt (currentValue : option Q) (rg : Range.t) : bool :=
  match currentValue with
  | Some v => inRange v rg
  | None => false
  end.

(** Body of the first [forEach]; the state is [(bestMatch, bestRating)].
    Reading [rec.range.min] throws when [rec.range] is missing. *)
Definition lastMatchStep (currentValue : option Q)
    (st : Completion (option ParamData.t * string)) (rec : ParamData.t)
    : Completion (option ParamData.t * string) :=
  match st with
  | TypeError => TypeError
  | Normal (bestMatch, bestRating) =>
      match ParamData.range rec with
      | None => TypeError
      | Some rg =>
          if inRangeOpt currentValue rg
          then Normal (Some rec, ParamData.rating rec)
          else Normal (bestMatch, bestRating)
      end
  end.

Definition findLastMatch (currentValue : option Q)
    (recommendations : list ParamData.t)
    : Completion (option ParamData.t * string) :=
  fold_left (lastMatchStep currentValue) recommendations
    (Normal (None, "unknown")).

(** [Math.abs(currentValue - (rec.range.min + rec.range.max) / 2)] *)
Definition midDistance (currentValue : Q) (rg : Range.t) : Q :=
  let rangeMid := (Range.min rg + Range.max rg) / 2 in
  Qabs (currentValue - rangeMid).

(** Body of the second [forEach]; the state is
    [(minDistance, closestRange)].  With [currentValue] undefined the
    distance is [NaN] and the comparison is false. *)
Definition closestMidStep (currentValue : option Q)
    (st : Completion (option Q * option ParamData.t)) (rec : ParamData.t)
    : Completion (option Q * option ParamData.t) :=
  match st with
  | TypeError => TypeError
  | Normal (minDistance, closestRange) =>
      match ParamData.range rec with
      | None => TypeError
      | Some rg =>
          match currentValue with
          | Some v =>
              let distance := midDistance v rg in
              if belowDistance distance minDistance
              then Normal (Some distance, Some rec)
              else Normal (minDistance, closestRange)
          | None => Normal (minDistance, closestRange)
          end
      end
  end.

Definition findClosestMid (currentValue : option Q)
    (recommendations : list ParamData.t)
    : Completion (option Q * option ParamData.t) :=
  fold_left (closestMidStep currentValue) recommendations
    (Normal (None, None)).

(** The alert box of a card, with its interpolated parts. *)
Inductive Alert : Type :=
| RatingAlert (alertClass rating reason recommendation : string)
    (min max : Q) (unit : string)
| OutsideAlert (currentValue : option Q) (unit : string) (min max : Q)
    (closestRecommendation : string)
| UnknownAlert.

Record Card : Type := mkCard {
  cardParam : string;
  cardCurrentValue : option Q;
  cardUnit : string;
  cardAlert : Alert
}.

(** The card of one parameter: the part of the loop body of
    [comparisonCards] after the [Array.isArray] test. *)
Definition comparisonCard (param : string) (currentValue : option Q)
    (recommendations : list ParamData.t) : Completion Card :=
  match findLastMatch currentValue recommendations with
  | TypeError => TypeError
  | Normal (Some bestMatch, bestRating) =>
      match ParamData.range bestMatch with
      | None => TypeError
      | Some rg =>
          Normal (mkCard param currentValue (getUnit param)
                    (RatingAlert
                       (if String.eqb bestRating "good"
                        then "alert-success" else "alert-danger")
                       (toUpperCase bestRating)
                       (ParamData.reason bestMatch)
                       (ParamData.recommendation bestMatch)
                       (Range.min rg) (Range.max rg) (getUnit param)))
      end
  | Normal (None, _) =>
      match findClosestMid currentValue recommendations with
      | TypeError => TypeError
      | Normal (_, Some closestRange) =>
          match ParamData.range closestRange with
          | None => TypeError
          | Some rg =>
              Normal (mkCard param currentValue (getUnit param)
                        (OutsideAlert currentValue (getUnit param)
                           (Range.min rg) (Range.max rg)
                           (ParamData.recommendation closestRange)))
          end
      | Normal (_, None) =>
          Normal (mkCard param currentValue (getUnit param) UnknownAlert)
      end
  end.

(** [comparisonCards(currentValues, gradeData)]: one card per key of
    [gradeData] other than ['age_range'] and ['lighting_data'] whose
    value is an array ([Some]); the cards in key order. *)
Fixpoint comparisonCards (currentValues : gmap string Q)
    (gradeData : list (string * option (list ParamData.t)))
    : Completion (list Card) :=
  match gradeData with
  | [] => Normal []
  | (param, recommendations) :: rest =>
      if String.eqb param "age_range" || String.eqb param "lighting_data"
      then comparisonCards currentValues rest
      else
        match recommendations with
        | None => comparisonCards currentValues rest
        | Some recommendations =>
            match comparisonCard param (currentValues !! param)
                    recommendations with
            | TypeError => TypeError
            | Normal card =>
                match comparisonCards currentValues rest with
                | TypeError => TypeError
                | Normal cards => Normal (card :: cards)
                end
            end
        end
  end.

(** ** [updateRecommendationCards] *)

(** The [reason] of an entry of [recommendations]: the data file's text,
    or the "outside recommended range" template with its parts. *)
Inductive ReasonText : Type :=
| ReasonFromData (text : string)
| OutsideRecommendedRange (currentValue : Q) (unit : string)
    (lower upper : Q).
    (* `Value ${currentValue} ${unit} is outside recommended range
        (${lower}-${upper} ${unit})` *)

Module Recommendation.
Record t : Type := mk {
  param : string;
  status : string;
  reason : ReasonText;
  recommendation : string
}.
End Recommendation.

(** The bounds shown in the "outside recommended range" text.  For a
    stored bound 0 the source shows [Infinity]; here [1 / 0] is 0. *)
Definition shownLower (param : string) (rg : Range.t) : Q :=
  if String.eqb param "Flicker"
  then (1 / Range.max rg) * 10000 else Range.min rg.

Definition shownUpper (param : string) (rg : Range.t) : Q :=
  if String.eqb param "Flicker"
  then (1 / Range.min rg) * 10000 else Range.max rg.


(** Body of the [for (const param in envData)] loop; the state is
    [(totalScore, totalParams, recommendations)]. *)
Definition scoreStep (currentValues : gmap string Q)
    (st : nat * nat * list Recommendation.t) (entry : string * ParamInfo.t)
    : nat * nat * list Recommendation.t :=
  let '(totalScore, totalParams, recommendations) := st in
  let '(param, paramData) := entry in
  if String.eqb param "range" || String.eqb param "images" then st
  else
    match currentValues !! param, ParamInfo.range paramData with
    | Some currentValue, Some rg =>
        if inRange currentValue rg then
          ((totalScore + 1)%nat, (totalParams + 1)%nat,
           (recommendations ++
              [Recommendation.mk param "Recommended"
                 (ReasonFromData (ParamInfo.reason paramData))
                 (ParamInfo.recommendation paramData)])%list)
        else
          (totalScore, (totalParams + 1)%nat,
           (recommendations ++
              [Recommendation.mk param "Not Recommended"
                 (OutsideRecommendedRange currentValue (getUnit param)
                    (shownLower param rg) (shownUpper param rg))
                 (ParamInfo.recommendation paramData)])%list)
    | _, _ => st
    end.

Record EnvironmentCard : Type := mkEnvironmentCard {
  environment : string;
  totalScore : nat;
  totalParams : nat;
  recommendations : list Recommendation.t;
  recommendationPercentage : Q;
  overallStatus : string
}.

Definition count (n : nat) : Q := inject_Z (Z.of_nat n).

(** The card of the selected environment at one recommendation level. *)
Definition environmentCard (currentValues : gmap string Q)
    (environment : string) (envData : list (string * ParamInfo.t))
    : EnvironmentCard :=
  let '(totalScore, totalParams, recommendations) :=
    fold_left (scoreStep currentValues) envData (0%nat, 0%nat, []) in
  let recommendationPercentage :=
    if (0 <? totalParams)%nat
    then (count totalScore / count totalParams) * 100
    else 0 in
  let overallStatus :=
    if Qle_bool 80 recommendationPercentage then "Highly Recommended"
    else if Qle_bool 60 recommendationPercentage then "Recommended"
    else "Not Recommended" in
  mkEnvironmentCard environment totalScore totalParams recommendations
    recommendationPercentage overallStatus.

(** [updateRecommendationCards(currentValues, gradeData)], from the loop
    over [recommendationLevels] on: one card per level that has the
    selected environment.  Each level is given with its [environments]. *)
Definition updateRecommendationCards (currentValues : gmap string Q)
    (selectedEnvironment : string)
    (recommendationLevels :
       list (string * list (string * list (string * ParamInfo.t))))
    : list EnvironmentCard :=
  flat_map
    (fun level =>
       flat_map
         (fun env =>
            if String.eqb (fst env) selectedEnvironment
            then [environmentCard currentValues (fst env) (snd env)]
            else [])
         (snd level))
    recommendationLevels.

(** ** Vocabulary of the statements *)

(** Priority of a record's rating. *)
Definition priorityOf (p : ParamData.t) : nat :=
  getRatingPriority (ParamData.rating p).

Definition hasRange (p : ParamData.t) : Prop := is_Some (ParamData.range p).

(** Record [r], at position [i] of [records], contains [value], no
    record that contains [value] has a higher priority, and among those
    of equal priority it is the last one ([lastBestMatch]) or the first
    one ([firstBestMatch]) in catalog order. *)
Definition lastBestMatch (value : Q) (records : list ParamData.t)
    (i : nat) (r : ParamData.t) : Prop :=
  records !! i = Some r /\ contains value r = true /\
  forall (j : nat) (r' : ParamData.t),
    records !! j = Some r' -> contains value r' = true ->
    (priorityOf r' <= priorityOf r)%nat /\
    (priorityOf r' = priorityOf r -> (j <= i)%nat).

Definition firstBestMatch (value : Q) (records : list ParamData.t)
    (i : nat) (r : ParamData.t) : Prop :=
  records !! i = Some r /\ contains value r = true /\
  forall (j : nat) (r' : ParamData.t),
    records !! j = Some r' -> contains value r' = true ->
    (priorityOf r' <= priorityOf r)%nat /\
    (priorityOf r' = priorityOf r -> (i <= j)%nat).

(** Record [r], at position [i], is the last one that contains [value]. *)
Definition lastMatch (value : Q) (records : list ParamData.t)
    (i : nat) (r : ParamData.t) : Prop :=
  records !! i = Some r /\ contains value r = true /\
  forall (j : nat) (r' : ParamData.t),
    (i < j)%nat -> records !! j = Some r' -> contains value r' = false.

(** A scan that keeps the first element of least distance: the common
    shape of the two closest-range loops.  [dist x = None] for an element
    the loop passes over. *)
Definition argminStep {A : Type} (dist : A -> option Q)
    (st : option Q * option A) (x : A) : option Q * option A :=
  let '(best, sel) := st in
  match dist x with
  | Some d => if belowDistance d best then (Some d, Some x) else (best, sel)
  | None => (best, sel)
  end.

(** Element [x], at position [i], has distance [d], no element is
    nearer, and every earlier element is strictly farther. *)
Definition firstClosest {A : Type} (dist : A -> option Q) (l : list A)
    (i : nat) (x : A) (d : Q) : Prop :=
  l !! i = Some x /\ dist x = Some d /\
  forall (j : nat) (y : A) (e : Q),
    l !! j = Some y -> dist y = Some e ->
    d <= e /\ ((j < i)%nat -> d < e).

(** The two distances of a record to a value. *)
Definition endDistanceOf (value : Q) (p : ParamData.t) : option Q :=
  endDistance value <$> ParamData.range p.

Definition midDistanceOf (value : Q) (p : ParamData.t) : option Q :=
  midDistance value <$> ParamData.range p.


(** ** Sample data on which the theorems are instantiated *)

Definition sampleValues : gmap string Q :=
  <["CCT" := 4000]> (<["CRI" := 70]> (<["Flicker" := 200]> ∅)).


(** Two "good" records over the same range; a "good" record followed
    by a "bad" one over the same range; two records with a gap between
    them; and a status element to update. *)
Definition tieRecords : list ParamData.t :=
  [ ParamData.mk (Some (Range.mk 0 10)) "good" "first" "keep";
    ParamData.mk (Some (Range.mk 0 10)) "good" "second" "keep" ].

Definition mixedRecords : list ParamData.t :=
  [ ParamData.mk (Some (Range.mk 0 10)) "good" "first" "keep";
    ParamData.mk (Some (Range.mk 0 10)) "bad" "second" "change" ].

Definition gapRecords : list ParamData.t :=
  [ ParamData.mk (Some (Range.mk 0 100)) "good" "low" "raise";
    ParamData.mk (Some (Range.mk 104 300)) "bad" "high" "lower" ].

Definition flickerRecords : list ParamData.t :=
  [ ParamData.mk (Some (Range.mk 5 8)) "good" "steady light" "keep" ].

Definition flickerEnvironment : list (string * ParamInfo.t) :=
  [ ("Flicker", ParamInfo.mk (Some (Range.mk 5 8)) "steady light" "keep") ].

Definition badOnlyRecords : list ParamData.t :=
  [ ParamData.mk (Some (Range.mk 0 100)) "bad" "too dim" "raise";
    ParamData.mk (Some (Range.mk 51 60)) "good" "fine" "keep" ].

Definition cctRecords : list ParamData.t :=
  [ ParamData.mk (Some (Range.mk 3000 4000)) "good" "r" "rec" ].

Definition blankStatus : StatusElement :=
  mkStatusElement NoDataAvailable "validation-status".

(** A one-pixel snapshot on which the theorems about the transform are
    instantiated. *)
Definition onePixel : ImageData := mkImageData [200; 100; 50; 128]%Z 1 1.
Definition onePixelCanvas : Canvas := mkCanvas (Some onePixel) None.

(** ** Cookies ([getCookie]) *)

(** [String.prototype.split(sep)] for a separator that is not empty: the
    text is scanned from the left, a piece ends where the separator is
    found, and the scan resumes behind the separator.  [skip] counts the
    characters of a separator just found that are still to be passed;
    [cur] is the piece read so far. *)
Fixpoint splitAux (sep : string) (skip : nat) (cur : string) (s : string)
    : list string :=
  match s with
  | EmptyString => [cur]
  | String c s' =>
      match skip with
      | S k => splitAux sep k cur s'
      | O =>
          if String.prefix sep s
          then cur :: splitAux sep (String.length sep - 1) "" s'
          else splitAux sep 0 (cur ++ String c "") s'
      end
  end.

(** [s.split(sep)]; with the empty separator, one piece per character. *)
Definition split (s sep : string) : list string :=
  match sep with
  | EmptyString => (fun c => String c "") <$> list_ascii_of_string s
  | _ => splitAux sep 0 "" s
  end.

(** [function getCookie(name)], with the text of [document.cookie] as an
    argument; [None] is [null]. *)
Definition getCookie (cookie : string) (name : string) : option string :=
  let value := "; " ++ cookie in
  let parts := split value ("; " ++ name ++ "=") in
  if (length parts =? 2)%nat
  then last parts ≫= (fun part => head (split part ";"))
  else None.

(** The text a browser gives for a jar of cookies: [name=value] pairs
    joined by ["; "]. *)
Definition cookiePair (c : string * string) : string := fst c ++ "=" ++ snd c.

Fixpoint cookieTail (jar : list (string * string)) : string :=
  match jar with
  | [] => ""
  | c :: jar' => "; " ++ cookiePair c ++ cookieTail jar'
  end.

Definition documentCookie (jar : list (string * string)) : string :=
  match jar with
  | [] => ""
  | c :: jar' => cookiePair c ++ cookieTail jar'
  end.

(** Character [c] does not occur in [s]. *)
Fixpoint lacks (c : ascii) (s : string) : bool :=
  match s with
  | EmptyString => true
  | String d s' => negb (Ascii.eqb c d) && lacks c s'
  end.

(** A jar whose names hold no [;] and no [=] and whose values hold no
    [;]. *)
Definition cookieOk (c : string * string) : bool :=
  lacks ";" (fst c) && lacks "=" (fst c) && lacks ";" (snd c).

(** The cookies of a jar that carry a given name. *)
Definition named (name : string) (jar : list (string * string))
    : list (string * string) :=
  List.filter (fun c => String.eqb (fst c) name) jar.

(** The pieces into which the separator of [name] cuts the text of a
    jar, with [cur] the piece read so far. *)
Fixpoint cookiePieces (name cur : string) (jar : list (string * string))
    : list string :=
  match jar with
  | [] => [cur]
  | c :: jar' =>
      if String.eqb (fst c) name
      then cur :: cookiePieces name (snd c) jar'
      else cookiePieces name (cur ++ "; " ++ cookiePair c) jar'
  end.

Definition sampleJar : list (string * string) :=
  [ ("theme", "dark"); ("selectedGrade", "grade_3");
    ("selectedEnvironment", "classroom") ].

(** [loadSelectedData()]: the two cookies are read; when either is
    missing or empty the page alerts and goes back to [index.html],
    otherwise the selection is shown and the data is loaded for it. *)
Inductive Selection : Type :=
| BackToIndex
| Selected (selectedGrade selectedEnvironment : string).

Definition loadSelectedData (cookie : string) : Selection :=
  let selectedGrade := getCookie cookie "selectedGrade" in
  let selectedEnvironment := getCookie cookie "selectedEnvironment" in
  match selectedGrade, selectedEnvironment with
  | Some grade, Some environment =>
      if String.eqb grade "" || String.eqb environment ""
      then BackToIndex
      else Selected grade environment
  | _, _ => BackToIndex
  end.

(** ** [updateValidationStatus] *)

(** [obj[key]] for an object given by its entries in key order. *)
Fixpoint lookupKey {V : Type} (key : string) (obj : list (string * V))
    : option V :=
  match obj with
  | [] => None
  | (k, v) :: obj' => if String.eqb k key then Some v else lookupKey key obj'
  end.

(** [level === 'highly_recommended' ? 'good'
     : level === 'recommended' ? 'medium' : 'bad'] *)
Definition ratingOfLevel (level : string) : string :=
  if String.eqb level "highly_recommended" then "good"
  else if String.eqb level "recommended" then "medium"
  else "bad".

(** The names that a plain object inherits from [Object.prototype].  For
    these [parameterData[param]] is a function (for ['__proto__'] the
    prototype itself) although [parameterData] has no entry of that name:
    the test [!parameterData[param]] fails, no array is created, and the
    call of [push], which none of them has, throws. *)
Definition objectPrototypeKeys : list string :=
  [ "constructor"; "__defineGetter__"; "__defineSetter__"; "hasOwnProperty";
    "__lookupGetter__"; "__lookupSetter__"; "isPrototypeOf";
    "propertyIsEnumerable"; "toString"; "valueOf"; "__proto__";
    "toLocaleString" ].

Definition inherited (param : string) : bool :=
  existsb (String.eqb param) objectPrototypeKeys.

(** Body of the loop over the keys of [envData]; the state is
    [parameterData], each of whose arrays grows by [push], or the error
    thrown so far. *)
Definition addParam (level : string)
    (parameterData : Completion (gmap string (list ParamData.t)))
    (entry : string * ParamInfo.t)
    : Completion (gmap string (list ParamData.t)) :=
  match parameterData with
  | TypeError => TypeError
  | Normal parameterData =>
      let '(param, paramInfo) := entry in
      if String.eqb param "range" || String.eqb param "images"
      then Normal parameterData
      else
        match ParamInfo.range paramInfo with
        | Some rg =>
            if inherited param then TypeError
            else
              Normal
                (<[param :=
                     (default [] (parameterData !! param) ++
                        [ParamData.mk (Some rg) (ratingOfLevel level)
                           (orElse (ParamInfo.reason paramInfo)
                              "Standard lighting parameter")
                           (orElse (ParamInfo.recommendation paramInfo) "")])%list]>
                   parameterData)
        | None => Normal parameterData
        end
  end.

(** Body of the loop over the recommendation levels; a level is given
    with its [environments] (none: the empty object). *)
Definition addLevel (selectedEnvironment : string)
    (parameterData : Completion (gmap string (list ParamData.t)))
    (level : string * list (string * list (string * ParamInfo.t)))
    : Completion (gmap string (list ParamData.t)) :=
  let '(levelName, environments) := level in
  match lookupKey selectedEnvironment environments with
  | Some envData => fold_left (addParam levelName) envData parameterData
  | None => parameterData
  end.

Definition extractParameterData (selectedEnvironment : string)
    (recommendationLevels :
       list (string * list (string * list (string * ParamInfo.t))))
    : Completion (gmap string (list ParamData.t)) :=
  fold_left (addLevel selectedEnvironment) recommendationLevels (Normal ∅).

(** The sliders of the page: the number that the value of each range
    input spells, by element id; an id is absent when there is no such
    element or its value is the empty text.  [parseInt] of the text of a
    number is its integer part; [parseFloat] is the number. *)
Definition parseInt (x : Q) : Q := inject_Z (Z.quot (Qnum x) (Zpos (Qden x))).

(** [document.getElementById(id)?.value || fallback] *)
Definition sliderValue (sliders : gmap string Q) (id : string) (fallback : Q)
    : Q :=
  default fallback (sliders !! id).

(** The nine calls of [updateParameterValidation], each with its
    parameter, the current value read for it and the id of its status
    element.  (A flicker slider at 0 would give [Infinity]; here [1 / 0]
    is 0.) *)
Definition validationCalls (sliders : gmap string Q)
    : list (string * Q * string) :=
  [ ("CCT", parseInt (sliderValue sliders "cctSlider" 6500), "cctStatus");
    ("CRI", parseInt (sliderValue sliders "criSlider" 80), "criStatus");
    ("Flicker", (1 / sliderValue sliders "flickerSlider" 1) * 10000,
     "flickerStatus");
    ("UGR", parseInt (sliderValue sliders "glareSlider" 6), "glareStatus");
    ("Uniformity", sliderValue sliders "uniformitySlider" 0.8,
     "uniformityStatus");
    ("Melanopic_EDI", parseInt (sliderValue sliders "melanopicSlider" 200),
     "melanopicStatus");
    ("Vertical_Illuminance",
     parseInt (sliderValue sliders "verticalSlider" 300), "verticalStatus");
    ("Exposure_Duration", parseInt (sliderValue sliders "exposureSlider" 8),
     "exposureStatus");
    ("Lux", parseInt (sliderValue sliders "luxSlider" 500), "luxStatus") ].

(** One call, on the status elements of the page by id. *)
Definition validateStep (parameterData : gmap string (list ParamData.t))
    (page : Completion (gmap string StatusElement))
    (call : string * Q * string) : Completion (gmap string StatusElement) :=
  match page with
  | TypeError => TypeError
  | Normal page =>
      let '(paramName, currentValue, statusElementId) := call in
      match updateParameterValidation paramName currentValue
              (parameterData !! paramName) (page !! statusElementId) with
      | TypeError => TypeError
      | Normal None => Normal page
      | Normal (Some element) => Normal (<[statusElementId := element]> page)
      end
  end.

(** [updateValidationStatus()], behind its guards (data loaded, a grade
    and an environment selected, recommendation levels present).  An
    error thrown while the records are collected leaves the function
    before any status element is written. *)
Definition updateValidationStatus (sliders : gmap string Q)
    (selectedEnvironment : string)
    (recommendationLevels :
       list (string * list (string * list (string * ParamInfo.t))))
    (page : gmap string StatusElement)
    : Completion (gmap string StatusElement) :=
  match extractParameterData selectedEnvironment recommendationLevels with
  | TypeError => TypeError
  | Normal parameterData =>
      fold_left (validateStep parameterData) (validationCalls sliders)
        (Normal page)
  end.

(** The record that a level contributes for an entry of its environment,
    and the records of a parameter over all levels, in level order. *)
Definition levelRecord (level : string) (entry : string * ParamInfo.t)
    : option ParamData.t :=
  if String.eqb (fst entry) "range" || String.eqb (fst entry) "images"
  then None
  else
    (fun rg =>
       ParamData.mk (Some rg) (ratingOfLevel level)
         (orElse (ParamInfo.reason (snd entry)) "Standard lighting parameter")
         (orElse (ParamInfo.recommendation (snd entry)) ""))
    <$> ParamInfo.range (snd entry).

Definition recordsOfEnv (param level : string)
    (envData : list (string * ParamInfo.t)) : list ParamData.t :=
  flat_map
    (fun entry =>
       if String.eqb (fst entry) param
       then option_list (levelRecord level entry) else [])
    envData.

Definition recordsFor (param selectedEnvironment : string)
    (recommendationLevels :
       list (string * list (string * list (string * ParamInfo.t))))
    : list ParamData.t :=
  flat_map
    (fun level =>
       match lookupKey selectedEnvironment (snd level) with
       | Some envData => recordsOfEnv param (fst level) envData
       | None => []
       end)
    recommendationLevels.

(** An entry of an environment at which [push] throws: a key of an
    inherited name with a range; a level, and the levels, that hold such
    an entry for the selected environment. *)
Definition throwing (entry : string * ParamInfo.t) : bool :=
  inherited (fst entry) && bool_decide (is_Some (ParamInfo.range (snd entry))).

Definition levelThrows (selectedEnvironment : string)
    (level : string * list (string * list (string * ParamInfo.t))) : bool :=
  match lookupKey selectedEnvironment (snd level) with
  | Some envData => existsb throwing envData
  | None => false
  end.

Definition extractionThrows (selectedEnvironment : string)
    (recommendationLevels :
       list (string * list (string * list (string * ParamInfo.t)))) : bool :=
  existsb (levelThrows selectedEnvironment) recommendationLevels.

(** An array that grows by [push], or stays absent while nothing is
    pushed. *)
Definition pushed {A : Type} (array : option (list A)) (items : list A)
    : option (list A) :=
  match items with
  | [] => array
  | _ => Some (default [] array ++ items)%list
  end.

(** Some record of [records] contains [value] and is rated [rating]. *)
Definition containsRated (value : Q) (rating : string)
    (records : list ParamData.t) : bool :=
  existsb
    (fun r => contains value r
              && String.eqb (toLowerCase (ParamData.rating r)) rating)
    records.

(** The best rating among the records that contain [value], "bad" when
    none rated "good" or "medium" does. *)
Definition statusRating (value : Q) (records : list ParamData.t) : string :=
  if containsRated value "good" records then "good"
  else if containsRated value "medium" records then "medium"
  else "bad".

(** The ids of the nine status elements. *)
Definition statusIds : list string :=
  [ "cctStatus"; "criStatus"; "flickerStatus"; "glareStatus";
    "uniformityStatus"; "melanopicStatus"; "verticalStatus";
    "exposureStatus"; "luxStatus" ].

(** Recommendation levels for two environments, and a page with three of
    the nine status elements. *)
Definition sampleLevels
    : list (string * list (string * list (string * ParamInfo.t))) :=
  [ ("highly_recommended",
     [ ("lab", [ ("CCT", ParamInfo.mk (Some (Range.mk 5000 6500)) "" "") ]);
       ("classroom",
        [ ("range", ParamInfo.mk None "" "");
          ("CCT", ParamInfo.mk (Some (Range.mk 4000 5000)) "calm" "keep");
          ("CRI", ParamInfo.mk (Some (Range.mk 90 100)) "" "") ]) ]);
    ("recommended",
     [ ("classroom",
        [ ("CCT", ParamInfo.mk (Some (Range.mk 3500 5500)) "fair" "tune");
          ("CRI", ParamInfo.mk (Some (Range.mk 80 100)) "fair" "");
          ("emotion", ParamInfo.mk None "" "") ]) ]);
    ("not_recommended",
     [ ("classroom",
        [ ("CCT", ParamInfo.mk (Some (Range.mk 2000 10000)) "harsh" "change") ]) ]) ].

(** Levels in which the classroom has a key named 'constructor'. *)
Definition inheritedKeyLevels
    : list (string * list (string * list (string * ParamInfo.t))) :=
  [ ("highly_recommended",
     [ ("classroom",
        [ ("CCT", ParamInfo.mk (Some (Range.mk 4000 5000)) "calm" "keep");
          ("constructor", ParamInfo.mk (Some (Range.mk 1 2)) "" "") ]) ]) ].

Definition samplePage : gmap string StatusElement :=
  <["cctStatus" := blankStatus]>
    (<["criStatus" := blankStatus]> (<["luxStatus" := blankStatus]> ∅)).

Definition sampleSliders : gmap string Q :=
  <["cctSlider" := 4500]> (<["criSlider" := 85]> ∅).

(** ** Image selection and cycling ([classroom-simulator.js]) *)

(** The part of the loaded data that the image functions read.  A field
    is [None] when it is missing (or, for [images], not an array). *)
Module Api.
Record Environment : Type := mkEnvironment { images : option (list string) }.
Record Level : Type :=
  mkLevel { environments : option (list (string * Environment)) }.
Record Levels : Type := mkLevels { highly_recommended : option Level }.
Record LightingData : Type :=
  mkLightingData { recommendation_levels : option Levels }.
Record GradeData : Type := mkGradeData { lighting_data : option LightingData }.
End Api.

(** The globals [apiData], [selectedGrade], [selectedEnvironment]; an
    empty text stands for a selection that is [null] or empty. *)
Record Session : Type := mkSession {
  apiData : option (list (string * Api.GradeData));
  selectedGrade : string;
  selectedEnvironment : string
}.

(** The guards shared by [cycleToNextImage], [cycleToPreviousImage] and
    [updateImageCounter]: [Normal None] where the function returns
    early, [TypeError] where it reads a property of [undefined],
    otherwise the [images] array of the selected environment. *)
Definition selectedImages (s : Session) : Completion (option (list string)) :=
  match apiData s with
  | None => Normal None
  | Some data =>
      if String.eqb (selectedGrade s) "" || String.eqb (selectedEnvironment s) ""
      then Normal None
      else
        match lookupKey (selectedGrade s) data with
        | None => TypeError
        | Some gradeData =>
            match Api.lighting_data gradeData with
            | None => Normal None
            | Some lightingData =>
                match Api.recommendation_levels lightingData with
                | None => Normal None
                | Some levels =>
                    match Api.highly_recommended levels with
                    | None => TypeError
                    | Some level =>
                        match Api.environments level with
                        | None => TypeError
                        | Some environments =>
                            match lookupKey (selectedEnvironment s)
                                    environments with
                            | None => Normal None
                            | Some selectedEnvData =>
                                Normal (Api.images selectedEnvData)
                            end
                        end
                    end
                end
            end
        end
  end.

(** An index held in [currentImageIndex]: an integer, or [NaN] ([None]). *)
Definition jsIndex : Type := option Z.

(** [(a + b) % n] with [n] a length: the remainder has the sign of the
    dividend, and a remainder by 0 is [NaN]. *)
Definition addMod (a : jsIndex) (b : Z) (n : nat) : jsIndex :=
  match a with
  | Some a => if (n =? 0)%nat then None else Some (Z.rem (a + b) (Z.of_nat n))
  | None => None
  end.

(** [images[i]] for an integer [i]; [None] is [undefined]. *)
Definition imageAt (images : list string) (i : Z) : option string :=
  if (i <? 0)%Z then None else images !! Z.to_nat i.

(** [getClassroomImagePath(imageIndex)]; [random] is the number that
    [Math.random()] returns when it is called.  The result is [None]
    when it is [undefined]. *)
Definition getClassroomImagePath (s : Session) (random : Q)
    (imageIndex : jsIndex) : Completion (option string) :=
  let fallback := Normal (Some "assets/secondary.jpg") in
  match apiData s with
  | None => fallback
  | Some data =>
      if String.eqb (selectedGrade s) "" || String.eqb (selectedEnvironment s) ""
      then fallback
      else
        match lookupKey (selectedGrade s) data with
        | None => TypeError
        | Some gradeData =>
            match Api.lighting_data gradeData with
            | None => fallback
            | Some lightingData =>
                match Api.recommendation_levels lightingData with
                | None => fallback
                | Some levels =>
                    match Api.highly_recommended levels with
                    | None => fallback
                    | Some level =>
                        match Api.environments level with
                        | None => fallback
                        | Some environments =>
                            match lookupKey (selectedEnvironment s)
                                    environments ≫= Api.images with
                            | None => fallback
                            | Some images =>
                                match imageIndex with
                                | Some i =>
                                    if (0 <=? i)%Z
                                       && (i <? Z.of_nat (length images))%Z
                                    then Normal (imageAt images i)
                                    else
                                      Normal
                                        (imageAt images
                                           (Qfloor (random
                                                    * count (length images))))
                                | None =>
                                    Normal
                                      (imageAt images
                                         (Qfloor (random
                                                  * count (length images))))
                                end
                            end
                        end
                    end
                end
            end
        end
  end.

(** The text of the counter element. *)
Inductive CounterText : Type :=
| ImageOne                                       (* 'Image 1' *)
| ImageOf (position : jsIndex) (totalImages : nat).
    (* `Image ${currentImageIndex + 1} of ${totalImages}` *)

(** [updateImageCounter()] on the text of the counter element ([None]:
    the page has no such element). *)
Definition updateImageCounter (s : Session) (currentImageIndex : jsIndex)
    (counter : option CounterText) : Completion (option CounterText) :=
  match counter with
  | None => Normal None
  | Some _ =>
      match selectedImages s with
      | TypeError => TypeError
      | Normal None => Normal (Some ImageOne)
      | Normal (Some images) =>
          Normal (Some (ImageOf ((fun i => i + 1)%Z <$> currentImageIndex)
                          (length images)))
      end
  end.

(** What the image functions change: the global [currentImageIndex], the
    [src] of the [classroomImage] object ([None]: no object yet) and the
    counter element. *)
Record Viewer : Type := mkViewer {
  currentImageIndex : jsIndex;
  classroomImageSrc : option (option string);
  imageCounter : option CounterText
}.

(** The common body of [cycleToNextImage()] ([step = 1]) and
    [cycleToPreviousImage()] ([step = -1 + images.length]). *)
Definition cycleBy (step : nat -> Z) (s : Session) (random : Q) (v : Viewer)
    : Completion Viewer :=
  match selectedImages s with
  | TypeError => TypeError
  | Normal None => Normal v
  | Normal (Some images) =>
      let index := addMod (currentImageIndex v) (step (length images))
                     (length images) in
      match getClassroomImagePath s random index with
      | TypeError => TypeError
      | Normal newImagePath =>
          let src :=
            match classroomImageSrc v with
            | Some _ => Some newImagePath
            | None => None
            end in
          match updateImageCounter s index (imageCounter v) with
          | TypeError => TypeError
          | Normal counter => Normal (mkViewer index src counter)
          end
      end
  end.

Definition cycleToNextImage : Session -> Q -> Viewer -> Completion Viewer :=
  cycleBy (fun _ => 1%Z).

Definition cycleToPreviousImage : Session -> Q -> Viewer -> Completion Viewer :=
  cycleBy (fun n => (-1 + Z.of_nat n)%Z).

(** [k] calls of [cycleToNextImage()] in a row; [random j] is what
    [Math.random()] would return in the call that has [j] calls after
    it. *)
Fixpoint nextTimes (k : nat) (s : Session) (random : nat -> Q) (v : Viewer)
    : Completion Viewer :=
  match k with
  | O => Normal v
  | S k' =>
      match cycleToNextImage s (random k') v with
      | TypeError => TypeError
      | Normal v' => nextTimes k' s random v'
      end
  end.

(** The index that [getClassroomImagePath] uses among [n] images. *)
Definition pickedIndex (random : Q) (imageIndex : jsIndex) (n : nat) : Z :=
  match imageIndex with
  | Some i =>
      if (0 <=? i)%Z && (i <? Z.of_nat n)%Z then i
      else Qfloor (random * count n)
  | None => Qfloor (random * count n)
  end.

(** A session whose selected environment has three images, and a viewer
    showing the first. *)
Definition sampleSession : Session :=
  mkSession
    (Some [ ("grade_3",
             Api.mkGradeData (Some (Api.mkLightingData (Some (Api.mkLevels
               (Some (Api.mkLevel (Some
                 [ ("classroom",
                    Api.mkEnvironment (Some ["a.jpg"; "b.jpg"; "c.jpg"])) ]
               )))))))) ])
    "grade_3" "classroom".

Definition sampleViewer : Viewer :=
  mkViewer (Some 0%Z) (Some (Some "a.jpg")) (Some ImageOne).

(** ** [applyVisualEffects] *)

(** The canvas with its 2d context ([classList] is [None] when either is
    missing) and the pixel state of the transform. *)
Record Stage : Type := mkStage {
  classList : option (gset string);
  pixels : Canvas
}.

(** [cond ? classList.add(cls) : classList.remove(cls)] *)
Definition toggleClass (cond : bool) (cls : string) (classes : gset string)
    : gset string :=
  if cond then {[cls]} ∪ classes else classes ∖ {[cls]}.

(** [applyVisualEffects()], reading the sliders as [updateValidationStatus]
    does.  (A flicker slider at 0 would give [Infinity]; here [1 / 0] is
    0.) *)
Definition applyVisualEffects (sliders : gmap string Q) (st : Stage) : Stage :=
  match classList st, originalImageData (pixels st) with
  | Some classes, Some _ =>
      let cct := parseInt (sliderValue sliders "cctSlider" 6500) in
      let cri := parseInt (sliderValue sliders "criSlider" 80) in
      let flicker :=
        (1 / parseInt (sliderValue sliders "flickerSlider" 1)) * 10000 in
      let glare := parseInt (sliderValue sliders "glareSlider" 6) in
      let pixels := processImageWithLighting cct cri glare flicker (pixels st) in
      let classes := toggleClass (Qltb 8 flicker) "flicker" classes in
      let classes :=
        toggleClass (Qltb 60 glare || Qltb 8 flicker) "blurred" classes in
      mkStage (Some classes) pixels
  | _, _ => st
  end.

(** ** The emotion image ([New/simulator.js]) *)

(** The argument of the call [initializeCanvas(...)] that follows the
    loop of an environment card:
    [totalParams == totalScore ? initializeCanvas(0) : initializeCanvas(1)];
    0 selects the [happyPerson] image and 1 the [sadPerson] image. *)
Definition emotionImageState (card : EnvironmentCard) : nat :=
  if (totalParams card =? totalScore card)%nat then 0%nat else 1%nat.

(** ** The recommendation container ([New/simulator.js]) *)

(** What the container [recommendationCards] shows. *)
Inductive CardsContent : Type :=
| NoRecommendationsCard
    (* 'No Age-Specific Recommendations Available' *)
| ErrorCard
    (* 'Error Loading Recommendations' *)
| EnvironmentCards (cards : list EnvironmentCard).

(** [environment.charAt(0).toUpperCase() + environment.slice(1)], the
    heading of a card. *)
Definition capitalize (s : string) : string :=
  match s with
  | EmptyString => EmptyString
  | String c s' => String (upperAscii c) s'
  end.

Definition cardTitle (card : EnvironmentCard) : string :=
  capitalize (environment card).

Module NewSimulator.

(** The part of the loaded data that [initializeCanvas] and
    [getClassroomImagePath] read.  A field is [None] when it is missing
    (or, for [images], not an array). *)
Record Emotion : Type := mkEmotion {
  happyPerson : option string;
  sadPerson : option string
}.
Record Environment : Type := mkEnvironment {
  images : option (list string);
  emotion : option Emotion
}.
Record Level : Type :=
  mkLevel { environments : option (list (string * Environment)) }.
Record Levels : Type := mkLevels { highly_recommended : option Level }.
Record LightingData : Type :=
  mkLightingData { recommendation_levels : option Levels }.
Record GradeData : Type := mkGradeData { lighting_data : option LightingData }.

(** The globals [apiData], [selectedGrade], [selectedEnvironment]; an
    empty text stands for a selection that is [null] or empty. *)
Record Globals : Type := mkGlobals {
  apiData : option (list (string * GradeData));
  selectedGrade : string;
  selectedEnvironment : string
}.

(** The elements of the page that the two functions look up: the
    container [recommendationCards] with what it shows, whether there is
    an element [infoCards] or [info-cards], and whether there is the
    canvas [lightingCanvas]. *)
Record Page : Type := mkPage {
  recommendationCards : option CardsContent;
  infoCards : bool;
  lightingCanvas : bool
}.

(** The object
    [apiData[selectedGrade].lighting_data.recommendation_levels
       .highly_recommended.environments[selectedEnvironment].emotion];
    [None] when a link of the chain is missing. *)
Definition selectedEmotion (g : Globals) : option Emotion :=
  data ← apiData g;
  gradeData ← lookupKey (selectedGrade g) data;
  lightingData ← lighting_data gradeData;
  levels ← recommendation_levels lightingData;
  level ← highly_recommended levels;
  envs ← environments level;
  envData ← lookupKey (selectedEnvironment g) envs;
  emotion envData.

(** Reading [happyPerson] or [sadPerson] at the end of that chain: a
    missing link makes it a property read on [undefined] (or [null]). *)
Definition emotionImage (g : Globals) (person : Emotion -> option string)
    : Completion (option string) :=
  match selectedEmotion g with
  | Some e => Normal (person e)
  | None => TypeError
  end.

(** [getClassroomImagePath(imageState)]; [random] is the number that
    [Math.random()] returns when it is called. *)
Definition getClassroomImagePath (g : Globals) (random : Q) (imageState : Z)
    : Completion (option string) :=
  let fallback := Normal (Some "assets/secondary.jpg") in
  match apiData g with
  | None => fallback
  | Some data =>
      if String.eqb (selectedGrade g) "" || String.eqb (selectedEnvironment g) ""
      then fallback
      else
        match lookupKey (selectedGrade g) data with
        | None => TypeError
        | Some gradeData =>
            match lighting_data gradeData ≫= recommendation_levels with
            | None => fallback
            | Some levels =>
                match highly_recommended levels ≫= environments with
                | None => fallback
                | Some envs =>
                    match lookupKey (selectedEnvironment g) envs ≫= images with
                    | None => emotionImage g happyPerson
                    | Some imgs =>
                        if (0 <=? imageState)%Z
                           && (imageState <? Z.of_nat (length imgs))%Z
                        then Normal (imageAt imgs imageState)
                        else
                          Normal
                            (imageAt imgs
                               (Qfloor (random * count (length imgs))))
                    end
                end
            end
        end
  end.

(** [initializeCanvas(currentImageState)], as far as it runs before the
    image loads: [Normal None] where it returns early, otherwise the
    source given to [classroomImage].  The path that
    [getClassroomImagePath] returns is not used; the two images are
    logged before one of them is taken. *)
Definition initializeCanvas (g : Globals) (page : Page) (random : Q)
    (currentImageState : nat) : Completion (option (option string)) :=
  if negb (infoCards page) then Normal None
  else if negb (lightingCanvas page) then Normal None
  else
    match getClassroomImagePath g random (Z.of_nat currentImageState),
          emotionImage g happyPerson, emotionImage g sadPerson with
    | Normal _, Normal _, Normal _ =>
        match emotionImage g
                (if (currentImageState =? 0)%nat
                 then happyPerson else sadPerson) with
        | Normal src => Normal (Some src)
        | TypeError => TypeError
        end
    | _, _, _ => TypeError
    end.

(** Body of the loop over the environments of a level; the state is the
    cards appended to [recommendationHTML] so far, or the error thrown. *)
Definition cardStep (g : Globals) (page : Page) (random : Q)
    (currentValues : gmap string Q)
    (cards : Completion (list EnvironmentCard))
    (env : string * list (string * ParamInfo.t))
    : Completion (list EnvironmentCard) :=
  match cards with
  | TypeError => TypeError
  | Normal cards =>
      if negb (String.eqb (fst env) (selectedEnvironment g)) then Normal cards
      else
        let card := environmentCard currentValues (fst env) (snd env) in
        match initializeCanvas g page random (emotionImageState card) with
        | TypeError => TypeError
        | Normal _ => Normal (cards ++ [card])%list
        end
  end.

Definition levelStep (g : Globals) (page : Page) (random : Q)
    (currentValues : gmap string Q)
    (cards : Completion (list EnvironmentCard))
    (level : string * list (string * list (string * ParamInfo.t)))
    : Completion (list EnvironmentCard) :=
  fold_left (cardStep g page random currentValues) (snd level) cards.

(** [updateRecommendationCards(currentValues, gradeData)] on the page,
    with its [try] and [catch].  [gradeData] is [None] when it is
    [undefined], [Some None] when it has no [lighting_data] or that has
    no [recommendation_levels], and otherwise holds the levels, each
    with its [environments]. *)
Definition updateRecommendationCards (g : Globals) (random : Q)
    (currentValues : gmap string Q)
    (gradeData :
       option
         (option (list (string * list (string * list (string * ParamInfo.t))))))
    (page : Page) : Page :=
  match recommendationCards page with
  | None => page
  | Some _ =>
      let attempt : Completion CardsContent :=
        match gradeData with
        | None => TypeError
        | Some None => Normal NoRecommendationsCard
        | Some (Some recommendationLevels) =>
            match fold_left (levelStep g page random currentValues)
                    recommendationLevels (Normal []) with
            | TypeError => TypeError
            | Normal [] => Normal NoRecommendationsCard
            | Normal cards => Normal (EnvironmentCards cards)
            end
        end in
      match attempt with
      | Normal content =>
          mkPage (Some content) (infoCards page) (lightingCanvas page)
      | TypeError =>
          mkPage (Some ErrorCard) (infoCards page) (lightingCanvas page)
      end
  end.

(** [initializeCanvas] finds its elements but not the emotion images. *)
Definition canvasThrows (g : Globals) (page : Page) : bool :=
  infoCards page && lightingCanvas page
  && negb (bool_decide (is_Some (selectedEmotion g))).

(** Data with the emotion images of the classroom, and without. *)
Definition withEmotion : Globals :=
  mkGlobals
    (Some
       [ ("grade_3",
          mkGradeData
            (Some
               (mkLightingData
                  (Some
                     (mkLevels
                        (Some
                           (mkLevel
                              (Some
                                 [ ("classroom",
                                    mkEnvironment None
                                      (Some
                                         (mkEmotion (Some "happy.png")
                                            (Some "sad.png")))) ])))))))) ])
    "grade_3" "classroom".

Definition withoutEmotion : Globals :=
  mkGlobals
    (Some
       [ ("grade_3",
          mkGradeData
            (Some
               (mkLightingData
                  (Some
                     (mkLevels
                        (Some
                           (mkLevel
                              (Some
                                 [ ("classroom",
                                    mkEnvironment (Some ["a.jpg"]) None) ])))))))) ])
    "grade_3" "classroom".

Definition fullPage : Page := mkPage (Some NoRecommendationsCard) true true.

End NewSimulator.

(** Channel-wise order on pixels, and the least and greatest channel. *)
Definition pixelLe (p q : rgb Z) : Prop :=
  let '(r, g, b) := p in
  let '(r', g', b') := q in
  (r <= r')%Z /\ (g <= g')%Z /\ (b <= b')%Z.

Definition minChannel (px : rgb Z) : Z :=
  let '(r, g, b) := px in Z.min r (Z.min g b).

Definition maxChannel (px : rgb Z) : Z :=
  let '(r, g, b) := px in Z.max r (Z.max g b).

(** A key of [gradeData] for which [comparisonCards] builds a card, and
    a grade whose listed keys hold a record without a range. *)
Definition listed (entry : string * option (list ParamData.t)) : bool :=
  negb (String.eqb (fst entry) "age_range"
        || String.eqb (fst entry) "lighting_data")
  && bool_decide (is_Some (snd entry)).

Definition missingRange
    (gradeData : list (string * option (list ParamData.t))) : Prop :=
  exists param records r,
    In (param, Some records) gradeData /\
    param <> "age_range" /\ param <> "lighting_data" /\
    In r records /\ ParamData.range r = None.


(** A stage with one pixel and two classes, and sliders with a flicker
    frequency of 1000 and a glare of 6. *)
Definition sampleStage : Stage :=
  mkStage (Some ({["lit"]} ∪ {["blurred"]})) onePixelCanvas.

Definition flickerSliders : gmap string Q :=
  <["flickerSlider" := 1000]> (<["glareSlider" := 6]> ∅).

(* ================================================================== *)
(** * Part II: theorems                                                *)
(* ================================================================== *)

(** ** Numbers *)

Lemma Qltb_lt (a b : Q) : Qltb a b = true <-> a < b.
Proof.
  unfold Qltb. rewrite negb_true_iff.
  split; intros H.
  - apply Qnot_le_lt. intros Hle. apply Qle_bool_iff in Hle. congruence.
  - destruct (Qle_bool b a) eqn:E; [|reflexivity].
    apply Qle_bool_iff in E. exfalso. exact (Qlt_not_le _ _ H E).
Qed.

Lemma Qle_bool_false (a b : Q) : Qle_bool a b = false <-> b < a.
Proof.
  rewrite <- Qltb_lt. unfold Qltb.
  destruct (Qle_bool a b); simpl; split; congruence.
Qed.

Lemma clamp_range (value : Q) : (0 <= clamp value <= 255)%Z.
Proof. unfold clamp. lia. Qed.

(** [Math.round] returns the integer nearest to its argument. *)
Lemma Math_round_nearest (x : Q) :
  x - (1 # 2) < inject_Z (Math_round x) /\ inject_Z (Math_round x) <= x + (1 # 2).
Proof.
  unfold Math_round. split.
  - pose proof (Qlt_floor (x + (1 # 2))) as H.
    rewrite inject_Z_plus in H. change (inject_Z 1) with 1 in H. lra.
  - apply Qfloor_le.
Qed.

Lemma Qfloor_unique (x : Q) (z : Z) :
  inject_Z z <= x -> x < inject_Z (z + 1) -> Qfloor x = z.
Proof.
  intros Hlo Hhi.
  pose proof (Qfloor_le x) as Hfl. pose proof (Qlt_floor x) as Hfu.
  assert (H1 : inject_Z (Qfloor x) < inject_Z (z + 1)) by lra.
  assert (H2 : inject_Z z < inject_Z (Qfloor x + 1)) by lra.
  rewrite <- Zlt_Qlt in H1, H2. lia.
Qed.

Lemma Math_round_inject_Z (z : Z) : Math_round (inject_Z z) = z.
Proof.
  unfold Math_round. apply Qfloor_unique.
  - lra.
  - rewrite inject_Z_plus. change (inject_Z 1) with 1. lra.
Qed.

(** [clamp] is the identity on a byte. *)
Lemma clamp_inject_Z (z : Z) : (0 <= z <= 255)%Z -> clamp (inject_Z z) = z.
Proof. intros Hz. unfold clamp. rewrite Math_round_inject_Z. lia. Qed.

#[global] Instance Math_round_comp : Proper (Qeq ==> eq) Math_round.
Proof. intros x y Hxy. unfold Math_round. apply Qfloor_comp. now rewrite Hxy. Qed.

#[global] Instance clamp_comp : Proper (Qeq ==> eq) clamp.
Proof. intros x y Hxy. unfold clamp. now rewrite Hxy. Qed.

#[global] Instance lerp_comp : Proper (Qeq ==> Qeq ==> Qeq ==> Qeq) lerp.
Proof.
  intros a a' Ha b b' Hb t t' Ht. unfold lerp. now rewrite Ha, Hb, Ht.
Qed.

#[global] Instance Qltb_comp : Proper (Qeq ==> Qeq ==> eq) Qltb.
Proof. intros a a' Ha b b' Hb. unfold Qltb. now rewrite Ha, Hb. Qed.

Lemma clamp3_comp (a a' b b' c c' : Q) :
  a == a' -> b == b' -> c == c' ->
  (clamp a, clamp b, clamp c) = (clamp a', clamp b', clamp c').
Proof.
  intros Ha Hb Hc.
  now rewrite (clamp_comp _ _ Ha), (clamp_comp _ _ Hb), (clamp_comp _ _ Hc).
Qed.


(** ** The Kelvin ladder and the glare factor *)

Ltac Qcmp_cases :=
  repeat match goal with
  | |- context [Qle_bool ?a ?b] =>
      let E := fresh "E" in
      destruct (Qle_bool a b) eqn:E;
      [apply Qle_bool_iff in E | apply Qle_bool_false in E]
  end.

(** C4. The (red, green, blue) multipliers are fixed by seven ascending
    Kelvin buckets, each closed at its upper end and open at its lower
    end; exactly one bucket applies to any [cct], and [cct = 5000] falls in
    the fourth, giving (1.1, 1.0, 0.9). *)
Theorem colorMultipliers_buckets (cct : Q) :
  ((cct <= 2000 /\ colorMultipliers cct = (1.8, 0.8, 0.4)) \/
   (2000 < cct /\ cct <= 3000 /\ colorMultipliers cct = (1.6, 0.9, 0.5)) \/
   (3000 < cct /\ cct <= 4000 /\ colorMultipliers cct = (1.3, 1.0, 0.7)) \/
   (4000 < cct /\ cct <= 5000 /\ colorMultipliers cct = (1.1, 1.0, 0.9)) \/
   (5000 < cct /\ cct <= 6000 /\ colorMultipliers cct = (0.9, 1.0, 1.1)) \/
   (6000 < cct /\ cct <= 7000 /\ colorMultipliers cct = (0.7, 0.9, 1.3)) \/
   (7000 < cct /\ colorMultipliers cct = (0.5, 0.8, 1.6)))
  /\ colorMultipliers 5000 = (1.1, 1.0, 0.9)
  /\ colorMultipliers (5000 + 1) = (0.9, 1.0, 1.1).
Proof.
  split; [|split; reflexivity].
  unfold colorMultipliers. Qcmp_cases; tauto.
Qed.

(** C5. The brightness factor is [1.0 + (glare/19)*0.3] up to and
    including glare 19, where it stays within [1.0, 1.3] for glare in
    [0, 19], and [1.3 + ((glare-19)/9)*2.7] above 19, with no cap: past
    glare 28 it exceeds 4.  At glare 19 it is 1.3 and at glare 28 it is 4. *)
Theorem brightnessMultiplier_piecewise (glare : Q) :
  ((glare <= 19 /\ brightnessMultiplier glare = 1.0 + (glare / 19) * 0.3) \/
   (19 < glare /\
    brightnessMultiplier glare = 1.3 + ((glare - 19) / 9) * 2.7))
  /\ (0 <= glare -> glare <= 19 ->
      1.0 <= brightnessMultiplier glare /\ brightnessMultiplier glare <= 1.3)
  /\ (28 < glare -> 4 < brightnessMultiplier glare)
  /\ brightnessMultiplier 19 == 1.3
  /\ brightnessMultiplier 28 == 4.
Proof.
  split; [|split; [|split; [|split]]].
  - unfold brightnessMultiplier. Qcmp_cases; tauto.
  - intros H0 H19.
    assert (E : Qle_bool glare 19 = true) by (now apply Qle_bool_iff).
    unfold brightnessMultiplier. rewrite E.
    unfold Qdiv. change (/ 19) with (1 # 19). split; lra.
  - intros H28.
    assert (E : Qle_bool glare 19 = false) by (apply Qle_bool_false; lra).
    unfold brightnessMultiplier. rewrite E.
    unfold Qdiv. change (/ 9) with (1 # 9). lra.
  - reflexivity.
  - reflexivity.
Qed.

Lemma brightnessMultiplier_piecewise_witness :
  (1.0 <= brightnessMultiplier 10 /\ brightnessMultiplier 10 <= 1.3)
  /\ 4 < brightnessMultiplier 37.
Proof.
  split.
  - apply (proj1 (proj2 (brightnessMultiplier_piecewise 10)));
      unfold Qle; simpl; lia.
  - apply (proj1 (proj2 (proj2 (brightnessMultiplier_piecewise 37)))).
    unfold Qlt; simpl; lia.
Defined.

(** ** One pixel *)

Lemma applyTemperature_bytes mult px : allBytes (applyTemperature mult px).
Proof.
  destruct mult as [[rm gm] bm], px as [[r g] b]. cbn.
  repeat split; apply clamp_range.
Qed.

Lemma applyGlare_bytes brightness px : allBytes (applyGlare brightness px).
Proof. destruct px as [[r g] b]. cbn. repeat split; apply clamp_range. Qed.

Lemma applyCRI_bytes cri px : allBytes (applyCRI cri px).
Proof.
  destruct px as [[r g] b]. unfold applyCRI.
  destruct (Qltb cri 95); repeat split; apply clamp_range.
Qed.

Lemma channel_byte c px : allBytes px -> isByte (channel c px).
Proof.
  destruct px as [[r g] b]. intros (Hr & Hg & Hb).
  destruct c as [|[|c]]; assumption.
Qed.


(** The loop body depends on the brightness and the CRI only through
    their numeric value. *)
Lemma applyGlare_comp brightness brightness' px :
  brightness == brightness' ->
  applyGlare brightness px = applyGlare brightness' px.
Proof.
  intros Hb. destruct px as [[r g] b]. cbn.
  apply clamp3_comp; now rewrite Hb.
Qed.

Lemma applyCRI_comp cri cri' px :
  cri == cri' -> applyCRI cri px = applyCRI cri' px.
Proof.
  intros Hc. destruct px as [[r g] b]. unfold applyCRI.
  rewrite (Qltb_comp cri cri' Hc 95 95 (Qeq_refl 95)).
  destruct (Qltb cri' 95); apply clamp3_comp; now rewrite Hc.
Qed.

Lemma processPixel_comp mult brightness brightness' cri cri' px :
  brightness == brightness' -> cri == cri' ->
  processPixel mult brightness cri px = processPixel mult brightness' cri' px.
Proof.
  intros Hb Hc. unfold processPixel.
  rewrite (applyGlare_comp _ _ (applyTemperature mult px) Hb).
  now apply applyCRI_comp.
Qed.

(** ** The pixel loop *)

Lemma newPixel_full mult brightness cri bytes base :
  (base + 2 < length bytes)%nat ->
  newPixel mult brightness cri bytes base =
    processPixel mult brightness cri (pixelAt bytes base).
Proof.
  intros Hlen. unfold newPixel, pixelAt.
  destruct (lookup_lt_is_Some_2 bytes base) as [r Hr]; [lia|].
  destruct (lookup_lt_is_Some_2 bytes (base + 1)) as [g Hg]; [lia|].
  destruct (lookup_lt_is_Some_2 bytes (base + 2)) as [b Hb]; [lia|].
  rewrite Hr, Hg, Hb.
  now rewrite (list_lookup_total_correct _ _ _ Hr),
    (list_lookup_total_correct _ _ _ Hg), (list_lookup_total_correct _ _ _ Hb).
Qed.

Lemma newPixel_bytes mult brightness cri bytes i :
  allBytes (newPixel mult brightness cri bytes i).
Proof.
  unfold newPixel.
  destruct (bytes !! i), (bytes !! (i + 1)%nat), (bytes !! (i + 2)%nat);
    try (cbn; unfold isByte; lia).
  unfold processPixel. apply applyCRI_bytes.
Qed.

Lemma newPixel_comp mult brightness brightness' cri cri' bytes i :
  brightness == brightness' -> cri == cri' ->
  newPixel mult brightness cri bytes i = newPixel mult brightness' cri' bytes i.
Proof.
  intros Hb Hc. unfold newPixel.
  destruct (bytes !! i), (bytes !! (i + 1)%nat), (bytes !! (i + 2)%nat);
    try reflexivity.
  now apply processPixel_comp.
Qed.

Section PixelLoop.
Variables (mult : Q * Q * Q) (brightness cri : Q).

Lemma pixelLoop_length fuel i bytes :
  length (pixelLoop fuel mult brightness cri i bytes) = length bytes.
Proof.
  revert i bytes. induction fuel as [|fuel IH]; intros i bytes; cbn [pixelLoop].
  - reflexivity.
  - case_bool_decide; [|reflexivity].
    destruct (newPixel _ _ _ _ _) as [[r g] b].
    rewrite IH, !length_insert. reflexivity.
Qed.

(** Bytes before the loop index are final. *)
Lemma pixelLoop_lookup_lt fuel i bytes j :
  (j < i)%nat ->
  pixelLoop fuel mult brightness cri i bytes !! j = bytes !! j.
Proof.
  revert i bytes. induction fuel as [|fuel IH]; intros i bytes Hj; cbn [pixelLoop].
  - reflexivity.
  - case_bool_decide; [|reflexivity].
    destruct (newPixel _ _ _ _ _) as [[r g] b].
    rewrite IH by lia.
    rewrite !list_lookup_insert_ne by lia. reflexivity.
Qed.

(** The loop never stores at an offset that is 3 modulo 4. *)
Lemma pixelLoop_lookup_alpha fuel i bytes j :
  (i mod 4 = 0)%nat -> (j mod 4 = 3)%nat ->
  pixelLoop fuel mult brightness cri i bytes !! j = bytes !! j.
Proof.
  revert i bytes. induction fuel as [|fuel IH]; intros i bytes Hi Hj; cbn [pixelLoop].
  - reflexivity.
  - case_bool_decide; [|reflexivity].
    destruct (newPixel _ _ _ _ _) as [[r g] b].
    rewrite IH by lia.
    rewrite !list_lookup_insert_ne by lia. reflexivity.
Qed.

(** Stores at [i], [i+1], [i+2] do not change what a later iteration
    reads. *)
Lemma newPixel_insert_before bytes i base r g b :
  (i + 4 <= base)%nat ->
  newPixel mult brightness cri
    (<[(i + 2)%nat := b]> (<[(i + 1)%nat := g]> (<[i := r]> bytes))) base =
  newPixel mult brightness cri bytes base.
Proof.
  intros Hle. unfold newPixel.
  rewrite !list_lookup_insert_ne by lia. reflexivity.
Qed.

(** With enough fuel, every colour byte from the loop index on holds
    the matching channel of what the iteration of its pixel stores. *)
Lemma pixelLoop_lookup_channel fuel i bytes j :
  (i mod 4 = 0)%nat -> (length bytes <= i + 4 * fuel)%nat ->
  (i <= j)%nat -> (j < length bytes)%nat -> (j mod 4 <> 3)%nat ->
  pixelLoop fuel mult brightness cri i bytes !! j =
    Some (channel (j mod 4)
            (newPixel mult brightness cri bytes (j - j mod 4))).
Proof.
  revert i bytes.
  induction fuel as [|fuel IH]; intros i bytes Hi Hfuel Hij Hj Hc; cbn [pixelLoop].
  - lia.
  - rewrite bool_decide_eq_true_2 by lia.
    destruct (newPixel mult brightness cri bytes i) as [[r g] b] eqn:Epx.
    destruct (decide (j < i + 4)%nat) as [Hlt|Hge].
    + rewrite pixelLoop_lookup_lt by lia.
      assert (Hbase : (j - j mod 4 = i)%nat) by lia.
      rewrite Hbase, Epx.
      assert (Hcases : (j = i \/ j = i + 1 \/ j = i + 2)%nat) by lia.
      destruct Hcases as [-> | [-> | ->]].
      * rewrite !list_lookup_insert_ne by lia.
        rewrite list_lookup_insert_eq by lia.
        replace (i mod 4)%nat with 0%nat by lia. reflexivity.
      * rewrite list_lookup_insert_ne by lia.
        rewrite list_lookup_insert_eq by (rewrite length_insert; lia).
        replace ((i + 1) mod 4)%nat with 1%nat by lia. reflexivity.
      * rewrite list_lookup_insert_eq by (rewrite !length_insert; lia).
        replace ((i + 2) mod 4)%nat with 2%nat by lia. reflexivity.
    + rewrite IH; rewrite ?length_insert; try lia.
      rewrite newPixel_insert_before by lia. reflexivity.
Qed.

Lemma pixelLoop_comp fuel brightness' cri' i bytes :
  brightness == brightness' -> cri == cri' ->
  pixelLoop fuel mult brightness cri i bytes =
  pixelLoop fuel mult brightness' cri' i bytes.
Proof.
  intros Hb Hc. revert i bytes.
  induction fuel as [|fuel IH]; intros i bytes; cbn [pixelLoop].
  - reflexivity.
  - case_bool_decide; [|reflexivity].
    rewrite (newPixel_comp mult _ _ _ _ bytes i Hb Hc).
    destruct (newPixel _ _ _ _ _) as [[r g] b]. apply IH.
Qed.

End PixelLoop.

Lemma colorMultipliers_comp cct cct' :
  cct == cct' -> colorMultipliers cct = colorMultipliers cct'.
Proof.
  intros H. unfold colorMultipliers.
  now rewrite !(fun k => Qleb_comp _ _ H k k (Qeq_refl k)).
Qed.

Lemma brightnessMultiplier_comp glare glare' :
  glare == glare' -> brightnessMultiplier glare == brightnessMultiplier glare'.
Proof.
  intros H. unfold brightnessMultiplier.
  rewrite (Qleb_comp _ _ H 19 19 (Qeq_refl 19)).
  destruct (Qle_bool glare' 19); now rewrite H.
Qed.

(** ** The transform on a canvas *)

Lemma processImageWithLighting_painted cct cri glare flicker st original :
  originalImageData st = Some original ->
  processImageWithLighting cct cri glare flicker st =
    mkCanvas (Some original)
      (Some (mkImageData
               (pixelLoop (length (data original)) (colorMultipliers cct)
                  (brightnessMultiplier glare) cri 0%nat (data original))
               (width original) (height original))).
Proof.
  intros H. unfold processImageWithLighting. rewrite H. cbn. reflexivity.
Qed.

(** C6. [clamp] rounds to the nearest integer and cuts at 0 and 255;
    each of the three stages of the loop body ends in it, so every stage
    yields bytes; and every red, green and blue byte of the painted
    buffer lies in [0, 255], whatever the snapshot and the four
    parameters. *)
Theorem processImageWithLighting_channels_in_range
    (cct cri glare flicker : Q) (st : Canvas) (original : ImageData) :
  originalImageData st = Some original ->
  (forall value : Q,
      isByte (clamp value) /\
      value - (1 # 2) < inject_Z (Math_round value) /\
      inject_Z (Math_round value) <= value + (1 # 2) /\
      ((Math_round value < 0)%Z -> clamp value = 0%Z) /\
      ((255 < Math_round value)%Z -> clamp value = 255%Z) /\
      (isByte (Math_round value) -> clamp value = Math_round value)) /\
  (forall px : rgb Z,
      allBytes (applyTemperature (colorMultipliers cct) px) /\
      allBytes (applyGlare (brightnessMultiplier glare) px) /\
      allBytes (applyCRI cri px)) /\
  exists out : ImageData,
    painted (processImageWithLighting cct cri glare flicker st) = Some out /\
    length (data out) = length (data original) /\
    forall j : nat,
      (j < length (data original))%nat -> (j mod 4 <> 3)%nat ->
      exists v : Z, data out !! j = Some v /\ isByte v.
Proof.
  intros Hst. split; [|split].
  - intros value. pose proof (Math_round_nearest value) as [Hlo Hhi].
    unfold isByte, clamp. repeat split; try assumption; intros; lia.
  - intros px.
    auto using applyTemperature_bytes, applyGlare_bytes, applyCRI_bytes.
  - rewrite (processImageWithLighting_painted _ _ _ _ _ _ Hst). cbn [painted].
    eexists. split; [reflexivity|]. cbn [data]. split.
    + apply pixelLoop_length.
    + intros j Hj Hc. eexists. split.
      * apply pixelLoop_lookup_channel; lia.
      * apply channel_byte, newPixel_bytes.
Qed.

Lemma processImageWithLighting_channels_in_range_witness :
  originalImageData onePixelCanvas = Some onePixel /\
  exists out : ImageData,
    painted (processImageWithLighting 6500 80 6 200 onePixelCanvas) = Some out /\
    length (data out) = length (data onePixel) /\
    forall j : nat,
      (j < length (data onePixel))%nat -> (j mod 4 <> 3)%nat ->
      exists v : Z, data out !! j = Some v /\ isByte v.
Proof.
  split; [reflexivity|].
  apply (processImageWithLighting_channels_in_range
           6500 80 6 200 onePixelCanvas onePixel).
  reflexivity.
Defined.

(** C10. The loop stores only at offsets [i], [i+1], [i+2] of each
    four-byte pixel: the painted buffer has the length of the snapshot
    and, at every offset that is 3 modulo 4, the snapshot's alpha byte. *)
Theorem processImageWithLighting_alpha_unchanged
    (cct cri glare flicker : Q) (st : Canvas) (original : ImageData) :
  originalImageData st = Some original ->
  exists out : ImageData,
    painted (processImageWithLighting cct cri glare flicker st) = Some out /\
    length (data out) = length (data original) /\
    forall j : nat,
      (j mod 4 = 3)%nat -> data out !! j = data original !! j.
Proof.
  intros Hst.
  rewrite (processImageWithLighting_painted _ _ _ _ _ _ Hst). cbn [painted].
  eexists. split; [reflexivity|]. cbn [data]. split.
  - apply pixelLoop_length.
  - intros j Hj. apply pixelLoop_lookup_alpha; [reflexivity|assumption].
Qed.

Lemma processImageWithLighting_alpha_unchanged_witness :
  originalImageData onePixelCanvas = Some onePixel /\
  exists out : ImageData,
    painted (processImageWithLighting 2700 60 25 200 onePixelCanvas) = Some out /\
    length (data out) = length (data onePixel) /\
    forall j : nat,
      (j mod 4 = 3)%nat -> data out !! j = data onePixel !! j.
Proof.
  split; [reflexivity|].
  apply (processImageWithLighting_alpha_unchanged
           2700 60 25 200 onePixelCanvas onePixel).
  reflexivity.
Defined.

(** With enough fuel, a whole pixel of the result is the loop body
    applied to the same pixel of the input. *)
Lemma pixelLoop_pixelAt mult brightness cri bytes base :
  (base mod 4 = 0)%nat -> (base + 2 < length bytes)%nat ->
  pixelAt (pixelLoop (length bytes) mult brightness cri 0%nat bytes) base =
    processPixel mult brightness cri (pixelAt bytes base).
Proof.
  intros Hbase Hlen.
  assert (Hch : forall c : nat, (c < 3)%nat ->
            pixelLoop (length bytes) mult brightness cri 0%nat bytes
              !!! (base + c)%nat =
            channel c (processPixel mult brightness cri (pixelAt bytes base))).
  { intros c Hc. apply list_lookup_total_correct.
    rewrite pixelLoop_lookup_channel by lia.
    replace ((base + c) mod 4)%nat with c by lia.
    replace (base + c - c)%nat with base by lia.
    now rewrite newPixel_full. }
  unfold pixelAt at 1.
  rewrite <- (Nat.add_0_r base) at 1.
  rewrite !Hch by lia.
  destruct (processPixel _ _ _ _) as [[r g] b]. reflexivity.
Qed.



(** C9. The transform is a function of the snapshot and of the numeric
    values of its parameters alone: two invocations on canvases holding
    the same snapshot (whatever was painted before), with parameters of
    equal value, paint identical buffers; the snapshot itself is left as
    it was, so invoking the transform again repaints the same bytes. *)
Theorem processImageWithLighting_deterministic
    (cct cct' cri cri' glare glare' flicker flicker' : Q)
    (st st' : Canvas) (original : ImageData) :
  originalImageData st = Some original ->
  originalImageData st' = Some original ->
  cct == cct' -> cri == cri' -> glare == glare' -> flicker == flicker' ->
  painted (processImageWithLighting cct cri glare flicker st) =
    painted (processImageWithLighting cct' cri' glare' flicker' st') /\
  originalImageData (processImageWithLighting cct cri glare flicker st) =
    Some original /\
  painted (processImageWithLighting cct' cri' glare' flicker'
             (processImageWithLighting cct cri glare flicker st)) =
    painted (processImageWithLighting cct cri glare flicker st).
Proof.
  intros Hst Hst' Hcct Hcri Hglare _.
  unfold processImageWithLighting. rewrite Hst, Hst'.
  cbn [originalImageData painted data width height].
  rewrite (colorMultipliers_comp _ _ Hcct).
  rewrite (pixelLoop_comp _ _ _ _ _ _ _ _
             (brightnessMultiplier_comp _ _ Hglare) Hcri).
  repeat split.
Qed.

Lemma processImageWithLighting_deterministic_witness :
  painted (processImageWithLighting 6500 80 6 200 onePixelCanvas) =
    painted (processImageWithLighting (13000 # 2) (160 # 2) (12 # 2) (400 # 2)
               (mkCanvas (Some onePixel) (Some onePixel))) /\
  originalImageData (processImageWithLighting 6500 80 6 200 onePixelCanvas) =
    Some onePixel /\
  painted (processImageWithLighting (13000 # 2) (160 # 2) (12 # 2) (400 # 2)
             (processImageWithLighting 6500 80 6 200 onePixelCanvas)) =
    painted (processImageWithLighting 6500 80 6 200 onePixelCanvas).
Proof.
  apply (processImageWithLighting_deterministic
           6500 (13000 # 2) 80 (160 # 2) 6 (12 # 2) 200 (400 # 2)
           onePixelCanvas (mkCanvas (Some onePixel) (Some onePixel)) onePixel);
    reflexivity.
Defined.

(** ** The environment score *)






Lemma count_pos (n : nat) : (0 < n)%nat -> 0 < count n.
Proof.
  intros H. unfold count. change 0 with (inject_Z 0). rewrite <- Zlt_Qlt. lia.
Qed.


Lemma environmentCard_percentage_eq currentValues env envData :
  recommendationPercentage (environmentCard currentValues env envData) =
    if (0 <? totalParams (environmentCard currentValues env envData))%nat
    then (count (totalScore (environmentCard currentValues env envData)) /
          count (totalParams (environmentCard currentValues env envData))) * 100
    else 0.
Proof.
  unfold environmentCard.
  destruct (fold_left _ _ _) as [[score params] recs]. reflexivity.
Qed.



(** ** Ratings *)

Lemma lowerAscii_idem (c : ascii) : lowerAscii (lowerAscii c) = lowerAscii c.
Proof.
  destruct c as [b0 b1 b2 b3 b4 b5 b6 b7].
  destruct b0, b1, b2, b3, b4, b5, b6, b7; reflexivity.
Qed.

Lemma toLowerCase_idem (s : string) : toLowerCase (toLowerCase s) = toLowerCase s.
Proof.
  induction s as [|c s IH]; cbn [toLowerCase]; [reflexivity|].
  now rewrite lowerAscii_idem, IH.
Qed.

Lemma getRatingPriority_toLowerCase (s : string) :
  getRatingPriority (toLowerCase s) = getRatingPriority s.
Proof. unfold getRatingPriority. now rewrite toLowerCase_idem. Qed.

Lemma getRatingPriority_bad : getRatingPriority "bad" = 1%nat.
Proof. reflexivity. Qed.

(** Only the three known ratings have a priority above 0, and only
    "good" and "medium" outrank "bad". *)
Lemma getRatingPriority_above_bad (s : string) :
  (1 < getRatingPriority s)%nat <->
  toLowerCase s = "good" \/ toLowerCase s = "medium".
Proof.
  unfold getRatingPriority.
  destruct (String.eqb_spec (toLowerCase s) "good") as [->|Hg].
  { split; [auto | lia]. }
  destruct (String.eqb_spec (toLowerCase s) "medium") as [->|Hm].
  { split; [auto | lia]. }
  destruct (String.eqb (toLowerCase s) "bad"); split; try lia; tauto.
Qed.

(** ** The first scan of [updateParameterValidation] *)

Lemma matchStep_cases value bestMatch bestRating x :
  (matchStep value (bestMatch, bestRating) x = (bestMatch, bestRating) /\
   (contains value x = true ->
    (priorityOf x <= getRatingPriority bestRating)%nat)) \/
  (matchStep value (bestMatch, bestRating) x =
     (Some x, toLowerCase (ParamData.rating x)) /\
   contains value x = true /\
   (getRatingPriority bestRating < priorityOf x)%nat).
Proof.
  unfold matchStep, contains, priorityOf.
  destruct (ParamData.range x) as [rg|]; [|left; split; [reflexivity|discriminate]].
  destruct (inRange value rg); [|left; split; [reflexivity|discriminate]].
  rewrite getRatingPriority_toLowerCase.
  destruct (Nat.ltb_spec (getRatingPriority bestRating)
              (getRatingPriority (ParamData.rating x))) as [Hlt|Hge].
  - right. auto.
  - left. auto.
Qed.

Lemma fold_matchStep value records bestMatch bestRating :
  (fold_left (matchStep value) records (bestMatch, bestRating)
     = (bestMatch, bestRating) /\
   forall j r', records !! j = Some r' -> contains value r' = true ->
     (priorityOf r' <= getRatingPriority bestRating)%nat) \/
  (exists i r,
     fold_left (matchStep value) records (bestMatch, bestRating)
       = (Some r, toLowerCase (ParamData.rating r)) /\
     firstBestMatch value records i r /\
     (getRatingPriority bestRating < priorityOf r)%nat).
Proof.
  revert bestMatch bestRating.
  induction records as [|x records IH]; intros bestMatch bestRating.
  - left. split; [reflexivity|]. intros j r' H. discriminate.
  - cbn [fold_left].
    destruct (matchStep_cases value bestMatch bestRating x)
      as [[-> Hx] | (-> & Hc & Hlt)].
    + destruct (IH bestMatch bestRating) as [[Heq Hall] | (i & r & Heq & Hfb & Hlt)].
      * left. split; [exact Heq|].
        intros [|j] r' Hj Hr'; cbn in Hj.
        -- injection Hj as <-. auto.
        -- eauto.
      * right. exists (S i), r. split; [exact Heq|]. split; [|exact Hlt].
        destruct Hfb as (Hi & Hci & Hmax).
        split; [exact Hi|]. split; [exact Hci|].
        intros [|j] r' Hj Hr'; cbn in Hj.
        -- injection Hj as <-. specialize (Hx Hr'). lia.
        -- destruct (Hmax j r' Hj Hr'). lia.
    + assert (Hp : getRatingPriority (toLowerCase (ParamData.rating x))
                   = priorityOf x) by apply getRatingPriority_toLowerCase.
      destruct (IH (Some x) (toLowerCase (ParamData.rating x)))
        as [[Heq Hall] | (i & r & Heq & Hfb & Hlt')].
      * right. exists 0%nat, x. split; [exact Heq|]. split; [|exact Hlt].
        split; [reflexivity|]. split; [exact Hc|].
        intros [|j] r' Hj Hr'; cbn in Hj.
        -- injection Hj as <-. lia.
        -- specialize (Hall j r' Hj Hr'). lia.
      * right. exists (S i), r. split; [exact Heq|]. split; [|lia].
        destruct Hfb as (Hi & Hci & Hmax).
        split; [exact Hi|]. split; [exact Hci|].
        intros [|j] r' Hj Hr'; cbn in Hj.
        -- injection Hj as <-. lia.
        -- destruct (Hmax j r' Hj Hr'). lia.
Qed.

(** ** Scans that keep the first nearest element *)

Section ArgMin.
Context {A : Type} (dist : A -> option Q).

Lemma argminStep_cases d0 sel x :
  (argminStep dist (Some d0, sel) x = (Some d0, sel) /\
   forall e, dist x = Some e -> d0 <= e) \/
  (exists d, argminStep dist (Some d0, sel) x = (Some d, Some x) /\
             dist x = Some d /\ d < d0).
Proof.
  unfold argminStep. destruct (dist x) as [d|].
  - cbn [belowDistance]. destruct (Qltb d d0) eqn:E.
    + right. exists d. apply Qltb_lt in E. auto.
    + left. split; [reflexivity|]. intros e [= <-].
      unfold Qltb in E. apply negb_false_iff, Qle_bool_iff in E. exact E.
  - left. split; [reflexivity|]. discriminate.
Qed.

Lemma firstClosest_cons_later x l i y d :
  firstClosest dist l i y d ->
  (forall e, dist x = Some e -> d < e) ->
  firstClosest dist (x :: l) (S i) y d.
Proof.
  intros (Hi & Hd & Hmin) Hx. split; [exact Hi|]. split; [exact Hd|].
  intros [|j] z e Hj He; cbn in Hj.
  - injection Hj as <-. specialize (Hx e He). split; [lra | intros _; exact Hx].
  - destruct (Hmin j z e Hj He) as [Hle Hlt]. split; [exact Hle|].
    intros Hji. apply Hlt. lia.
Qed.

Lemma firstClosest_cons_head x l d :
  dist x = Some d ->
  (forall j y e, l !! j = Some y -> dist y = Some e -> d <= e) ->
  firstClosest dist (x :: l) 0 x d.
Proof.
  intros Hd Hall. split; [reflexivity|]. split; [exact Hd|].
  intros [|j] z e Hj He; cbn in Hj.
  - injection Hj as <-. rewrite Hd in He. injection He as <-.
    split; [apply Qle_refl | lia].
  - split; [eauto | lia].
Qed.

Lemma fold_argminStep_from l d0 sel :
  (fold_left (argminStep dist) l (Some d0, sel) = (Some d0, sel) /\
   forall j y e, l !! j = Some y -> dist y = Some e -> d0 <= e) \/
  (exists i x d,
     fold_left (argminStep dist) l (Some d0, sel) = (Some d, Some x) /\
     firstClosest dist l i x d /\ d < d0).
Proof.
  revert d0 sel. induction l as [|x l IH]; intros d0 sel.
  - left. split; [reflexivity|]. intros j y e H. discriminate.
  - cbn [fold_left].
    destruct (argminStep_cases d0 sel x) as [[-> Hx] | (d & -> & Hd & Hlt)].
    + destruct (IH d0 sel) as [[Heq Hall] | (i & y & d & Heq & Hfc & Hlt)].
      * left. split; [exact Heq|].
        intros [|j] z e Hj He; cbn in Hj; [injection Hj as <-|]; eauto.
      * right. exists (S i), y, d. split; [exact Heq|]. split; [|exact Hlt].
        apply firstClosest_cons_later; [exact Hfc|].
        intros e He. specialize (Hx e He). lra.
    + destruct (IH d (Some x)) as [[Heq Hall] | (i & y & d' & Heq & Hfc & Hlt')].
      * right. exists 0%nat, x, d. split; [exact Heq|]. split; [|exact Hlt].
        now apply firstClosest_cons_head.
      * right. exists (S i), y, d'. split; [exact Heq|]. split; [|lra].
        apply firstClosest_cons_later; [exact Hfc|].
        intros e He. rewrite Hd in He. injection He as <-. exact Hlt'.
Qed.

(** From [Infinity]: the scan finds the first nearest element as soon
    as one element has a distance, and nothing otherwise. *)
Lemma fold_argminStep l :
  (fold_left (argminStep dist) l (None, None) = (None, None) /\
   forall y, In y l -> dist y = None) \/
  (exists i x d,
     fold_left (argminStep dist) l (None, None) = (Some d, Some x) /\
     firstClosest dist l i x d).
Proof.
  induction l as [|x l IH].
  - left. split; [reflexivity|]. intros y [].
  - cbn [fold_left].
    assert (Hstep : argminStep dist (None, None) x =
              match dist x with
              | Some d => (Some d, Some x)
              | None => (None, None)
              end).
    { unfold argminStep. destruct (dist x); reflexivity. }
    rewrite Hstep. clear Hstep.
    destruct (dist x) as [d|] eqn:Hd.
    + right.
      destruct (fold_argminStep_from l d (Some x))
        as [[Heq Hall] | (i & y & d' & Heq & Hfc & Hlt)].
      * exists 0%nat, x, d. split; [exact Heq|].
        now apply firstClosest_cons_head.
      * exists (S i), y, d'. split; [exact Heq|].
        apply firstClosest_cons_later; [exact Hfc|].
        intros e He. rewrite Hd in He. injection He as <-. exact Hlt.
    + destruct IH as [[Heq Hall] | (i & y & d & Heq & Hfc)].
      * left. split; [exact Heq|]. intros y [<-|Hy]; auto.
      * right. exists (S i), y, d. split; [exact Heq|].
        apply firstClosest_cons_later; [exact Hfc|].
        intros e He. rewrite Hd in He. discriminate.
Qed.

End ArgMin.

(** ** The closest-range scans *)

Lemma fold_left_ext {S X : Type} (f g : S -> X -> S) (l : list X) (s : S) :
  (forall s x, f s x = g s x) -> fold_left f l s = fold_left g l s.
Proof.
  intros Hfg. revert s. induction l as [|x l IH]; intros s; cbn; [reflexivity|].
  now rewrite Hfg, IH.
Qed.

Lemma In_lookup {X : Type} (l : list X) (x : X) :
  In x l <-> exists i, l !! i = Some x.
Proof. rewrite <- list_elem_of_In. apply list_elem_of_lookup. Qed.

Lemma findClosest_argmin value records :
  findClosest value records =
    snd (fold_left (argminStep (endDistanceOf value)) records (None, None)).
Proof.
  unfold findClosest. f_equal. apply fold_left_ext.
  intros [best sel] x. unfold closestStep, argminStep, endDistanceOf.
  destruct (ParamData.range x); reflexivity.
Qed.

(** The fallback of [updateParameterValidation] picks the first record
    whose nearer end is nearest to the value. *)
Lemma findClosest_spec value records :
  (exists r, In r records /\ hasRange r) ->
  exists i r d,
    findClosest value records = Some r /\
    firstClosest (endDistanceOf value) records i r d.
Proof.
  intros (r0 & Hin & [rg Hrg]). rewrite findClosest_argmin.
  destruct (fold_argminStep (endDistanceOf value) records)
    as [[_ Hnone] | (i & r & d & -> & Hfc)].
  - specialize (Hnone r0 Hin). unfold endDistanceOf in Hnone.
    rewrite Hrg in Hnone. discriminate.
  - exists i, r, d. auto.
Qed.

Lemma fold_closestMidStep value records st :
  Forall hasRange records ->
  fold_left (closestMidStep (Some value)) records (Normal st) =
    Normal (fold_left (argminStep (midDistanceOf value)) records st).
Proof.
  intros Hall. revert st.
  induction Hall as [|x records [rg Hrg] _ IH]; intros [best sel];
    cbn [fold_left]; [reflexivity|].
  rewrite <- IH. f_equal.
  unfold closestMidStep, argminStep, midDistanceOf. rewrite Hrg. cbn.
  destruct (belowDistance _ _); reflexivity.
Qed.

(** The fallback of [comparisonCards] picks the first record whose
    midpoint is nearest to the value. *)
Lemma findClosestMid_spec value records :
  Forall hasRange records -> records <> [] ->
  exists i r d,
    findClosestMid (Some value) records = Normal (Some d, Some r) /\
    firstClosest (midDistanceOf value) records i r d.
Proof.
  intros Hall Hne. unfold findClosestMid.
  rewrite fold_closestMidStep by assumption.
  destruct (fold_argminStep (midDistanceOf value) records)
    as [[_ Hnone] | (i & r & d & -> & Hfc)].
  - destruct records as [|x records]; [congruence|].
    apply Forall_cons in Hall as [[rg Hrg] _].
    specialize (Hnone x (or_introl eq_refl)). unfold midDistanceOf in Hnone.
    rewrite Hrg in Hnone. discriminate.
  - exists i, r, d. auto.
Qed.

(** ** The first scan of [comparisonCards] *)

Lemma fold_lastMatchStep value records bestMatch bestRating :
  Forall hasRange records ->
  (fold_left (lastMatchStep (Some value)) records (Normal (bestMatch, bestRating))
     = Normal (bestMatch, bestRating) /\
   forall r, In r records -> contains value r = false) \/
  (exists i r,
     fold_left (lastMatchStep (Some value)) records
       (Normal (bestMatch, bestRating)) = Normal (Some r, ParamData.rating r) /\
     lastMatch value records i r).
Proof.
  intros Hall. revert bestMatch bestRating.
  induction Hall as [|x records [rg Hrg] _ IH]; intros bestMatch bestRating.
  - left. split; [reflexivity|]. intros r [].
  - cbn [fold_left].
    assert (Hstep : lastMatchStep (Some value) (Normal (bestMatch, bestRating)) x =
              if contains value x then Normal (Some x, ParamData.rating x)
              else Normal (bestMatch, bestRating)).
    { unfold lastMatchStep, contains. rewrite Hrg. reflexivity. }
    rewrite Hstep. clear Hstep.
    destruct (contains value x) eqn:Hx.
    + right.
      destruct (IH (Some x) (ParamData.rating x))
        as [[Heq Hnone] | (i & r & Heq & Hi & Hc & Hlast)].
      * exists 0%nat, x. split; [exact Heq|].
        split; [reflexivity|]. split; [exact Hx|].
        intros [|j] r' Hlt Hj; [lia|]. cbn in Hj.
        apply Hnone, In_lookup. eauto.
      * exists (S i), r. split; [exact Heq|].
        split; [exact Hi|]. split; [exact Hc|].
        intros [|j] r' Hlt Hj; [lia|]. cbn in Hj.
        apply (Hlast j r'); [lia | exact Hj].
    + destruct (IH bestMatch bestRating)
        as [[Heq Hnone] | (i & r & Heq & Hi & Hc & Hlast)].
      * left. split; [exact Heq|]. intros r [<-|Hr]; auto.
      * right. exists (S i), r. split; [exact Heq|].
        split; [exact Hi|]. split; [exact Hc|].
        intros [|j] r' Hlt Hj; [lia|]. cbn in Hj.
        apply (Hlast j r'); [lia | exact Hj].
Qed.

(** ** [updateParameterValidation] and [comparisonCard] *)

Lemma updateParameterValidation_matched paramName value records el r :
  findBestMatch value records = (Some r, toLowerCase (ParamData.rating r)) ->
  (1 < priorityOf r)%nat ->
  updateParameterValidation paramName value (Some records) (Some el) =
    Normal (Some (mkStatusElement
                    (RatingAndReason
                       (toUpperCase (toLowerCase (ParamData.rating r)))
                       (orElse (ParamData.reason r)
                          "Standard lighting parameter"))
                    ("validation-status " ++ toLowerCase (ParamData.rating r)))).
Proof.
  intros Hfind Hprio.
  destruct records as [|x records]; [discriminate|].
  unfold updateParameterValidation. rewrite Hfind.
  assert (E : String.eqb (toLowerCase (ParamData.rating r)) "bad" = false).
  { apply String.eqb_neq. intros Hbad.
    unfold priorityOf in Hprio.
    rewrite <- getRatingPriority_toLowerCase, Hbad in Hprio.
    rewrite getRatingPriority_bad in Hprio. lia. }
  rewrite E. reflexivity.
Qed.

Lemma findBestMatch_none value records :
  (forall r, In r records -> contains value r = false) ->
  findBestMatch value records = (None, "bad").
Proof.
  intros Hnone. unfold findBestMatch.
  destruct (fold_matchStep value records None "bad")
    as [[Heq _] | (i & r & _ & (Hi & Hc & _) & _)]; [exact Heq|].
  rewrite Hnone in Hc; [discriminate|]. apply In_lookup. eauto.
Qed.

Lemma existsb_contains_false value records :
  (forall r, In r records -> contains value r = false) ->
  existsb (contains value) records = false.
Proof.
  intros Hnone. destruct (existsb (contains value) records) eqn:E; [|reflexivity].
  apply existsb_exists in E as (r & Hin & Hc).
  rewrite (Hnone r Hin) in Hc. discriminate.
Qed.

Lemma updateParameterValidation_outside paramName value records el r rg :
  (forall r, In r records -> contains value r = false) ->
  findClosest value records = Some r ->
  ParamData.range r = Some rg ->
  updateParameterValidation paramName value (Some records) (Some el) =
    Normal (Some (mkStatusElement
                    (BadOutsideRange (Range.min rg) (Range.max rg)
                       (getUnit paramName))
                    "validation-status bad")).
Proof.
  intros Hnone Hclosest Hrg.
  destruct records as [|x records]; [discriminate|].
  unfold updateParameterValidation.
  rewrite (findBestMatch_none _ _ Hnone), Hclosest.
  rewrite (existsb_contains_false _ _ Hnone), Hrg. reflexivity.
Qed.

(** The scan for the closest range returns a record that has a range. *)
Lemma findClosest_hasRange value records r :
  findClosest value records = Some r -> hasRange r.
Proof.
  rewrite findClosest_argmin.
  destruct (fold_argminStep (endDistanceOf value) records)
    as [[-> _] | (i & r' & d & -> & _ & Hd & _)]; [discriminate|].
  intros [= <-]. unfold endDistanceOf in Hd. unfold hasRange.
  destruct (ParamData.range r'); [eauto | discriminate].
Qed.

(** [updateParameterValidation] never throws: the range it reads in the
    "outside" branch belongs to a record picked by the closest scan. *)
Lemma updateParameterValidation_normal paramName value paramDataArray el :
  exists e,
    updateParameterValidation paramName value paramDataArray el = Normal e.
Proof.
  destruct el as [el|]; [|cbn; eauto].
  destruct paramDataArray as [[|x records]|]; [cbn; eauto| |cbn; eauto].
  destruct (fold_matchStep value (x :: records) None "bad")
    as [[Heq _] | (i & r & Heq & _ & Hlt)].
  - unfold updateParameterValidation, findBestMatch. rewrite Heq.
    destruct (findClosest value (x :: records)) as [r|] eqn:Hc; [|eauto].
    destruct (findClosest_hasRange _ _ _ Hc) as [rg Hrg]. rewrite Hrg.
    destruct (_ && _); eauto.
  - rewrite getRatingPriority_bad in Hlt.
    rewrite (updateParameterValidation_matched _ _ _ _ r Heq Hlt). eauto.
Qed.

(** A single "good" range [3000, 4000] for CCT: 3500 is rated good with
    the record's reason, 9000 is reported outside that range as bad. *)
Example cct_inside :
  updateParameterValidation "CCT" 3500 (Some cctRecords) (Some blankStatus) =
    Normal (Some (mkStatusElement (RatingAndReason "GOOD" "r")
                    "validation-status good")) /\
  comparisonCard "CCT" (Some 3500) cctRecords =
    Normal (mkCard "CCT" (Some 3500) "K"
              (RatingAlert "alert-success" "GOOD" "r" "rec" 3000 4000 "K")).
Proof. split; reflexivity. Qed.

Example cct_outside :
  updateParameterValidation "CCT" 9000 (Some cctRecords) (Some blankStatus) =
    Normal (Some (mkStatusElement (BadOutsideRange 3000 4000 "K")
                    "validation-status bad")) /\
  comparisonCard "CCT" (Some 9000) cctRecords =
    Normal (mkCard "CCT" (Some 9000) "K"
              (OutsideAlert (Some 9000) "K" 3000 4000 "rec")).
Proof. split; reflexivity. Qed.

(** Without a status element, or without records, nothing is matched. *)
Example no_element_no_data :
  updateParameterValidation "CCT" 3500 (Some cctRecords) None = Normal None /\
  updateParameterValidation "CCT" 3500 (Some []) (Some blankStatus) =
    Normal (Some (mkStatusElement NoDataAvailable
                    "validation-status evaluating")) /\
  comparisonCard "CCT" (Some 3500) [] =
    Normal (mkCard "CCT" (Some 3500) "K" UnknownAlert).
Proof. repeat split; reflexivity. Qed.

(** A value contained only by a record rated "bad" is not picked up by
    the first scan, whose starting rating "bad" it does not outrank; the
    closest scan then supplies the record, here the "good" one whose end
    51 is nearest to 50, and the status reads BAD with that record's
    reason. *)
Example bad_only_match :
  contains 50 <$> badOnlyRecords = [true; false] /\
  findBestMatch 50 badOnlyRecords = (None, "bad") /\
  findClosest 50 badOnlyRecords = badOnlyRecords !! 1%nat /\
  updateParameterValidation "Lux" 50 (Some badOnlyRecords) (Some blankStatus) =
    Normal (Some (mkStatusElement (RatingAndReason "BAD" "fine")
                    "validation-status bad")).
Proof. repeat split; reflexivity. Qed.

Lemma comparisonCard_matched param value records r rg :
  findLastMatch (Some value) records = Normal (Some r, ParamData.rating r) ->
  ParamData.range r = Some rg ->
  comparisonCard param (Some value) records =
    Normal (mkCard param (Some value) (getUnit param)
              (RatingAlert
                 (if String.eqb (ParamData.rating r) "good"
                  then "alert-success" else "alert-danger")
                 (toUpperCase (ParamData.rating r))
                 (ParamData.reason r) (ParamData.recommendation r)
                 (Range.min rg) (Range.max rg) (getUnit param))).
Proof.
  intros Hfind Hrg. unfold comparisonCard. now rewrite Hfind, Hrg.
Qed.

Lemma comparisonCard_outside param value records d r rg :
  findLastMatch (Some value) records = Normal (None, "unknown") ->
  findClosestMid (Some value) records = Normal (Some d, Some r) ->
  ParamData.range r = Some rg ->
  comparisonCard param (Some value) records =
    Normal (mkCard param (Some value) (getUnit param)
              (OutsideAlert (Some value) (getUnit param)
                 (Range.min rg) (Range.max rg) (ParamData.recommendation r))).
Proof.
  intros Hfind Hclosest Hrg. unfold comparisonCard.
  now rewrite Hfind, Hclosest, Hrg.
Qed.

(** C1 (as the code has it).  When a record rated above "bad" contains
    the value, [updateParameterValidation] selects the containing record
    of highest priority, the first one on ties, and shows its rating and
    reason.  [comparisonCard] ranks nothing: when some record contains the
    value it selects the last containing record in catalog order and
    shows its rating, reason, recommendation and range. *)
Theorem best_match_selection (value : Q) (records : list ParamData.t) :
  ((exists r, In r records /\ contains value r = true /\
              (1 < priorityOf r)%nat) ->
   exists i r,
     firstBestMatch value records i r /\ (1 < priorityOf r)%nat /\
     findBestMatch value records = (Some r, toLowerCase (ParamData.rating r)) /\
     forall paramName el,
       updateParameterValidation paramName value (Some records) (Some el) =
         Normal (Some (mkStatusElement
                         (RatingAndReason
                            (toUpperCase (toLowerCase (ParamData.rating r)))
                            (orElse (ParamData.reason r)
                               "Standard lighting parameter"))
                         ("validation-status "
                            ++ toLowerCase (ParamData.rating r))))) /\
  (Forall hasRange records ->
   (exists r, In r records /\ contains value r = true) ->
   exists i r rg,
     lastMatch value records i r /\ ParamData.range r = Some rg /\
     findLastMatch (Some value) records = Normal (Some r, ParamData.rating r) /\
     forall param,
       comparisonCard param (Some value) records =
         Normal (mkCard param (Some value) (getUnit param)
                   (RatingAlert
                      (if String.eqb (ParamData.rating r) "good"
                       then "alert-success" else "alert-danger")
                      (toUpperCase (ParamData.rating r))
                      (ParamData.reason r) (ParamData.recommendation r)
                      (Range.min rg) (Range.max rg) (getUnit param)))).
Proof.
  split.
  - intros (r0 & Hin & Hc0 & Hp0).
    destruct (fold_matchStep value records None "bad")
      as [[_ Hall] | (i & r & Heq & Hfb & Hlt)].
    + apply In_lookup in Hin as [j Hj].
      specialize (Hall j r0 Hj Hc0). rewrite getRatingPriority_bad in Hall. lia.
    + rewrite getRatingPriority_bad in Hlt.
      exists i, r. split; [exact Hfb|]. split; [exact Hlt|].
      split; [exact Heq|]. intros paramName el.
      now apply updateParameterValidation_matched.
  - intros Hall (r0 & Hin & Hc0).
    destruct (fold_lastMatchStep value records None "unknown" Hall)
      as [[_ Hnone] | (i & r & Heq & Hlast)].
    + rewrite (Hnone r0 Hin) in Hc0. discriminate.
    + destruct Hlast as (Hi & Hc & Hlater).
      assert (Hrg : exists rg, ParamData.range r = Some rg).
      { unfold contains in Hc. destruct (ParamData.range r); [eauto|discriminate]. }
      destruct Hrg as [rg Hrg].
      exists i, r, rg. split; [now split|]. split; [exact Hrg|].
      split; [exact Heq|]. intros param.
      now apply comparisonCard_matched.
Qed.

Lemma best_match_selection_witness :
  (exists i r,
     firstBestMatch 5 tieRecords i r /\
     findBestMatch 5 tieRecords = (Some r, toLowerCase (ParamData.rating r)))
  /\
  (exists i r,
     lastMatch 5 mixedRecords i r /\
     findLastMatch (Some 5) mixedRecords = Normal (Some r, ParamData.rating r)).
Proof.
  split.
  - destruct (proj1 (best_match_selection 5 tieRecords))
      as (i & r & Hfb & _ & Hfind & _).
    + eexists. split; [left; reflexivity|]. split; [reflexivity|].
      vm_compute. lia.
    + exists i, r. auto.
  - destruct (proj2 (best_match_selection 5 mixedRecords))
      as (i & r & rg & Hlast & _ & Hfind & _).
    + repeat constructor; eexists; reflexivity.
    + eexists. split; [left; reflexivity|]. reflexivity.
    + exists i, r. auto.
Defined.

(** C1 does not hold as stated.  On two "good" records that both
    contain the value, [updateParameterValidation] keeps the first, not
    the last; and on a "good" record followed by a "bad" one
    [comparisonCard] selects the "bad" one, not the one of highest
    priority. *)
Lemma best_match_not_last_highest :
  (existsb (contains 5) tieRecords = true /\
   ~ exists i r,
       lastBestMatch 5 tieRecords i r /\
       fst (findBestMatch 5 tieRecords) = Some r) /\
  (existsb (contains 5) mixedRecords = true /\
   ~ exists i r,
       lastBestMatch 5 mixedRecords i r /\
       findLastMatch (Some 5) mixedRecords = Normal (Some r, ParamData.rating r)).
Proof.
  split; (split; [reflexivity|]).
  - intros (i & r & (Hi & Hc & Hmax) & Hsel).
    vm_compute in Hsel. injection Hsel as <-.
    destruct (Hmax 1%nat _ eq_refl eq_refl) as [_ Hle].
    specialize (Hle eq_refl).
    destruct i as [|[|i]]; [lia | | ]; vm_compute in Hi; discriminate.
  - intros (i & r & (Hi & Hc & Hmax) & Hsel).
    vm_compute in Hsel.
    assert (Hr : r = ParamData.mk (Some (Range.mk 0 10)) "bad" "second" "change").
    { destruct i as [|[|i]]; vm_compute in Hi; try discriminate;
        injection Hi as <-; [discriminate | reflexivity]. }
    subst r.
    destruct (Hmax 0%nat _ eq_refl eq_refl) as [Hle _].
    vm_compute in Hle. lia.
Qed.

(** C2 (as the code has it).  When no record contains the value:
    [comparisonCard] leaves the rating at "unknown", takes the first
    record whose range midpoint is nearest to the value, and shows that
    record's range and recommendation; [updateParameterValidation] sets
    the rating to "bad", takes the first record whose nearer range end is
    nearest to the value, and shows that record's range. *)
Theorem closest_range_fallback (value : Q) (records : list ParamData.t) :
  (forall r, In r records -> contains value r = false) ->
  (Forall hasRange records -> records <> [] ->
   exists i r rg d,
     firstClosest (midDistanceOf value) records i r d /\
     ParamData.range r = Some rg /\
     findLastMatch (Some value) records = Normal (None, "unknown") /\
     forall param,
       comparisonCard param (Some value) records =
         Normal (mkCard param (Some value) (getUnit param)
                   (OutsideAlert (Some value) (getUnit param)
                      (Range.min rg) (Range.max rg)
                      (ParamData.recommendation r)))) /\
  ((exists r, In r records /\ hasRange r) ->
   exists i r rg d,
     firstClosest (endDistanceOf value) records i r d /\
     ParamData.range r = Some rg /\
     findBestMatch value records = (None, "bad") /\
     forall paramName el,
       updateParameterValidation paramName value (Some records) (Some el) =
         Normal (Some (mkStatusElement
                         (BadOutsideRange (Range.min rg) (Range.max rg)
                            (getUnit paramName))
                         "validation-status bad"))).
Proof.
  intros Hnone. split.
  - intros Hall Hne.
    destruct (findClosestMid_spec value records Hall Hne)
      as (i & r & d & Hclosest & Hfc).
    assert (Hfind : findLastMatch (Some value) records = Normal (None, "unknown")).
    { destruct (fold_lastMatchStep value records None "unknown" Hall)
        as [[Heq _] | (j & r' & _ & Hj & Hc & _)]; [exact Heq|].
      rewrite Hnone in Hc; [discriminate|]. apply In_lookup. eauto. }
    assert (Hrg : exists rg, ParamData.range r = Some rg).
    { destruct Hfc as (_ & Hd & _). unfold midDistanceOf in Hd.
      destruct (ParamData.range r); [eauto|discriminate]. }
    destruct Hrg as [rg Hrg].
    exists i, r, rg, d. split; [exact Hfc|]. split; [exact Hrg|].
    split; [exact Hfind|]. intros param.
    now apply (comparisonCard_outside param value records d r rg).
  - intros Hsome.
    destruct (findClosest_spec value records Hsome)
      as (i & r & d & Hclosest & Hfc).
    assert (Hrg : exists rg, ParamData.range r = Some rg).
    { destruct Hfc as (_ & Hd & _). unfold endDistanceOf in Hd.
      destruct (ParamData.range r); [eauto|discriminate]. }
    destruct Hrg as [rg Hrg].
    exists i, r, rg, d. split; [exact Hfc|]. split; [exact Hrg|].
    split; [now apply findBestMatch_none|]. intros paramName el.
    now apply updateParameterValidation_outside with (r := r).
Qed.

Lemma gapRecords_outside (r : ParamData.t) :
  In r gapRecords -> contains 103 r = false.
Proof. intros [<-|[<-|[]]]; reflexivity. Qed.

Lemma closest_range_fallback_witness :
  (exists i r rg d,
     firstClosest (midDistanceOf 103) gapRecords i r d /\
     ParamData.range r = Some rg /\
     comparisonCard "CCT" (Some 103) gapRecords =
       Normal (mkCard "CCT" (Some 103) "K"
                 (OutsideAlert (Some 103) "K" (Range.min rg) (Range.max rg)
                    (ParamData.recommendation r)))) /\
  (exists i r rg d,
     firstClosest (endDistanceOf 103) gapRecords i r d /\
     ParamData.range r = Some rg /\
     updateParameterValidation "CCT" 103 (Some gapRecords) (Some blankStatus) =
       Normal (Some (mkStatusElement
                       (BadOutsideRange (Range.min rg) (Range.max rg) "K")
                       "validation-status bad"))).
Proof.
  destruct (closest_range_fallback 103 gapRecords gapRecords_outside)
    as [Hmid Hend].
  split.
  - destruct Hmid as (i & r & rg & d & Hfc & Hrg & _ & Hcard).
    + repeat constructor; eexists; reflexivity.
    + discriminate.
    + exists i, r, rg, d. split; [exact Hfc|]. split; [exact Hrg|].
      apply (Hcard "CCT").
  - destruct Hend as (i & r & rg & d & Hfc & Hrg & _ & Hstatus).
    + eexists. split; [left; reflexivity|]. eexists; reflexivity.
    + exists i, r, rg, d. split; [exact Hfc|]. split; [exact Hrg|].
      apply (Hstatus "CCT" blankStatus).
Defined.

(** C2 does not hold as stated.  With ranges [0, 100] and [104, 300]
    and the value 103, which neither contains, [updateParameterValidation]
    reports the second range (its end 104 is nearest), although the
    midpoint of the first (50) is nearer to 103 than that of the second
    (202). *)
Lemma closest_is_not_by_midpoint :
  (forall r, In r gapRecords -> contains 103 r = false) /\
  findClosest 103 gapRecords = gapRecords !! 1%nat /\
  updateParameterValidation "CCT" 103 (Some gapRecords) (Some blankStatus) =
    Normal (Some (mkStatusElement (BadOutsideRange 104 300 "K")
                    "validation-status bad")) /\
  ~ exists i r d,
      findClosest 103 gapRecords = Some r /\
      firstClosest (midDistanceOf 103) gapRecords i r d.
Proof.
  split; [exact gapRecords_outside|].
  split; [reflexivity|]. split; [reflexivity|].
  intros (i & r & d & Hsel & Hi & Hd & Hmin).
  vm_compute in Hsel. injection Hsel as <-.
  vm_compute in Hd. injection Hd as <-.
  destruct (Hmin 0%nat (ParamData.mk (Some (Range.mk 0 100)) "good" "low" "raise")
              (Qabs (103 - (0 + 100) / 2)) eq_refl eq_refl) as [Hle _].
  vm_compute in Hle. apply Hle. reflexivity.
Qed.

(** ** The "outside range" texts *)

(** [updateRecommendationCards] shows, for "Flicker", the stored bounds
    taken back through [10000 / x] (the lower one from [max], the upper
    one from [min]) and, for any other parameter, the stored bounds. *)
Lemma scoreStep_outside currentValues score params recs param paramData v rg :
  (String.eqb param "range" || String.eqb param "images") = false ->
  currentValues !! param = Some v ->
  ParamInfo.range paramData = Some rg ->
  inRange v rg = false ->
  scoreStep currentValues (score, params, recs) (param, paramData) =
    (score, (params + 1)%nat,
     (recs ++
        [Recommendation.mk param "Not Recommended"
           (OutsideRecommendedRange v (getUnit param)
              (if String.eqb param "Flicker"
               then (1 / Range.max rg) * 10000 else Range.min rg)
              (if String.eqb param "Flicker"
               then (1 / Range.min rg) * 10000 else Range.max rg))
           (ParamInfo.recommendation paramData)])%list).
Proof.
  intros Hkey Hv Hrg Hout. unfold scoreStep. now rewrite Hkey, Hv, Hrg, Hout.
Qed.

(** C3.  With the Flicker metric at 200 (a 50 Hz reading) and the stored
    range [5, 8], the card of [updateRecommendationCards] shows the bounds
    taken back through [10000 / x], 1250 and 2000, whereas the status
    text of [updateParameterValidation] shows the stored 5 and 8, with
    the same unit. *)
Theorem flicker_outside_range_texts :
  recommendations (environmentCard sampleValues "classroom" flickerEnvironment) =
    [ Recommendation.mk "Flicker" "Not Recommended"
        (OutsideRecommendedRange 200 "HZ" ((1 / 8) * 10000) ((1 / 5) * 10000))
        "keep" ] /\
  (1 / 8) * 10000 == 1250 /\ (1 / 5) * 10000 == 2000 /\
  updateParameterValidation "Flicker" 200 (Some flickerRecords)
      (Some blankStatus) =
    Normal (Some (mkStatusElement (BadOutsideRange 5 8 "HZ")
                    "validation-status bad")) /\
  ~ 5 == 1250 /\ ~ 8 == 2000.
Proof.
  repeat split; try reflexivity; intros H; discriminate H.
Qed.

(** ** Cookies *)

Lemma append_cons (x : ascii) (a b : string) :
  String x a ++ b = String x (a ++ b).
Proof. reflexivity. Qed.

Lemma append_nil_l (a : string) : "" ++ a = a.
Proof. reflexivity. Qed.

Lemma append_assoc (a b c : string) : (a ++ b) ++ c = a ++ (b ++ c).
Proof.
  induction a as [|x a IH]; [reflexivity|].
  rewrite !append_cons. now f_equal.
Qed.

Lemma append_nil_r (a : string) : a ++ "" = a.
Proof.
  induction a as [|x a IH]; [reflexivity|].
  rewrite append_cons. now f_equal.
Qed.

Lemma prefix_append (a b : string) : String.prefix a (a ++ b) = true.
Proof.
  induction a as [|x a IH]; [now destruct b|].
  rewrite append_cons. cbn [String.prefix].
  destruct (ascii_dec x x); [exact IH | congruence].
Qed.

Lemma lacks_head (c d : ascii) (s : string) :
  lacks c (String d s) = true -> c <> d /\ lacks c s = true.
Proof.
  cbn [lacks]. intros [Hne Hs]%andb_true_iff. split; [|exact Hs].
  apply negb_true_iff, Ascii.eqb_neq in Hne. exact Hne.
Qed.

Lemma lacks_append (c : ascii) (a b : string) :
  lacks c (a ++ b) = lacks c a && lacks c b.
Proof.
  induction a as [|x a IH]; [reflexivity|].
  rewrite append_cons. cbn [lacks]. now rewrite IH, andb_assoc.
Qed.

(** Passing the rest of a separator that was found. *)
Lemma splitAux_skip sep cur (x s : string) :
  splitAux sep (String.length x) cur (x ++ s) = splitAux sep 0 cur s.
Proof.
  induction x as [|c x IH].
  - rewrite append_nil_l. destruct s; reflexivity.
  - rewrite append_cons. cbn [String.length splitAux]. exact IH.
Qed.

(** Where the separator stands, a piece ends. *)
Lemma splitAux_found c sep cur (s : string) :
  splitAux (String c sep) 0 cur (String c sep ++ s) =
    cur :: splitAux (String c sep) 0 "" s.
Proof.
  pose proof (prefix_append (String c sep) s) as Hp.
  rewrite append_cons in *. cbn [splitAux]. rewrite Hp.
  replace (String.length (String c sep) - 1)%nat with (String.length sep)
    by (cbn [String.length]; lia).
  now rewrite splitAux_skip.
Qed.

(** Text without the first character of the separator joins the piece. *)
Lemma splitAux_pass c sep cur (a s : string) :
  lacks c a = true ->
  splitAux (String c sep) 0 cur (a ++ s) =
    splitAux (String c sep) 0 (cur ++ a) s.
Proof.
  revert cur. induction a as [|d a IH]; intros cur Ha.
  - now rewrite append_nil_l, append_nil_r.
  - apply lacks_head in Ha as [Hne Ha].
    rewrite append_cons. cbn [splitAux String.prefix].
    destruct (ascii_dec c d) as [->|_]; [congruence|].
    rewrite IH by exact Ha. now rewrite append_assoc.
Qed.

(** Two names without [=], each followed by [=]: one is a prefix of the
    other only when they are the same name. *)
Lemma prefix_name (a b t : string) :
  lacks "=" a = true -> lacks "=" b = true ->
  String.prefix (a ++ "=") (b ++ "=" ++ t) = true -> a = b.
Proof.
  revert b. induction a as [|x a IH]; intros [|y b] Ha Hb Hp.
  - reflexivity.
  - apply lacks_head in Hb as [Hne _].
    rewrite append_nil_l, append_cons in Hp. cbn [String.prefix] in Hp.
    destruct (ascii_dec "=" y); [congruence | discriminate].
  - apply lacks_head in Ha as [Hne _].
    rewrite append_nil_l, !append_cons in Hp. cbn [String.prefix] in Hp.
    destruct (ascii_dec x "="); [congruence | discriminate].
  - apply lacks_head in Ha as [_ Ha]. apply lacks_head in Hb as [_ Hb].
    rewrite !append_cons in Hp. cbn [String.prefix] in Hp.
    destruct (ascii_dec x y) as [->|]; [|discriminate].
    f_equal. now apply IH.
Qed.

Lemma cookieOk_parts (c : string * string) :
  cookieOk c = true ->
  lacks ";" (fst c) = true /\ lacks "=" (fst c) = true /\
  lacks ";" (snd c) = true.
Proof.
  unfold cookieOk. intros [[H1 H2]%andb_true_iff H3]%andb_true_iff. auto.
Qed.

(** The separator of [name] cuts the text of a well-formed jar exactly in
    front of the values of the cookies called [name]. *)
Lemma splitAux_cookieTail name cur jar :
  forallb cookieOk jar = true -> lacks "=" name = true ->
  splitAux ("; " ++ name ++ "=") 0 cur (cookieTail jar) =
    cookiePieces name cur jar.
Proof.
  intros Hjar Hname. revert cur.
  induction jar as [|[n v] jar IH]; intros cur; [reflexivity|].
  cbn [forallb] in Hjar. apply andb_true_iff in Hjar as [Hc Hjar].
  apply cookieOk_parts in Hc as (Hn1 & Hn2 & Hv). cbn [fst snd] in *.
  specialize (IH Hjar).
  cbn [cookieTail cookiePieces fst snd]. unfold cookiePair. cbn [fst snd].
  destruct (String.eqb_spec n name) as [->|Hne].
  - replace ("; " ++ (name ++ "=" ++ v) ++ cookieTail jar)
      with (("; " ++ name ++ "=") ++ (v ++ cookieTail jar)).
    2:{ now rewrite !append_assoc. }
    change ("; " ++ name ++ "=") with (String ";" (String " " (name ++ "="))).
    rewrite splitAux_found, splitAux_pass by exact Hv.
    rewrite append_nil_l. f_equal. apply IH.
  - change ("; " ++ (n ++ "=" ++ v) ++ cookieTail jar)
      with (String ";" (" " ++ (n ++ "=" ++ v) ++ cookieTail jar)).
    change ("; " ++ name ++ "=") with (String ";" (String " " (name ++ "="))).
    assert (Hp : String.prefix (String ";" (String " " (name ++ "=")))
                   (String ";" (" " ++ (n ++ "=" ++ v) ++ cookieTail jar))
                 = false).
    { change (" " ++ (n ++ "=" ++ v) ++ cookieTail jar)
        with (String " " ((n ++ "=" ++ v) ++ cookieTail jar)).
      cbn [String.prefix].
      destruct (ascii_dec ";" ";"); [|congruence].
      destruct (ascii_dec " " " "); [|congruence].
      destruct (String.prefix (name ++ "=") ((n ++ "=" ++ v) ++ cookieTail jar))
        eqn:E; [|reflexivity].
      rewrite !append_assoc in E.
      apply prefix_name in E; [congruence | assumption | assumption]. }
    cbn [splitAux]. rewrite Hp.
    replace (" " ++ (n ++ "=" ++ v) ++ cookieTail jar)
      with ((" " ++ n ++ "=" ++ v) ++ cookieTail jar)
      by (now rewrite !append_assoc).
    rewrite splitAux_pass.
    2:{ rewrite !lacks_append, Hn1, Hv. reflexivity. }
    rewrite <- IH. f_equal. now rewrite !append_assoc.
Qed.

Lemma split_documentCookie name jar :
  jar <> [] -> forallb cookieOk jar = true -> lacks "=" name = true ->
  split ("; " ++ documentCookie jar) ("; " ++ name ++ "=") =
    cookiePieces name "" jar.
Proof.
  intros Hne Hjar Hname. destruct jar as [|c jar]; [congruence|].
  change ("; " ++ documentCookie (c :: jar)) with (cookieTail (c :: jar)).
  unfold split.
  change ("; " ++ name ++ "=") with (String ";" (String " " (name ++ "="))).
  cbv iota.
  change (String ";" (String " " (name ++ "="))) with ("; " ++ name ++ "=").
  now apply splitAux_cookieTail.
Qed.

Lemma cookiePieces_length name cur jar :
  length (cookiePieces name cur jar) = S (length (named name jar)).
Proof.
  revert cur. induction jar as [|c jar IH]; intros cur; [reflexivity|].
  cbn [cookiePieces named List.filter].
  destruct (String.eqb (fst c) name); cbn [length]; now rewrite IH.
Qed.

Lemma cookiePieces_none name cur jar :
  named name jar = [] -> cookiePieces name cur jar = [cur ++ cookieTail jar].
Proof.
  revert cur. induction jar as [|c jar IH]; intros cur Hn.
  - cbn. now rewrite append_nil_r.
  - cbn [named List.filter cookiePieces cookieTail] in *.
    destruct (String.eqb (fst c) name); [discriminate|].
    rewrite (IH _ Hn). now rewrite !append_assoc.
Qed.

Lemma cookiePieces_one name cur jar c0 :
  named name jar = [c0] ->
  exists first after,
    cookiePieces name cur jar = [first; snd c0 ++ cookieTail after] /\
    (forallb cookieOk jar = true -> forallb cookieOk after = true).
Proof.
  revert cur. induction jar as [|c jar IH]; intros cur Hn; [discriminate|].
  cbn [named List.filter cookiePieces forallb] in *.
  destruct (String.eqb (fst c) name).
  - injection Hn as -> Hn. exists cur, jar.
    rewrite (cookiePieces_none _ _ _ Hn). split; [reflexivity|].
    now intros [_ H]%andb_true_iff.
  - destruct (IH (cur ++ "; " ++ cookiePair c) Hn) as (first & after & -> & Hok).
    exists first, after. split; [reflexivity|].
    intros [_ H]%andb_true_iff. auto.
Qed.

(** The value of a cookie ends at the next [;]. *)
Lemma head_split_value v jar :
  lacks ";" v = true ->
  head (split (v ++ cookieTail jar) ";") = Some v.
Proof.
  intros Hv. unfold split. cbv iota.
  rewrite splitAux_pass by exact Hv. rewrite append_nil_l.
  destruct jar as [|c jar]; [reflexivity|].
  change (cookieTail (c :: jar))
    with (String ";" "" ++ (" " ++ cookiePair c ++ cookieTail jar)).
  now rewrite splitAux_found.
Qed.

Lemma getCookie_empty_jar name : getCookie (documentCookie []) name = None.
Proof.
  unfold getCookie, split. cbn [documentCookie].
  change ("; " ++ name ++ "=") with (String ";" (String " " (name ++ "="))).
  cbv iota. rewrite append_nil_r.
  change "; " with (String ";" (String " " "")).
  cbn [splitAux String.prefix].
  destruct (ascii_dec ";" ";"); [|congruence].
  destruct (ascii_dec " " " "); [|congruence].
  destruct name; cbn; destruct (ascii_dec ";" " "); try discriminate;
    reflexivity.
Qed.

(** What [getCookie] returns on the text of a well-formed jar. *)
Lemma getCookie_named name jar :
  forallb cookieOk jar = true -> lacks "=" name = true ->
  getCookie (documentCookie jar) name =
    match named name jar with
    | [c] => Some (snd c)
    | _ => None
    end.
Proof.
  intros Hjar Hname.
  destruct jar as [|c0 jar0] eqn:Ejar; [apply getCookie_empty_jar|].
  rewrite <- Ejar in *. assert (Hne : jar <> []) by (subst; discriminate).
  clear Ejar. unfold getCookie.
  rewrite (split_documentCookie name jar Hne Hjar Hname).
  rewrite cookiePieces_length.
  destruct (named name jar) as [|c [|c' rest]] eqn:En; cbn [length Nat.eqb];
    try reflexivity.
  destruct (cookiePieces_one name "" jar c En) as (first & after & -> & Hok).
  cbn [last mbind option_bind].
  assert (Hc : cookieOk c = true).
  { assert (Hin : In c (named name jar)) by (rewrite En; now left).
    apply filter_In in Hin as [Hin _].
    rewrite forallb_forall in Hjar. auto. }
  apply cookieOk_parts in Hc as (_ & _ & Hv).
  now apply head_split_value.
Qed.

Lemma named_cons name c jar :
  named name (c :: jar) =
    if String.eqb (fst c) name then c :: named name jar else named name jar.
Proof. reflexivity. Qed.

Lemma named_not_In name jar :
  ~ In name (map fst jar) -> named name jar = [].
Proof.
  intros Hnot. destruct (named name jar) as [|c rest] eqn:En; [reflexivity|].
  exfalso. apply Hnot.
  assert (Hc : In c (named name jar)) by (rewrite En; now left).
  apply filter_In in Hc as [Hc Hname]. apply String.eqb_eq in Hname.
  rewrite <- Hname. now apply in_map.
Qed.

Lemma named_In name v jar :
  NoDup (map fst jar) -> In (name, v) jar -> named name jar = [(name, v)].
Proof.
  induction jar as [|[n w] jar IH]; intros Hnd Hin; [destruct Hin|].
  cbn [map fst] in Hnd. inversion Hnd as [|? ? Hnotin Hnd']; subst.
  rewrite list_elem_of_In in Hnotin.
  rewrite named_cons. cbn [fst].
  destruct Hin as [[= -> ->]|Hin].
  - rewrite String.eqb_refl. f_equal. now apply named_not_In.
  - destruct (String.eqb_spec n name) as [->|Hne].
    + exfalso. apply Hnotin.
      change name with (fst (name, v)). now apply in_map.
    + now apply IH.
Qed.

Lemma cookieOk_In name v jar :
  forallb cookieOk jar = true -> In (name, v) jar -> lacks "=" name = true.
Proof.
  intros Hjar Hin. rewrite forallb_forall in Hjar.
  now destruct (cookieOk_parts _ (Hjar _ Hin)) as (_ & H & _).
Qed.

(** X1. Reading back what the browser holds: for a jar with well-formed
    names and values and no name twice, [getCookie] returns the value
    stored under the name. *)
Theorem getCookie_round_trip (jar : list (string * string)) (name v : string) :
  forallb cookieOk jar = true -> NoDup (map fst jar) -> In (name, v) jar ->
  getCookie (documentCookie jar) name = Some v.
Proof.
  intros Hjar Hnd Hin.
  rewrite getCookie_named; [|exact Hjar|now apply (cookieOk_In name v jar)].
  now rewrite (named_In name v jar Hnd Hin).
Qed.

Lemma getCookie_round_trip_witness :
  getCookie (documentCookie sampleJar) "selectedGrade" = Some "grade_3".
Proof.
  apply (getCookie_round_trip sampleJar "selectedGrade" "grade_3").
  - reflexivity.
  - apply (bool_decide_unpack (NoDup _)). vm_compute. exact I.
  - right. left. reflexivity.
Defined.

(** X2. A name that no cookie of the jar carries gives nothing
    ([undefined]). *)
Theorem getCookie_missing (jar : list (string * string)) (name : string) :
  forallb cookieOk jar = true -> lacks "=" name = true ->
  ~ In name (map fst jar) ->
  getCookie (documentCookie jar) name = None.
Proof.
  intros Hjar Hname Hnot.
  rewrite getCookie_named by assumption.
  now rewrite (named_not_In name jar Hnot).
Qed.

Lemma getCookie_missing_witness :
  getCookie (documentCookie sampleJar) "grade" = None.
Proof.
  apply (getCookie_missing sampleJar "grade"); [reflexivity | reflexivity |].
  cbn. intuition discriminate.
Defined.

(** X3. A name carried by two or more cookies of the jar gives nothing
    as well: the text is cut in more than two pieces. *)
Theorem getCookie_repeated (jar : list (string * string)) (name : string) :
  forallb cookieOk jar = true -> lacks "=" name = true ->
  (2 <= length (named name jar))%nat ->
  getCookie (documentCookie jar) name = None.
Proof.
  intros Hjar Hname Hlen.
  rewrite getCookie_named by assumption.
  destruct (named name jar) as [|c [|c' rest]]; cbn [length] in Hlen;
    try lia; reflexivity.
Qed.

Lemma getCookie_repeated_witness :
  getCookie (documentCookie (("theme", "light") :: sampleJar)) "theme" = None.
Proof.
  apply (getCookie_repeated (("theme", "light") :: sampleJar) "theme");
    [reflexivity | reflexivity | cbn; lia].
Defined.

(** X4. On a well-formed jar without repeated names, [loadSelectedData]
    goes on with a grade and an environment exactly when both cookies are
    there with values that are not empty, and then with those values; in
    every other case it goes back to the index page. *)
Theorem loadSelectedData_selected
    (jar : list (string * string)) (grade environment : string) :
  forallb cookieOk jar = true -> NoDup (map fst jar) ->
  (loadSelectedData (documentCookie jar) = Selected grade environment <->
   In ("selectedGrade", grade) jar /\
   In ("selectedEnvironment", environment) jar /\
   grade <> "" /\ environment <> "").
Proof.
  intros Hjar Hnd. unfold loadSelectedData.
  rewrite !getCookie_named by (exact Hjar || reflexivity).
  split.
  - destruct (named "selectedGrade" jar) as [|[n1 g] [|? ?]] eqn:Eg;
      try discriminate.
    destruct (named "selectedEnvironment" jar) as [|[n2 e] [|? ?]] eqn:Ee;
      try discriminate.
    cbn [snd].
    destruct (String.eqb_spec g "") as [|Hg]; [discriminate|].
    destruct (String.eqb_spec e "") as [|He]; [discriminate|].
    cbn [orb]. intros [= <- <-].
    assert (H1 : In (n1, g) (named "selectedGrade" jar))
      by (rewrite Eg; now left).
    assert (H2 : In (n2, e) (named "selectedEnvironment" jar))
      by (rewrite Ee; now left).
    apply filter_In in H1 as [H1 Hn1]. apply filter_In in H2 as [H2 Hn2].
    cbn [fst] in Hn1, Hn2.
    apply String.eqb_eq in Hn1, Hn2. subst n1 n2. auto.
  - intros (Hg & He & Hgne & Hene).
    rewrite (named_In _ _ _ Hnd Hg), (named_In _ _ _ Hnd He). cbn [snd].
    destruct (String.eqb_spec grade ""); [congruence|].
    destruct (String.eqb_spec environment ""); [congruence|]. reflexivity.
Qed.

Lemma loadSelectedData_selected_witness :
  loadSelectedData (documentCookie sampleJar) = Selected "grade_3" "classroom".
Proof.
  apply (loadSelectedData_selected sampleJar "grade_3" "classroom").
  - reflexivity.
  - apply (bool_decide_unpack (NoDup _)). vm_compute. exact I.
  - repeat split; try discriminate; cbn; auto.
Defined.

(** ** The records that [updateValidationStatus] extracts *)

Lemma pushed_app {A : Type} (array : option (list A)) (l1 l2 : list A) :
  pushed (pushed array l1) l2 = pushed array (l1 ++ l2)%list.
Proof.
  destruct l1 as [|x l1]; [reflexivity|].
  destruct l2 as [|y l2].
  - cbn [pushed]. now rewrite app_nil_r.
  - change (pushed (pushed array (x :: l1)) (y :: l2))
      with (Some ((default [] array ++ x :: l1) ++ y :: l2)%list).
    change (pushed array ((x :: l1) ++ y :: l2)%list)
      with (Some (default [] array ++ (x :: l1) ++ y :: l2)%list).
    now rewrite app_assoc.
Qed.

Lemma inherited_not_skipped param :
  inherited param = true ->
  (String.eqb param "range" || String.eqb param "images") = false.
Proof.
  unfold inherited, objectPrototypeKeys. cbn [existsb]. intros H.
  repeat (apply orb_true_iff in H as [H|H];
          [apply String.eqb_eq in H; subst param; reflexivity|]).
  discriminate.
Qed.

Lemma fold_addParam_TypeError level envData :
  fold_left (addParam level) envData TypeError = TypeError.
Proof. induction envData as [|entry envData IH]; [reflexivity | exact IH]. Qed.

Lemma fold_addLevel_TypeError env levels :
  fold_left (addLevel env) levels TypeError = TypeError.
Proof.
  induction levels as [|[levelName environments] levels IH]; [reflexivity|].
  cbn [fold_left]. unfold addLevel at 2.
  destruct (lookupKey env environments) as [envData|];
    [rewrite fold_addParam_TypeError|]; exact IH.
Qed.

Lemma addParam_step level parameterData entry :
  (throwing entry = true ->
   addParam level (Normal parameterData) entry = TypeError) /\
  (throwing entry = false ->
   exists parameterData',
     addParam level (Normal parameterData) entry = Normal parameterData' /\
     forall param,
       parameterData' !! param =
         pushed (parameterData !! param)
           (if String.eqb (fst entry) param
            then option_list (levelRecord level entry) else [])).
Proof.
  destruct entry as [key paramInfo]. unfold throwing, addParam, levelRecord.
  cbn [fst snd].
  destruct (inherited key) eqn:Ein.
  - rewrite (inherited_not_skipped key Ein).
    destruct (ParamInfo.range paramInfo) as [rg|]; cbn.
    + split; [reflexivity | discriminate].
    + split; [discriminate|]. intros _. exists parameterData.
      split; [reflexivity|]. intros param. now destruct (String.eqb key param).
  - cbn [andb]. split; [discriminate|]. intros _.
    destruct (String.eqb key "range" || String.eqb key "images").
    { exists parameterData. split; [reflexivity|].
      intros param. now destruct (String.eqb key param). }
    destruct (ParamInfo.range paramInfo) as [rg|].
    2:{ exists parameterData. split; [reflexivity|].
        intros param. now destruct (String.eqb key param). }
    eexists. split; [reflexivity|]. intros param.
    destruct (String.eqb_spec key param) as [->|Hne].
    + now rewrite lookup_insert_eq.
    + now rewrite lookup_insert_ne.
Qed.

Lemma fold_addParam level envData parameterData :
  (existsb throwing envData = true ->
   fold_left (addParam level) envData (Normal parameterData) = TypeError) /\
  (existsb throwing envData = false ->
   exists parameterData',
     fold_left (addParam level) envData (Normal parameterData)
       = Normal parameterData' /\
     forall param,
       parameterData' !! param =
         pushed (parameterData !! param) (recordsOfEnv param level envData)).
Proof.
  revert parameterData.
  induction envData as [|entry envData IH]; intros parameterData.
  { split; [discriminate|]. intros _. exists parameterData.
    split; [reflexivity|]. intros param. reflexivity. }
  cbn [fold_left existsb recordsOfEnv flat_map].
  destruct (addParam_step level parameterData entry) as [Hthrow Hstep].
  destruct (throwing entry) eqn:Et; cbn [orb].
  - split; [|discriminate]. intros _.
    rewrite (Hthrow eq_refl). apply fold_addParam_TypeError.
  - destruct (Hstep eq_refl) as (parameterData1 & -> & Hlook1).
    destruct (IH parameterData1) as [IHthrow IHok].
    split; [exact IHthrow|]. intros Hrest.
    destruct (IHok Hrest) as (parameterData' & -> & Hlook).
    exists parameterData'. split; [reflexivity|]. intros param.
    now rewrite Hlook, Hlook1, pushed_app.
Qed.

Lemma fold_addLevel env levels parameterData :
  (extractionThrows env levels = true ->
   fold_left (addLevel env) levels (Normal parameterData) = TypeError) /\
  (extractionThrows env levels = false ->
   exists parameterData',
     fold_left (addLevel env) levels (Normal parameterData)
       = Normal parameterData' /\
     forall param,
       parameterData' !! param =
         pushed (parameterData !! param) (recordsFor param env levels)).
Proof.
  revert parameterData.
  induction levels as [|[levelName environments] levels IH];
    intros parameterData.
  { split; [discriminate|]. intros _. exists parameterData.
    split; [reflexivity|]. intros param. reflexivity. }
  unfold extractionThrows in *.
  cbn [fold_left existsb recordsFor flat_map fst snd].
  unfold levelThrows at 1 3, addLevel at 2 4. cbn [snd].
  destruct (lookupKey env environments) as [envData|].
  - destruct (fold_addParam levelName envData parameterData)
      as [Hthrow Hstep].
    destruct (existsb throwing envData) eqn:Et; cbn [orb].
    + split; [|discriminate]. intros _.
      rewrite (Hthrow eq_refl). apply fold_addLevel_TypeError.
    + destruct (Hstep eq_refl) as (parameterData1 & -> & Hlook1).
      destruct (IH parameterData1) as [IHthrow IHok].
      split; [exact IHthrow|]. intros Hrest.
      destruct (IHok Hrest) as (parameterData' & -> & Hlook).
      exists parameterData'. split; [reflexivity|]. intros param.
      now rewrite Hlook, Hlook1, pushed_app.
  - cbn [orb]. destruct (IH parameterData) as [IHthrow IHok].
    split; [exact IHthrow|]. intros Hrest.
    destruct (IHok Hrest) as (parameterData' & -> & Hlook).
    exists parameterData'. split; [reflexivity|]. intros param.
    now rewrite Hlook.
Qed.

Lemma extractParameterData_cases env levels :
  (extractionThrows env levels = true ->
   extractParameterData env levels = TypeError) /\
  (extractionThrows env levels = false ->
   exists parameterData,
     extractParameterData env levels = Normal parameterData /\
     forall param,
       parameterData !! param = pushed None (recordsFor param env levels)).
Proof.
  unfold extractParameterData.
  destruct (fold_addLevel env levels ∅) as [Hthrow Hok].
  split; [exact Hthrow|]. intros Hno.
  destruct (Hok Hno) as (parameterData & -> & Hlook).
  exists parameterData. split; [reflexivity|]. intros param.
  now rewrite Hlook, lookup_empty.
Qed.

Lemma extractParameterData_TypeError env levels :
  extractParameterData env levels = TypeError <->
  extractionThrows env levels = true.
Proof.
  destruct (extractParameterData_cases env levels) as [Hthrow Hok].
  split; [|exact Hthrow]. intros Herr.
  destruct (extractionThrows env levels); [reflexivity|].
  destruct (Hok eq_refl) as (parameterData & Heq & _). congruence.
Qed.

Lemma levelRecord_Some level entry r :
  levelRecord level entry = Some r ->
  exists rg,
    ParamInfo.range (snd entry) = Some rg /\
    r = ParamData.mk (Some rg) (ratingOfLevel level)
          (orElse (ParamInfo.reason (snd entry)) "Standard lighting parameter")
          (ParamInfo.recommendation (snd entry)) /\
    (String.eqb (fst entry) "range" || String.eqb (fst entry) "images") = false.
Proof.
  unfold levelRecord.
  destruct (String.eqb (fst entry) "range" || String.eqb (fst entry) "images");
    [discriminate|].
  destruct (ParamInfo.range (snd entry)) as [rg|]; [|discriminate].
  intros [= <-]. exists rg. repeat split.
  unfold orElse at 2. now destruct (String.eqb_spec (ParamInfo.recommendation (snd entry)) "") as [->|].
Qed.

Lemma In_recordsFor param env levels r :
  In r (recordsFor param env levels) <->
  exists levelName environments envData paramInfo,
    In (levelName, environments) levels /\
    lookupKey env environments = Some envData /\
    In (param, paramInfo) envData /\
    levelRecord levelName (param, paramInfo) = Some r.
Proof.
  unfold recordsFor, recordsOfEnv. rewrite in_flat_map. split.
  - intros ([levelName environments] & Hlevel & Hin). cbn [fst snd] in Hin.
    destruct (lookupKey env environments) as [envData|] eqn:Henv;
      [|destruct Hin].
    apply in_flat_map in Hin as ([key paramInfo] & Hentry & Hin).
    cbn [fst] in Hin.
    destruct (String.eqb_spec key param) as [->|]; [|destruct Hin].
    destruct (levelRecord levelName (param, paramInfo)) as [r'|] eqn:Hrec;
      [|destruct Hin].
    destruct Hin as [<-|[]]. eauto 10.
  - intros (levelName & environments & envData & paramInfo
            & Hlevel & Henv & Hentry & Hrec).
    exists (levelName, environments). split; [exact Hlevel|].
    cbn [fst snd]. rewrite Henv. apply in_flat_map.
    exists (param, paramInfo). split; [exact Hentry|].
    cbn [fst]. rewrite String.eqb_refl, Hrec. now left.
Qed.

(** ** The rating shown by [updateParameterValidation] *)

Lemma containsRated_true value rating records :
  containsRated value rating records = true <->
  exists r, In r records /\ contains value r = true /\
            toLowerCase (ParamData.rating r) = rating.
Proof.
  unfold containsRated. rewrite existsb_exists. split.
  - intros (r & Hin & [Hc Hr%String.eqb_eq]%andb_true_iff). eauto.
  - intros (r & Hin & Hc & Hr). exists r. split; [exact Hin|].
    rewrite Hc. now apply String.eqb_eq.
Qed.

Lemma containsRated_false value rating records r :
  containsRated value rating records = false ->
  In r records -> contains value r = true ->
  toLowerCase (ParamData.rating r) <> rating.
Proof.
  intros Hnone Hin Hc Hr.
  assert (H : containsRated value rating records = true)
    by (apply containsRated_true; eauto).
  congruence.
Qed.

Lemma priorityOf_rating r :
  (toLowerCase (ParamData.rating r) = "good" -> priorityOf r = 3%nat) /\
  (toLowerCase (ParamData.rating r) = "medium" -> priorityOf r = 2%nat).
Proof.
  unfold priorityOf, getRatingPriority. split; intros ->; reflexivity.
Qed.

(** With a status element and at least one record, the element is
    rewritten with the class of [statusRating]; for "good" and "medium"
    the text is the upper-cased rating with a reason. *)
Lemma updateParameterValidation_rating paramName value records el :
  records <> [] ->
  exists text,
    updateParameterValidation paramName value (Some records) (Some el) =
      Normal (Some (mkStatusElement text
                      ("validation-status " ++ statusRating value records))) /\
    (statusRating value records <> "bad" ->
     exists reason,
       text = RatingAndReason (toUpperCase (statusRating value records)) reason).
Proof.
  intros Hne. destruct records as [|x records]; [congruence|]. clear Hne.
  set (recs := x :: records).
  destruct (fold_matchStep value recs None "bad")
    as [[Heq Hall] | (i & r & Heq & (Hi & Hc & Hmax) & Hlt)];
    rewrite getRatingPriority_bad in *.
  - assert (Hrating : statusRating value recs = "bad").
    { unfold statusRating.
      destruct (containsRated value "good" recs) eqn:Eg.
      { apply containsRated_true in Eg as (r & [j Hj]%In_lookup & Hc & Hr).
        specialize (Hall j r Hj Hc).
        rewrite (proj1 (priorityOf_rating r) Hr) in Hall. lia. }
      destruct (containsRated value "medium" recs) eqn:Em; [|reflexivity].
      apply containsRated_true in Em as (r & [j Hj]%In_lookup & Hc & Hr).
      specialize (Hall j r Hj Hc).
      rewrite (proj2 (priorityOf_rating r) Hr) in Hall. lia. }
    rewrite Hrating.
    unfold updateParameterValidation, findBestMatch. fold recs. rewrite Heq.
    destruct (findClosest value recs) as [r|] eqn:Hclosest.
    + destruct (findClosest_hasRange _ _ _ Hclosest) as [rg Hrg]. rewrite Hrg.
      destruct (_ && _); eexists; (split; [reflexivity | congruence]).
    + eexists. split; [reflexivity | congruence].
  - rewrite (updateParameterValidation_matched _ _ _ _ r Heq Hlt).
    assert (Hin : In r recs) by (apply In_lookup; eauto).
    assert (Hrating : statusRating value recs = toLowerCase (ParamData.rating r)).
    { unfold statusRating.
      apply getRatingPriority_above_bad in Hlt as [Hg|Hm].
      - rewrite Hg.
        assert (E : containsRated value "good" recs = true)
          by (apply containsRated_true; eauto).
        now rewrite E.
      - rewrite Hm.
        destruct (containsRated value "good" recs) eqn:Eg.
        { apply containsRated_true in Eg as (r' & [j Hj]%In_lookup & Hc' & Hr').
          destruct (Hmax j r' Hj Hc') as [Hle _].
          rewrite (proj1 (priorityOf_rating r') Hr'),
            (proj2 (priorityOf_rating r) Hm) in Hle. lia. }
        assert (E : containsRated value "medium" recs = true)
          by (apply containsRated_true; eauto).
        now rewrite E. }
    rewrite Hrating. eexists. split; [reflexivity|]. eauto.
Qed.

(** X5. The status class tells the best rating among the ranges that
    contain the value: "good" when a record rated good contains it,
    otherwise "medium" when one rated medium does, otherwise "bad";
    in the first two cases the text starts with GOOD or MEDIUM.  The
    order of the records plays no part. *)
Theorem updateParameterValidation_status_class
    (paramName : string) (value : Q) (records : list ParamData.t)
    (el : StatusElement) :
  records <> [] ->
  (containsRated value "good" records = true ->
   exists reason,
     updateParameterValidation paramName value (Some records) (Some el) =
       Normal (Some (mkStatusElement (RatingAndReason "GOOD" reason)
                       "validation-status good"))) /\
  (containsRated value "good" records = false ->
   containsRated value "medium" records = true ->
   exists reason,
     updateParameterValidation paramName value (Some records) (Some el) =
       Normal (Some (mkStatusElement (RatingAndReason "MEDIUM" reason)
                       "validation-status medium"))) /\
  (containsRated value "good" records = false ->
   containsRated value "medium" records = false ->
   exists text,
     updateParameterValidation paramName value (Some records) (Some el) =
       Normal (Some (mkStatusElement text "validation-status bad"))).
Proof.
  intros Hne.
  destruct (updateParameterValidation_rating paramName value records el Hne)
    as (text & Heq & Htext).
  unfold statusRating in *.
  split; [|split].
  - intros Hg. rewrite Hg in *.
    destruct Htext as [reason ->]; [discriminate|]. eauto.
  - intros Hg Hm. rewrite Hg, Hm in *.
    destruct Htext as [reason ->]; [discriminate|]. eauto.
  - intros Hg Hm. rewrite Hg, Hm in *. eauto.
Qed.

Lemma updateParameterValidation_status_class_witness :
  exists reason,
    updateParameterValidation "CCT" 5 (Some mixedRecords) (Some blankStatus) =
      Normal (Some (mkStatusElement (RatingAndReason "GOOD" reason)
                      "validation-status good")).
Proof.
  apply (updateParameterValidation_status_class "CCT" 5 mixedRecords blankStatus).
  - discriminate.
  - reflexivity.
Defined.

(** ** [updateValidationStatus] on the page *)

Lemma updateParameterValidation_present paramName value paramDataArray el :
  exists e,
    updateParameterValidation paramName value paramDataArray (Some el) =
      Normal (Some e).
Proof.
  destruct paramDataArray as [[|x records]|]; [cbn; eauto| |cbn; eauto].
  destruct (updateParameterValidation_rating paramName value (x :: records) el)
    as (text & -> & _); [discriminate | eauto].
Qed.

Lemma fold_validateStep parameterData calls page :
  exists page',
    fold_left (validateStep parameterData) calls (Normal page) = Normal page' /\
    (forall id, is_Some (page' !! id) <-> is_Some (page !! id)) /\
    (forall id, ~ In id (map snd calls) -> page' !! id = page !! id) /\
    (NoDup (map snd calls) ->
     forall paramName value id el,
       In (paramName, value, id) calls -> page !! id = Some el ->
       exists e,
         updateParameterValidation paramName value
           (parameterData !! paramName) (Some el) = Normal (Some e) /\
         page' !! id = Some e).
Proof.
  revert page.
  induction calls as [|[[paramName value] id] calls IH]; intros page.
  { exists page. split; [reflexivity|]. split; [intros; reflexivity|].
    split; [intros; reflexivity|]. intros _ ? ? ? ? []. }
  cbn [fold_left map snd].
  assert (Hstep : exists page1,
            validateStep parameterData (Normal page) (paramName, value, id)
              = Normal page1 /\
            (forall id', is_Some (page1 !! id') <-> is_Some (page !! id')) /\
            (forall id', id' <> id -> page1 !! id' = page !! id') /\
            (forall el, page !! id = Some el ->
               exists e,
                 updateParameterValidation paramName value
                   (parameterData !! paramName) (Some el) = Normal (Some e) /\
                 page1 !! id = Some e)).
  { unfold validateStep. destruct (page !! id) as [el|] eqn:Hel.
    - destruct (updateParameterValidation_present paramName value
                  (parameterData !! paramName) el) as [e He].
      rewrite He. exists (<[id := e]> page). split; [reflexivity|].
      split; [|split].
      + intros id'. destruct (decide (id = id')) as [<-|Hne].
        * rewrite lookup_insert_eq, Hel. split; eauto.
        * now rewrite lookup_insert_ne.
      + intros id' Hne. now rewrite lookup_insert_ne.
      + intros el' [= <-]. exists e. now rewrite lookup_insert_eq.
    - cbn. exists page. split; [reflexivity|].
      split; [intros; reflexivity|].
      split; [intros; reflexivity|]. discriminate. }
  destruct Hstep as (page1 & -> & Hsome1 & Hother1 & Hthis1).
  destruct (IH page1) as (page' & Heq & Hsome & Hother & Hcalls).
  exists page'. split; [exact Heq|]. split; [|split].
  - intros id'. now rewrite Hsome, Hsome1.
  - intros id' Hnot. cbn [In] in Hnot.
    rewrite Hother by tauto. apply Hother1. intros ->. tauto.
  - intros Hnd paramName' value' id' el Hin Hel.
    inversion Hnd as [|? ? Hnotin Hnd']; subst.
    rewrite list_elem_of_In in Hnotin.
    destruct Hin as [[= <- <- <-]|Hin].
    + destruct (Hthis1 el Hel) as (e & He & Hlook).
      exists e. split; [exact He|]. now rewrite Hother.
    + assert (Hne : id' <> id).
      { intros ->. apply Hnotin.
        change id with (snd (paramName', value', id)). now apply in_map. }
      apply (Hcalls Hnd' paramName' value' id' el Hin).
      now rewrite Hother1.
Qed.

Lemma validationCalls_ids sliders : map snd (validationCalls sliders) = statusIds.
Proof. reflexivity. Qed.

Lemma statusIds_NoDup : NoDup statusIds.
Proof. apply (bool_decide_unpack (NoDup _)). vm_compute. exact I. Qed.

Lemma validationCalls_param sliders paramName value id :
  In (paramName, value, id) (validationCalls sliders) ->
  (String.eqb paramName "range" || String.eqb paramName "images") = false.
Proof.
  unfold validationCalls. cbn [In].
  intros H; repeat (destruct H as [[= <- _ _]|H]; [reflexivity|]).
  destruct H.
Qed.

(** X6. Collecting the records throws exactly when some level gives the
    selected environment a key of an inherited name ('constructor',
    'toString', ...) with a range.  Otherwise the array extracted for a
    parameter (of a name that is not inherited) holds, in level order,
    the records of the levels whose entry for the selected environment
    lists the parameter with a range, and there is no array when no
    level does.  Every record has a range, is rated good, medium or bad
    after its level, and has a reason that is not empty. *)
Theorem extractParameterData_records
    (selectedEnvironment : string)
    (recommendationLevels :
       list (string * list (string * list (string * ParamInfo.t)))) :
  (extractParameterData selectedEnvironment recommendationLevels = TypeError <->
   extractionThrows selectedEnvironment recommendationLevels = true) /\
  (extractionThrows selectedEnvironment recommendationLevels = true <->
   exists level envData param paramInfo,
     In level recommendationLevels /\
     lookupKey selectedEnvironment (snd level) = Some envData /\
     In (param, paramInfo) envData /\
     In param objectPrototypeKeys /\ is_Some (ParamInfo.range paramInfo)) /\
  (forall parameterData,
      extractParameterData selectedEnvironment recommendationLevels
        = Normal parameterData ->
      forall param, inherited param = false ->
        parameterData !! param =
          match recordsFor param selectedEnvironment recommendationLevels with
          | [] => None
          | records => Some records
          end) /\
  (forall param,
      Forall
        (fun r =>
           hasRange r /\
           (ParamData.rating r = "good" \/ ParamData.rating r = "medium" \/
            ParamData.rating r = "bad") /\
           ParamData.reason r <> "")
        (recordsFor param selectedEnvironment recommendationLevels)).
Proof.
  split; [apply extractParameterData_TypeError|]. split; [|split].
  - unfold extractionThrows, levelThrows. rewrite existsb_exists. split.
    + intros (level & Hlevel & Hthrow).
      destruct (lookupKey selectedEnvironment (snd level)) as [envData|] eqn:Henv;
        [|discriminate].
      apply existsb_exists in Hthrow as ([param paramInfo] & Hentry & Hthrow).
      unfold throwing in Hthrow. cbn [fst snd] in Hthrow.
      apply andb_true_iff in Hthrow as [Hinh Hrange].
      apply bool_decide_eq_true in Hrange.
      apply existsb_exists in Hinh as (key & Hkey & Heq).
      apply String.eqb_eq in Heq. subst key.
      exists level, envData, param, paramInfo. auto.
    + intros (level & envData & param & paramInfo
              & Hlevel & Henv & Hentry & Hkey & Hrange).
      exists level. split; [exact Hlevel|]. rewrite Henv.
      apply existsb_exists. exists (param, paramInfo). split; [exact Hentry|].
      unfold throwing. cbn [fst snd]. apply andb_true_iff. split.
      * apply existsb_exists. exists param. split; [exact Hkey|].
        apply String.eqb_refl.
      * now apply bool_decide_eq_true.
  - intros parameterData Heq param _.
    destruct (extractParameterData_cases selectedEnvironment recommendationLevels)
      as [Hthrow Hok].
    destruct (extractionThrows selectedEnvironment recommendationLevels).
    { rewrite (Hthrow eq_refl) in Heq. discriminate. }
    destruct (Hok eq_refl) as (parameterData' & Heq' & Hlook).
    rewrite Heq' in Heq. injection Heq as <-. rewrite Hlook.
    now destruct (recordsFor param selectedEnvironment recommendationLevels).
  - intros param. apply List.Forall_forall. intros r Hin.
    apply In_recordsFor in Hin
      as (levelName & environments & envData & paramInfo & _ & _ & _ & Hrec).
    apply levelRecord_Some in Hrec as (rg & _ & -> & _).
    cbn [ParamData.range ParamData.rating ParamData.reason hasRange].
    split; [eexists; reflexivity|]. split.
    + unfold ratingOfLevel.
      destruct (String.eqb levelName "highly_recommended"); [auto|].
      destruct (String.eqb levelName "recommended"); auto.
    + unfold orElse.
      destruct (String.eqb_spec (ParamInfo.reason (param, paramInfo).2) "");
        [discriminate | assumption].
Qed.

Lemma updateValidationStatus_cases sliders env levels page :
  (extractionThrows env levels = true ->
   updateValidationStatus sliders env levels page = TypeError) /\
  (extractionThrows env levels = false ->
   exists parameterData,
     (forall param,
         parameterData !! param = pushed None (recordsFor param env levels)) /\
     updateValidationStatus sliders env levels page =
       fold_left (validateStep parameterData) (validationCalls sliders)
         (Normal page)).
Proof.
  unfold updateValidationStatus.
  destruct (extractParameterData_cases env levels) as [Hthrow Hok]. split.
  - intros H. now rewrite (Hthrow H).
  - intros H. destruct (Hok H) as (parameterData & -> & Hlook).
    exists parameterData. split; [exact Hlook | reflexivity].
Qed.

(** An environment with a key named 'constructor' that has a range: the
    records cannot be collected and no status is written. *)
Example inherited_key_throws :
  extractionThrows "classroom" inheritedKeyLevels = true /\
  extractParameterData "classroom" inheritedKeyLevels = TypeError /\
  updateValidationStatus sampleSliders "classroom" inheritedKeyLevels samplePage
    = TypeError.
Proof. repeat split; reflexivity. Qed.

(** X7. [updateValidationStatus] throws exactly when collecting the
    records does: when some level gives the selected environment a key
    of an inherited name with a range; the error is thrown before any
    status element is written.  In every other case it completes,
    creates and removes no element, and leaves every element other than
    the nine status elements as it was. *)
Theorem updateValidationStatus_frame
    (sliders : gmap string Q) (selectedEnvironment : string)
    (recommendationLevels :
       list (string * list (string * list (string * ParamInfo.t))))
    (page : gmap string StatusElement) :
  (updateValidationStatus sliders selectedEnvironment recommendationLevels page
     = TypeError <->
   extractionThrows selectedEnvironment recommendationLevels = true) /\
  (extractionThrows selectedEnvironment recommendationLevels = false ->
   exists page',
     updateValidationStatus sliders selectedEnvironment recommendationLevels
       page = Normal page' /\
     dom page' = dom page /\
     forall id, ~ In id statusIds -> page' !! id = page !! id).
Proof.
  destruct (updateValidationStatus_cases sliders selectedEnvironment
              recommendationLevels page) as [Hthrow Hok].
  assert (Hframe :
            extractionThrows selectedEnvironment recommendationLevels = false ->
            exists page',
              updateValidationStatus sliders selectedEnvironment
                recommendationLevels page = Normal page' /\
              dom page' = dom page /\
              forall id, ~ In id statusIds -> page' !! id = page !! id).
  { intros Hno. destruct (Hok Hno) as (parameterData & _ & ->).
    destruct (fold_validateStep parameterData (validationCalls sliders) page)
      as (page' & Heq & Hsome & Hother & _).
    exists page'. split; [exact Heq|]. split.
    - apply set_eq. intros id. rewrite !elem_of_dom. apply Hsome.
    - intros id Hid. apply Hother. now rewrite validationCalls_ids. }
  split; [|exact Hframe].
  split; [|exact Hthrow]. intros Herr.
  destruct (extractionThrows selectedEnvironment recommendationLevels);
    [reflexivity|].
  destruct (Hframe eq_refl) as (page' & Heq & _). congruence.
Qed.

Lemma updateValidationStatus_frame_witness :
  exists page',
    updateValidationStatus sampleSliders "classroom" sampleLevels samplePage
      = Normal page' /\
    dom page' = dom samplePage /\
    forall id, ~ In id statusIds -> page' !! id = samplePage !! id.
Proof.
  apply (proj2 (updateValidationStatus_frame
                  sampleSliders "classroom" sampleLevels samplePage)).
  reflexivity.
Defined.

(** X8. Let the records be collected without an error and the flicker
    slider not stand at 0.  When the value read for a parameter lies in
    the range that the level [highly_recommended] gives for it in the
    selected environment, the status element of the parameter, if the
    page has it, becomes GOOD with the class [validation-status good],
    whatever ranges the other levels give for the parameter. *)
Theorem updateValidationStatus_highly_recommended
    (sliders : gmap string Q) (selectedEnvironment : string)
    (recommendationLevels :
       list (string * list (string * list (string * ParamInfo.t))))
    (page : gmap string StatusElement)
    (paramName : string) (value : Q) (id : string) (el : StatusElement)
    (environments : list (string * list (string * ParamInfo.t)))
    (envData : list (string * ParamInfo.t)) (paramInfo : ParamInfo.t)
    (rg : Range.t) :
  extractionThrows selectedEnvironment recommendationLevels = false ->
  ~ sliderValue sliders "flickerSlider" 1 == 0 ->
  In (paramName, value, id) (validationCalls sliders) ->
  page !! id = Some el ->
  In ("highly_recommended", environments) recommendationLevels ->
  lookupKey selectedEnvironment environments = Some envData ->
  In (paramName, paramInfo) envData ->
  ParamInfo.range paramInfo = Some rg ->
  inRange value rg = true ->
  exists page' reason,
    updateValidationStatus sliders selectedEnvironment recommendationLevels page
      = Normal page' /\
    page' !! id =
      Some (mkStatusElement (RatingAndReason "GOOD" reason)
              "validation-status good").
Proof.
  intros Hno _ Hcall Hel Hlevel Henv Hentry Hrg Hin.
  destruct (updateValidationStatus_cases sliders selectedEnvironment
              recommendationLevels page) as [_ Hok].
  destruct (Hok Hno) as (parameterData & Hlookup & ->).
  destruct (fold_validateStep parameterData (validationCalls sliders) page)
    as (page' & Heq & _ & _ & Hcalls).
  destruct (Hcalls (eq_ind_r NoDup statusIds_NoDup (validationCalls_ids sliders))
              paramName value id el Hcall Hel) as (e & He & Hlook).
  set (r := ParamData.mk (Some rg) "good"
              (orElse (ParamInfo.reason paramInfo) "Standard lighting parameter")
              (orElse (ParamInfo.recommendation paramInfo) "")).
  assert (Hr : In r (recordsFor paramName selectedEnvironment recommendationLevels)).
  { apply In_recordsFor.
    exists "highly_recommended", environments, envData, paramInfo.
    repeat split; try assumption.
    unfold levelRecord. cbn [fst snd].
    now rewrite (validationCalls_param _ _ _ _ Hcall), Hrg. }
  assert (Hdata : parameterData !! paramName =
            Some (recordsFor paramName selectedEnvironment recommendationLevels)).
  { rewrite Hlookup.
    destruct (recordsFor paramName selectedEnvironment recommendationLevels);
      [destruct Hr | reflexivity]. }
  rewrite Hdata in He.
  set (records := recordsFor paramName selectedEnvironment recommendationLevels) in *.
  assert (Hne : records <> []) by (intros E; rewrite E in Hr; destruct Hr).
  destruct (updateParameterValidation_rating paramName value records el Hne)
    as (text & Heq' & Htext).
  assert (Hgood : containsRated value "good" records = true).
  { apply containsRated_true. exists r. split; [exact Hr|].
    split; [|reflexivity]. unfold contains, r. cbn. exact Hin. }
  unfold statusRating in Heq', Htext. rewrite Hgood in Heq', Htext.
  destruct Htext as [reason ->]; [discriminate|].
  rewrite Heq' in He. injection He as <-.
  exists page', reason. split; [exact Heq | exact Hlook].
Qed.

Lemma updateValidationStatus_highly_recommended_witness :
  exists page' reason,
    updateValidationStatus sampleSliders "classroom" sampleLevels samplePage
      = Normal page' /\
    page' !! "cctStatus" =
      Some (mkStatusElement (RatingAndReason "GOOD" reason)
              "validation-status good").
Proof.
  apply (updateValidationStatus_highly_recommended
           sampleSliders "classroom" sampleLevels samplePage
           "CCT" 4500 "cctStatus" blankStatus
           [ ("lab", [ ("CCT", ParamInfo.mk (Some (Range.mk 5000 6500)) "" "") ]);
             ("classroom",
              [ ("range", ParamInfo.mk None "" "");
                ("CCT", ParamInfo.mk (Some (Range.mk 4000 5000)) "calm" "keep");
                ("CRI", ParamInfo.mk (Some (Range.mk 90 100)) "" "") ]) ]
           [ ("range", ParamInfo.mk None "" "");
             ("CCT", ParamInfo.mk (Some (Range.mk 4000 5000)) "calm" "keep");
             ("CRI", ParamInfo.mk (Some (Range.mk 90 100)) "" "") ]
           (ParamInfo.mk (Some (Range.mk 4000 5000)) "calm" "keep")
           (Range.mk 4000 5000)).
  - reflexivity.
  - vm_compute. discriminate.
  - left. reflexivity.
  - reflexivity.
  - left. reflexivity.
  - reflexivity.
  - right. left. reflexivity.
  - reflexivity.
  - reflexivity.
Defined.

(** X9. When no level knows the selected environment, every status
    element that the page has reads "No Data Available" with the class
    [validation-status evaluating]. *)
Theorem updateValidationStatus_unknown_environment
    (sliders : gmap string Q) (selectedEnvironment : string)
    (recommendationLevels :
       list (string * list (string * list (string * ParamInfo.t))))
    (page : gmap string StatusElement) :
  (forall level, In level recommendationLevels ->
                 lookupKey selectedEnvironment (snd level) = None) ->
  exists page',
    updateValidationStatus sliders selectedEnvironment recommendationLevels page
      = Normal page' /\
    forall id, In id statusIds -> is_Some (page !! id) ->
      page' !! id =
        Some (mkStatusElement NoDataAvailable "validation-status evaluating").
Proof.
  intros Hnone.
  assert (Hno : extractionThrows selectedEnvironment recommendationLevels = false).
  { unfold extractionThrows.
    induction recommendationLevels as [|level levels IH]; [reflexivity|].
    cbn [existsb]. unfold levelThrows at 1. rewrite (Hnone level) by now left.
    apply IH. intros l Hl. apply Hnone. now right. }
  destruct (updateValidationStatus_cases sliders selectedEnvironment
              recommendationLevels page) as [_ Hok].
  destruct (Hok Hno) as (parameterData & Hlookup & ->).
  assert (Hdata : forall param, parameterData !! param = None).
  { intros param. rewrite Hlookup.
    assert (E : recordsFor param selectedEnvironment recommendationLevels = []).
    { clear Hno Hok Hlookup. unfold recordsFor.
      induction recommendationLevels as [|level levels IH];
        [reflexivity|].
      cbn [flat_map]. rewrite (Hnone level) by now left.
      apply IH. intros l Hl. apply Hnone. now right. }
    now rewrite E. }
  destruct (fold_validateStep parameterData (validationCalls sliders) page)
    as (page' & Heq & _ & _ & Hcalls).
  exists page'. split; [exact Heq|].
  intros id Hid [el Hel].
  rewrite <- (validationCalls_ids sliders) in Hid.
  apply in_map_iff in Hid as ([[paramName value] id'] & Hsnd & Hcall).
  cbn [snd] in Hsnd. subst id'.
  destruct (Hcalls (eq_ind_r NoDup statusIds_NoDup (validationCalls_ids sliders))
              paramName value id el Hcall Hel) as (e & He & Hlook).
  rewrite Hdata in He. cbn in He. injection He as <-. exact Hlook.
Qed.

Lemma updateValidationStatus_unknown_environment_witness :
  exists page',
    updateValidationStatus sampleSliders "gym" sampleLevels samplePage
      = Normal page' /\
    forall id, In id statusIds -> is_Some (samplePage !! id) ->
      page' !! id =
        Some (mkStatusElement NoDataAvailable "validation-status evaluating").
Proof.
  apply (updateValidationStatus_unknown_environment
           sampleSliders "gym" sampleLevels samplePage).
  intros level [<-|[<-|[<-|[]]]]; reflexivity.
Defined.

(** ** Image selection and cycling *)

Lemma getClassroomImagePath_images s random imageIndex images :
  selectedImages s = Normal (Some images) ->
  getClassroomImagePath s random imageIndex =
    Normal (imageAt images (pickedIndex random imageIndex (length images))).
Proof.
  unfold selectedImages, getClassroomImagePath, pickedIndex.
  destruct (apiData s) as [data|]; [|discriminate].
  destruct (_ || _); [discriminate|].
  destruct (lookupKey (selectedGrade s) data) as [gradeData|]; [|discriminate].
  destruct (Api.lighting_data gradeData) as [lightingData|]; [|discriminate].
  destruct (Api.recommendation_levels lightingData) as [levels|];
    [|discriminate].
  destruct (Api.highly_recommended levels) as [level|]; [|discriminate].
  destruct (Api.environments level) as [environments|]; [|discriminate].
  destruct (lookupKey (selectedEnvironment s) environments) as [envData|];
    [|discriminate].
  cbn [mbind option_bind]. intros [= ->].
  destruct imageIndex as [i|]; [|reflexivity].
  now destruct (_ && _).
Qed.

Lemma imageAt_in_range images (i : Z) :
  (0 <= i < Z.of_nat (length images))%Z ->
  exists path, imageAt images i = Some path /\ In path images /\
               images !! Z.to_nat i = Some path.
Proof.
  intros Hi. unfold imageAt.
  destruct (Z.ltb_spec i 0); [lia|].
  destruct (lookup_lt_is_Some_2 images (Z.to_nat i)) as [path Hpath]; [lia|].
  exists path. split; [exact Hpath|]. split; [|exact Hpath].
  apply In_lookup. eauto.
Qed.

Lemma addMod_in_range (i b : Z) (n : nat) :
  (0 < n)%nat -> (0 <= i + b)%Z ->
  addMod (Some i) b n = Some ((i + b) mod Z.of_nat n)%Z /\
  (0 <= (i + b) mod Z.of_nat n < Z.of_nat n)%Z.
Proof.
  intros Hn Hi. unfold addMod.
  destruct (Nat.eqb_spec n 0); [lia|].
  rewrite Z.rem_mod_nonneg by lia. split; [reflexivity|].
  apply Z.mod_pos_bound. lia.
Qed.

Lemma pickedIndex_in_range random (i : Z) (n : nat) :
  (0 <= i < Z.of_nat n)%Z -> pickedIndex random (Some i) n = i.
Proof.
  intros Hi. unfold pickedIndex.
  destruct (Z.leb_spec 0 i); [|lia]. destruct (Z.ltb_spec i (Z.of_nat n)); [|lia].
  reflexivity.
Qed.

(** What a cycling step does when the selected environment has images
    and the step keeps the index from going below 0. *)
Lemma cycleBy_images step s random v images (i : Z) :
  selectedImages s = Normal (Some images) -> images <> [] ->
  currentImageIndex v = Some i -> (0 <= i + step (length images))%Z ->
  let index := ((i + step (length images)) mod Z.of_nat (length images))%Z in
  (0 <= index < Z.of_nat (length images))%Z /\
  exists path,
    images !! Z.to_nat index = Some path /\
    cycleBy step s random v =
      Normal (mkViewer (Some index)
                ((fun _ => Some path) <$> classroomImageSrc v)
                ((fun _ => ImageOf (Some (index + 1)%Z) (length images))
                   <$> imageCounter v)).
Proof.
  intros Himages Hne Hi Hstep index.
  assert (Hn : (0 < length images)%nat) by (destruct images; [congruence|cbn; lia]).
  destruct (addMod_in_range i (step (length images)) (length images) Hn Hstep)
    as [Hadd Hrange].
  fold index in Hadd, Hrange. split; [exact Hrange|].
  destruct (imageAt_in_range images index Hrange) as (path & Hat & _ & Hlook).
  exists path. split; [exact Hlook|].
  unfold cycleBy. rewrite Himages, Hi, Hadd.
  rewrite (getClassroomImagePath_images _ _ _ _ Himages).
  rewrite pickedIndex_in_range by exact Hrange. rewrite Hat.
  unfold updateImageCounter. rewrite Himages.
  destruct (classroomImageSrc v), (imageCounter v); reflexivity.
Qed.

(** X10. With images for the selected environment and an index that is
    not negative, [cycleToNextImage] moves the index to the next
    position, back to 0 after the last; the new index is always a valid
    position, the image object (if there is one) gets the image at that
    position, and the counter (if there is one) reads the position
    counted from 1 and the number of images. *)
Theorem cycleToNextImage_in_range
    (s : Session) (random : Q) (v : Viewer) (images : list string) (i : Z) :
  selectedImages s = Normal (Some images) -> images <> [] ->
  currentImageIndex v = Some i -> (0 <= i)%Z ->
  let n := Z.of_nat (length images) in
  let index := ((i + 1) mod n)%Z in
  (0 <= index < n)%Z /\
  (index = if (i + 1 <? n)%Z then (i + 1)%Z else ((i + 1) mod n)%Z) /\
  ((i + 1 = n)%Z -> index = 0%Z) /\
  exists path,
    images !! Z.to_nat index = Some path /\
    cycleToNextImage s random v =
      Normal (mkViewer (Some index)
                ((fun _ => Some path) <$> classroomImageSrc v)
                ((fun _ => ImageOf (Some (index + 1)%Z) (length images))
                   <$> imageCounter v)).
Proof.
  intros Himages Hne Hi Hpos n index.
  destruct (cycleBy_images (fun _ => 1%Z) s random v images i Himages Hne Hi)
    as [Hrange Hcycle]; [lia|].
  fold n index in Hrange, Hcycle.
  split; [exact Hrange|]. split; [|split; [|exact Hcycle]].
  - destruct (Z.ltb_spec (i + 1) n); [|reflexivity].
    unfold index. apply Z.mod_small. lia.
  - intros Hlast. unfold index. rewrite Hlast. apply Z_mod_same_full.
Qed.

Lemma cycleToNextImage_in_range_witness :
  cycleToNextImage sampleSession (1 # 2) sampleViewer =
    Normal (mkViewer (Some 1%Z) (Some (Some "b.jpg"))
              (Some (ImageOf (Some 2%Z) 3))).
Proof.
  destruct (cycleToNextImage_in_range sampleSession (1 # 2) sampleViewer
              ["a.jpg"; "b.jpg"; "c.jpg"] 0%Z)
    as (_ & _ & _ & path & Hpath & Hcycle);
    [reflexivity | discriminate | reflexivity | lia |].
  vm_compute in Hpath. injection Hpath as <-. exact Hcycle.
Defined.

Lemma mod_next_previous (i n : Z) :
  (0 <= i < n)%Z -> (((i + 1) mod n + (-1 + n)) mod n = i)%Z.
Proof.
  intros Hi. destruct (Z.eq_dec (i + 1)%Z n) as [E|E].
  - rewrite E, Z_mod_same_full. rewrite Z.mod_small by lia. lia.
  - rewrite (Z.mod_small (i + 1)%Z n) by lia.
    replace (i + 1 + (-1 + n))%Z with (i + 1 * n)%Z by lia.
    rewrite Z_mod_plus_full. apply Z.mod_small. lia.
Qed.

Lemma mod_previous_next (i n : Z) :
  (0 <= i < n)%Z -> (((i + (-1 + n)) mod n + 1) mod n = i)%Z.
Proof.
  intros Hi. destruct (Z.eq_dec i 0%Z) as [->|E].
  - rewrite (Z.mod_small (0 + (-1 + n))%Z n) by lia.
    replace (0 + (-1 + n) + 1)%Z with n by lia. apply Z_mod_same_full.
  - replace (i + (-1 + n))%Z with (i - 1 + 1 * n)%Z by lia.
    rewrite Z_mod_plus_full, (Z.mod_small (i - 1)%Z n) by lia.
    replace (i - 1 + 1)%Z with i by lia. apply Z.mod_small. lia.
Qed.

(** X11. Next and previous undo each other: from a valid position,
    [cycleToNextImage] followed by [cycleToPreviousImage], or the other
    way round, ends at the position it started from. *)
Theorem cycle_next_previous
    (s : Session) (r1 r2 : Q) (v : Viewer) (images : list string) (i : Z) :
  selectedImages s = Normal (Some images) ->
  currentImageIndex v = Some i -> (0 <= i < Z.of_nat (length images))%Z ->
  (exists v1 v2,
     cycleToNextImage s r1 v = Normal v1 /\
     cycleToPreviousImage s r2 v1 = Normal v2 /\
     currentImageIndex v2 = Some i) /\
  (exists v1 v2,
     cycleToPreviousImage s r1 v = Normal v1 /\
     cycleToNextImage s r2 v1 = Normal v2 /\
     currentImageIndex v2 = Some i).
Proof.
  intros Himages Hi Hrange.
  assert (Hne : images <> []) by (intros ->; cbn in Hrange; lia).
  set (n := Z.of_nat (length images)) in *.
  split.
  - destruct (cycleBy_images (fun _ => 1%Z) s r1 v images i Himages Hne Hi)
      as [Hr1 (p1 & _ & H1)]; [lia|].
    fold n in Hr1, H1.
    match type of H1 with _ = Normal ?w => set (v1 := w) in * end.
    destruct (cycleBy_images (fun m => (-1 + Z.of_nat m)%Z) s r2 v1 images
                ((i + 1) mod n)%Z Himages Hne eq_refl)
      as [Hr2 (p2 & _ & H2)]; [fold n; lia|].
    fold n in Hr2, H2.
    eexists. eexists. split; [exact H1|].
    split; [exact H2|]. cbn [currentImageIndex]. f_equal.
    now apply mod_next_previous.
  - destruct (cycleBy_images (fun m => (-1 + Z.of_nat m)%Z) s r1 v images i
                Himages Hne Hi)
      as [Hr1 (p1 & _ & H1)]; [fold n; lia|].
    fold n in Hr1, H1.
    match type of H1 with _ = Normal ?w => set (v1 := w) in * end.
    destruct (cycleBy_images (fun _ => 1%Z) s r2 v1 images
                ((i + (-1 + n)) mod n)%Z Himages Hne eq_refl)
      as [Hr2 (p2 & _ & H2)]; [lia|].
    fold n in Hr2, H2.
    eexists. eexists. split; [exact H1|].
    split; [exact H2|]. cbn [currentImageIndex]. f_equal.
    now apply mod_previous_next.
Qed.

Lemma cycle_next_previous_witness :
  (exists v1 v2,
     cycleToNextImage sampleSession 0 sampleViewer = Normal v1 /\
     cycleToPreviousImage sampleSession 0 v1 = Normal v2 /\
     currentImageIndex v2 = Some 0%Z) /\
  (exists v1 v2,
     cycleToPreviousImage sampleSession 0 sampleViewer = Normal v1 /\
     cycleToNextImage sampleSession 0 v1 = Normal v2 /\
     currentImageIndex v2 = Some 0%Z).
Proof.
  apply (cycle_next_previous sampleSession 0 0 sampleViewer
           ["a.jpg"; "b.jpg"; "c.jpg"] 0%Z);
    [reflexivity | reflexivity | cbn; lia].
Defined.

(** X12. [k] calls of [cycleToNextImage] from a valid position [i] end
    at position [(i + k) mod n], and so after as many calls as there are
    images the viewer is back where it was. *)
Theorem cycleToNextImage_times
    (k : nat) (s : Session) (random : nat -> Q) (v : Viewer)
    (images : list string) (i : Z) :
  selectedImages s = Normal (Some images) ->
  currentImageIndex v = Some i -> (0 <= i < Z.of_nat (length images))%Z ->
  (exists v',
     nextTimes k s random v = Normal v' /\
     currentImageIndex v' = Some ((i + Z.of_nat k) mod Z.of_nat (length images))%Z)
  /\
  (exists v',
     nextTimes (length images) s random v = Normal v' /\
     currentImageIndex v' = Some i).
Proof.
  intros Himages Hi Hrange.
  assert (Hne : images <> []) by (intros ->; cbn in Hrange; lia).
  set (n := Z.of_nat (length images)) in *.
  assert (Hgen : forall k v i,
            currentImageIndex v = Some i -> (0 <= i < n)%Z ->
            exists v',
              nextTimes k s random v = Normal v' /\
              currentImageIndex v' = Some ((i + Z.of_nat k) mod n)%Z).
  { clear k v i Hi Hrange. induction k as [|k IH]; intros v i Hi Hrange.
    - exists v. split; [reflexivity|]. rewrite Hi. f_equal.
      rewrite Z.add_0_r. symmetry. apply Z.mod_small. exact Hrange.
    - cbn [nextTimes].
      destruct (cycleBy_images (fun _ => 1%Z) s (random k) v images i
                  Himages Hne Hi) as [Hr (p & _ & H1)]; [lia|].
      fold n in Hr, H1. unfold cycleToNextImage. rewrite H1.
      match goal with |- context [nextTimes k s random ?w] =>
        destruct (IH w ((i + 1) mod n)%Z eq_refl Hr) as (v' & Hk & Hidx)
      end.
      exists v'. split; [exact Hk|]. rewrite Hidx. f_equal.
      rewrite Zplus_mod_idemp_l. f_equal. lia. }
  split; [now apply Hgen|].
  destruct (Hgen (length images) v i Hi Hrange) as (v' & Hk & Hidx).
  exists v'. split; [exact Hk|]. rewrite Hidx. f_equal. fold n.
  replace (i + n)%Z with (i + 1 * n)%Z by lia.
  rewrite Z_mod_plus_full. apply Z.mod_small. exact Hrange.
Qed.

Lemma cycleToNextImage_times_witness :
  (exists v',
     nextTimes 5 sampleSession (fun _ => 0) sampleViewer = Normal v' /\
     currentImageIndex v' = Some ((0 + Z.of_nat 5) mod Z.of_nat 3)%Z) /\
  (exists v',
     nextTimes 3 sampleSession (fun _ => 0) sampleViewer = Normal v' /\
     currentImageIndex v' = Some 0%Z).
Proof.
  apply (cycleToNextImage_times 5 sampleSession (fun _ => 0) sampleViewer
           ["a.jpg"; "b.jpg"; "c.jpg"] 0%Z);
    [reflexivity | reflexivity | cbn; lia].
Defined.

(** X13. With an [images] array that is empty, cycling in either
    direction turns the index into [NaN], whatever it was; the image
    object gets [undefined] as its source and the counter reads
    "Image NaN of 0". *)
Theorem cycle_empty_images (s : Session) (random : Q) (v : Viewer) :
  selectedImages s = Normal (Some []) ->
  cycleToNextImage s random v =
    Normal (mkViewer None ((fun _ => None) <$> classroomImageSrc v)
              ((fun _ => ImageOf None 0) <$> imageCounter v)) /\
  cycleToPreviousImage s random v =
    Normal (mkViewer None ((fun _ => None) <$> classroomImageSrc v)
              ((fun _ => ImageOf None 0) <$> imageCounter v)).
Proof.
  intros Himages.
  assert (H : forall step,
            cycleBy step s random v =
              Normal (mkViewer None ((fun _ => None) <$> classroomImageSrc v)
                        ((fun _ => ImageOf None 0) <$> imageCounter v))).
  { intros step. unfold cycleBy. rewrite Himages.
    assert (E : addMod (currentImageIndex v) (step (length (@nil string)))
                  (length (@nil string)) = None)
      by (unfold addMod; now destruct (currentImageIndex v)).
    rewrite E, (getClassroomImagePath_images _ _ _ _ Himages).
    assert (Hat : forall z, imageAt [] z = None)
      by (intros z; unfold imageAt; now destruct (z <? 0)%Z).
    rewrite Hat. unfold updateImageCounter. rewrite Himages.
    destruct (classroomImageSrc v), (imageCounter v); reflexivity. }
  split; apply H.
Qed.

Lemma cycle_empty_images_witness :
  cycleToNextImage
      (mkSession
         (Some [ ("g", Api.mkGradeData (Some (Api.mkLightingData (Some
                   (Api.mkLevels (Some (Api.mkLevel (Some
                      [ ("e", Api.mkEnvironment (Some [])) ])))))))) ])
         "g" "e")
      0 sampleViewer =
    Normal (mkViewer None (Some None) (Some (ImageOf None 0))).
Proof.
  apply (cycle_empty_images
           (mkSession
              (Some [ ("g", Api.mkGradeData (Some (Api.mkLightingData (Some
                        (Api.mkLevels (Some (Api.mkLevel (Some
                           [ ("e", Api.mkEnvironment (Some [])) ])))))))) ])
              "g" "e")
           0 sampleViewer).
  reflexivity.
Defined.

(** X14. With images for the selected environment,
    [getClassroomImagePath] always returns one of them: the image at the
    index when the index is a valid position, and otherwise (also for
    [NaN]) the one picked by [Math.random()]. *)
Theorem getClassroomImagePath_member
    (s : Session) (random : Q) (imageIndex : jsIndex) (images : list string) :
  selectedImages s = Normal (Some images) -> images <> [] ->
  0 <= random -> random < 1 ->
  exists path,
    getClassroomImagePath s random imageIndex = Normal (Some path) /\
    In path images /\
    (forall i, imageIndex = Some i ->
               (0 <= i < Z.of_nat (length images))%Z ->
               images !! Z.to_nat i = Some path).
Proof.
  intros Himages Hne Hr0 Hr1.
  rewrite (getClassroomImagePath_images _ _ _ _ Himages).
  set (n := length images).
  assert (Hn : (0 < n)%nat) by (subst n; destruct images; [congruence|cbn; lia]).
  assert (Hfloor : (0 <= Qfloor (random * count n) < Z.of_nat n)%Z).
  { pose proof (count_pos n Hn) as Hc.
    split.
    - change 0%Z with (Qfloor 0). apply Qfloor_resp_le. nra.
    - rewrite Zlt_Qlt.
      apply Qle_lt_trans with (random * count n); [apply Qfloor_le|].
      fold (count n). nra. }
  assert (Hpick : (0 <= pickedIndex random imageIndex n < Z.of_nat n)%Z).
  { unfold pickedIndex. destruct imageIndex as [i|]; [|exact Hfloor].
    destruct (Z.leb_spec 0 i), (Z.ltb_spec i (Z.of_nat n)); cbn [andb];
      try exact Hfloor. lia. }
  destruct (imageAt_in_range images _ Hpick) as (path & Hat & Hin & _).
  exists path. split; [now rewrite Hat|]. split; [exact Hin|].
  intros i -> Hi. fold n in Hi.
  rewrite (pickedIndex_in_range random i n Hi) in Hat.
  unfold imageAt in Hat. destruct (Z.ltb_spec i 0); [lia | exact Hat].
Qed.

Lemma getClassroomImagePath_member_witness :
  exists path,
    getClassroomImagePath sampleSession (1 # 2) (Some 7%Z) = Normal (Some path) /\
    In path ["a.jpg"; "b.jpg"; "c.jpg"] /\
    (forall i, Some 7%Z = Some i ->
               (0 <= i < Z.of_nat (length ["a.jpg"; "b.jpg"; "c.jpg"]))%Z ->
               ["a.jpg"; "b.jpg"; "c.jpg"] !! Z.to_nat i = Some path).
Proof.
  apply (getClassroomImagePath_member sampleSession (1 # 2) (Some 7%Z)
           ["a.jpg"; "b.jpg"; "c.jpg"]);
    [reflexivity | discriminate | unfold Qle; simpl; lia
     | unfold Qlt; simpl; lia].
Defined.

(** ** [applyVisualEffects] *)

Lemma flicker_threshold (f : Q) :
  0 < f -> (8 < (1 / f) * 10000 <-> f < 1250).
Proof.
  intros Hf.
  assert (Hne : ~ f == 0)
    by (intros E0; rewrite E0 in Hf; exact (Qlt_irrefl 0 Hf)).
  assert (E : (1 / f) * 10000 == 10000 / f) by (field; exact Hne).
  rewrite E. split; intros H.
  - assert (H' : 8 * f < (10000 / f) * f) by (apply Qmult_lt_compat_r; assumption).
    assert (E' : (10000 / f) * f == 10000) by (field; exact Hne).
    rewrite E' in H'. lra.
  - apply Qlt_shift_div_l; [exact Hf | lra].
Qed.

Lemma toggleClass_elem cond cls classes c :
  c ∈ toggleClass cond cls classes <->
  (c = cls /\ cond = true) \/ (c <> cls /\ c ∈ classes).
Proof.
  unfold toggleClass. destruct cond.
  - rewrite elem_of_union, elem_of_singleton.
    destruct (decide (c = cls)); intuition congruence.
  - rewrite elem_of_difference, elem_of_singleton. intuition congruence.
Qed.

(** X15. With a canvas and a snapshot, [applyVisualEffects] repaints the
    canvas with the sliders' values and sets two classes: [flicker]
    exactly when the flicker slider is below 1250, [blurred] exactly when
    the glare is above 60 or the flicker slider is below 1250; so
    [flicker] never goes without [blurred], and no other class of the
    canvas changes. *)
Theorem applyVisualEffects_classes
    (sliders : gmap string Q) (st : Stage) (classes : gset string)
    (original : ImageData) :
  classList st = Some classes ->
  originalImageData (pixels st) = Some original ->
  let frequency := parseInt (sliderValue sliders "flickerSlider" 1) in
  let glare := parseInt (sliderValue sliders "glareSlider" 6) in
  0 < frequency ->
  exists classes',
    classList (applyVisualEffects sliders st) = Some classes' /\
    ("flicker" ∈ classes' <-> frequency < 1250) /\
    ("blurred" ∈ classes' <-> 60 < glare \/ frequency < 1250) /\
    ("flicker" ∈ classes' -> "blurred" ∈ classes') /\
    (forall c, c <> "flicker" -> c <> "blurred" ->
               (c ∈ classes' <-> c ∈ classes)) /\
    pixels (applyVisualEffects sliders st) =
      processImageWithLighting
        (parseInt (sliderValue sliders "cctSlider" 6500))
        (parseInt (sliderValue sliders "criSlider" 80))
        glare ((1 / frequency) * 10000) (pixels st).
Proof.
  intros Hclasses Horiginal frequency glare Hpos.
  unfold applyVisualEffects. rewrite Hclasses, Horiginal.
  fold frequency glare. cbn [classList pixels].
  eexists. split; [reflexivity|].
  pose proof (flicker_threshold frequency Hpos) as Hthr.
  assert (Hf : Qltb 8 ((1 / frequency) * 10000) = true <-> frequency < 1250)
    by (now rewrite Qltb_lt).
  assert (Hflicker :
            "flicker" ∈ toggleClass
              (Qltb 60 glare || Qltb 8 ((1 / frequency) * 10000)) "blurred"
              (toggleClass (Qltb 8 ((1 / frequency) * 10000)) "flicker" classes)
            <-> frequency < 1250).
  { rewrite !toggleClass_elem, <- Hf. intuition (try discriminate). }
  assert (Hblurred :
            "blurred" ∈ toggleClass
              (Qltb 60 glare || Qltb 8 ((1 / frequency) * 10000)) "blurred"
              (toggleClass (Qltb 8 ((1 / frequency) * 10000)) "flicker" classes)
            <-> 60 < glare \/ frequency < 1250).
  { rewrite toggleClass_elem, orb_true_iff, Qltb_lt, Hf. intuition. }
  split; [exact Hflicker|]. split; [exact Hblurred|].
  split; [rewrite Hflicker, Hblurred; tauto|].
  split; [|reflexivity].
  intros c Hc1 Hc2. rewrite !toggleClass_elem. intuition.
Qed.

Lemma applyVisualEffects_classes_witness :
  exists classes',
    classList (applyVisualEffects flickerSliders sampleStage) = Some classes' /\
    ("flicker" ∈ classes' <-> 1000 < 1250) /\
    ("blurred" ∈ classes' <-> 60 < 6 \/ 1000 < 1250) /\
    ("flicker" ∈ classes' -> "blurred" ∈ classes') /\
    (forall c, c <> "flicker" -> c <> "blurred" ->
               (c ∈ classes' <-> c ∈ ({["lit"]} ∪ {["blurred"]} : gset string))).
Proof.
  destruct (applyVisualEffects_classes flickerSliders sampleStage
              ({["lit"]} ∪ {["blurred"]}) onePixel eq_refl eq_refl)
    as (classes' & H1 & H2 & H3 & H4 & H5 & _).
  - vm_compute. reflexivity.
  - exists classes'.
    split; [exact H1|]. split; [exact H2|]. split; [exact H3|].
    split; [exact H4 | exact H5].
Defined.

(** ** The environment card: status, emotion image and entries *)

Lemma environmentCard_status_eq currentValues env envData :
  overallStatus (environmentCard currentValues env envData) =
    if Qle_bool 80
         (recommendationPercentage (environmentCard currentValues env envData))
    then "Highly Recommended"
    else if Qle_bool 60
              (recommendationPercentage
                 (environmentCard currentValues env envData))
         then "Recommended" else "Not Recommended".
Proof.
  unfold environmentCard.
  destruct (fold_left _ _ _) as [[score params] recs]. reflexivity.
Qed.

(** A percentage reaches [k] exactly when the score reaches [k] hundredths
    of the number of parameters. *)
Lemma percentage_ge (k : Z) (score params : nat) :
  (0 < params)%nat ->
  (inject_Z k <= (count score / count params) * 100 <->
   (k * Z.of_nat params <= 100 * Z.of_nat score)%Z).
Proof.
  intros Hp. pose proof (count_pos params Hp) as Hc.
  assert (Hne : ~ count params == 0)
    by (intros E0; rewrite E0 in Hc; exact (Qlt_irrefl 0 Hc)).
  assert (Hx : (count score / count params) * count params == count score)
    by (field; exact Hne).
  assert (HZ : inject_Z k * count params <= 100 * count score <->
               (k * Z.of_nat params <= 100 * Z.of_nat score)%Z).
  { unfold count. change 100 with (inject_Z 100).
    rewrite <- !inject_Z_mult. rewrite <- Zle_Qle. reflexivity. }
  rewrite <- HZ. clear HZ.
  set (x := count score / count params) in *.
  set (cp := count params) in *. set (cs := count score) in *.
  split; intros H; nra.
Qed.




(** X17. The overall status by the counts: "Highly Recommended" exactly
    when a parameter was evaluated and at least four fifths of the
    evaluated parameters are in range, "Recommended" when at least three
    fifths but fewer than four fifths are, and "Not Recommended"
    otherwise, also when nothing was evaluated. *)
Theorem overallStatus_bands
    (currentValues : gmap string Q) (env : string)
    (envData : list (string * ParamInfo.t)) :
  let card := environmentCard currentValues env envData in
  let score := totalScore card in
  let params := totalParams card in
  (overallStatus card = "Highly Recommended" <->
   (0 < params /\ 4 * params <= 5 * score)%nat) /\
  (overallStatus card = "Recommended" <->
   (0 < params /\ 3 * params <= 5 * score /\ 5 * score < 4 * params)%nat) /\
  (overallStatus card = "Not Recommended" <->
   (params = 0 \/ 5 * score < 3 * params)%nat).
Proof.
  intros card score params.
  pose proof (environmentCard_percentage_eq currentValues env envData) as Hpct.
  pose proof (environmentCard_status_eq currentValues env envData) as Hst.
  fold card in Hpct, Hst. fold score params in Hpct.
  rewrite Hst, Hpct. clear Hst Hpct.
  destruct (Nat.ltb_spec 0 params) as [Hpos|Hzero].
  - pose proof (percentage_ge 80 score params Hpos) as H80.
    pose proof (percentage_ge 60 score params Hpos) as H60.
    change (inject_Z 80) with 80 in H80. change (inject_Z 60) with 60 in H60.
    destruct (Qle_bool 80 _) eqn:E80.
    { apply Qle_bool_iff, H80 in E80.
      repeat split; intros; try discriminate; try lia. }
    assert (N80 : ~ (80 * Z.of_nat params <= 100 * Z.of_nat score)%Z).
    { intros H. apply H80, Qle_bool_iff in H. congruence. }
    destruct (Qle_bool 60 _) eqn:E60.
    { apply Qle_bool_iff, H60 in E60.
      repeat split; intros; try discriminate; try lia. }
    assert (N60 : ~ (60 * Z.of_nat params <= 100 * Z.of_nat score)%Z).
    { intros H. apply H60, Qle_bool_iff in H. congruence. }
    repeat split; intros; try discriminate; try lia.
  - assert (E80 : Qle_bool 80 0 = false) by reflexivity.
    assert (E60 : Qle_bool 60 0 = false) by reflexivity.
    rewrite E80, E60.
    repeat split; intros; try discriminate; try lia.
Qed.




(** The cards of the loop: one for each level entry of the selected
    environment, and none exactly when no level lists it. *)
Lemma selectedCards_shape
    (currentValues : gmap string Q) (selectedEnvironment : string)
    (recommendationLevels :
       list (string * list (string * list (string * ParamInfo.t)))) :
  let cards :=
    updateRecommendationCards currentValues selectedEnvironment
      recommendationLevels in
  Forall (fun card => environment card = selectedEnvironment) cards /\
  length cards =
    length (List.filter (fun env => String.eqb (fst env) selectedEnvironment)
              (flat_map snd recommendationLevels)) /\
  (cards = [] <->
   forall level env, In level recommendationLevels -> In env (snd level) ->
                     fst env <> selectedEnvironment).
Proof.
  intros cards. subst cards. unfold updateRecommendationCards.
  assert (Hinner : forall envs : list (string * list (string * ParamInfo.t)),
            Forall (fun card => environment card = selectedEnvironment)
              (flat_map
                 (fun env =>
                    if String.eqb (fst env) selectedEnvironment
                    then [environmentCard currentValues (fst env) (snd env)]
                    else []) envs) /\
            length
              (flat_map
                 (fun env =>
                    if String.eqb (fst env) selectedEnvironment
                    then [environmentCard currentValues (fst env) (snd env)]
                    else []) envs) =
            length (List.filter
                      (fun env => String.eqb (fst env) selectedEnvironment) envs)).
  { induction envs as [|env envs [IH1 IH2]]; [split; [constructor|reflexivity]|].
    cbn [flat_map List.filter].
    destruct (String.eqb_spec (fst env) selectedEnvironment) as [E|E].
    - split.
      + constructor; [|exact IH1]. unfold environmentCard.
        destruct (fold_left _ _ _) as [[? ?] ?]. exact E.
      + cbn [app length]. now rewrite IH2.
    - split; assumption. }
  assert (Houter :
            Forall (fun card => environment card = selectedEnvironment)
              (flat_map
                 (fun level =>
                    flat_map
                      (fun env =>
                         if String.eqb (fst env) selectedEnvironment
                         then [environmentCard currentValues (fst env) (snd env)]
                         else []) (snd level)) recommendationLevels) /\
            length
              (flat_map
                 (fun level =>
                    flat_map
                      (fun env =>
                         if String.eqb (fst env) selectedEnvironment
                         then [environmentCard currentValues (fst env) (snd env)]
                         else []) (snd level)) recommendationLevels) =
            length (List.filter
                      (fun env => String.eqb (fst env) selectedEnvironment)
                      (flat_map snd recommendationLevels))).
  { induction recommendationLevels as [|level levels [IH1 IH2]];
      [split; [constructor|reflexivity]|].
    cbn [flat_map]. destruct (Hinner (snd level)) as [H1 H2]. split.
    - apply Forall_app. split; assumption.
    - rewrite List.filter_app, !length_app. now rewrite H2, IH2. }
  destruct Houter as [H1 H2]. split; [exact H1|]. split; [exact H2|].
  rewrite <- length_zero_iff_nil, H2, length_zero_iff_nil. split.
  - intros Hnil level env Hlevel Henv Heq.
    assert (Hin : In env (List.filter
                            (fun env => String.eqb (fst env) selectedEnvironment)
                            (flat_map snd recommendationLevels))).
    { apply filter_In. split; [|now apply String.eqb_eq].
      apply in_flat_map. eauto. }
    rewrite Hnil in Hin. destruct Hin.
  - intros Hall.
    destruct (List.filter _ _) as [|env rest] eqn:E; [reflexivity|].
    assert (Hin : In env (List.filter
                            (fun env => String.eqb (fst env) selectedEnvironment)
                            (flat_map snd recommendationLevels)))
      by (rewrite E; now left).
    apply filter_In in Hin as [Hin Heq]. apply String.eqb_eq in Heq.
    apply in_flat_map in Hin as (level & Hlevel & Henv).
    exfalso. exact (Hall level env Hlevel Henv Heq).
Qed.

Lemma getClassroomImagePath_normal g random imageState e :
  NewSimulator.selectedEmotion g = Some e ->
  exists path,
    NewSimulator.getClassroomImagePath g random imageState = Normal path.
Proof.
  unfold NewSimulator.getClassroomImagePath, NewSimulator.emotionImage.
  intros He. rewrite He. unfold NewSimulator.selectedEmotion in He.
  destruct (NewSimulator.apiData g) as [data|]; [|discriminate].
  destruct (String.eqb (NewSimulator.selectedGrade g) ""
            || String.eqb (NewSimulator.selectedEnvironment g) "");
    [eauto|].
  cbn in He.
  destruct (lookupKey (NewSimulator.selectedGrade g) data) as [gradeData|];
    [|discriminate].
  destruct (NewSimulator.lighting_data gradeData ≫=
              NewSimulator.recommendation_levels) as [levels|]; [|eauto].
  destruct (NewSimulator.highly_recommended levels ≫=
              NewSimulator.environments) as [envs|]; [|eauto].
  destruct (lookupKey (NewSimulator.selectedEnvironment g) envs ≫=
              NewSimulator.images) as [imgs|]; [|eauto].
  destruct (_ && _); eauto.
Qed.

Lemma initializeCanvas_cases g page random currentImageState :
  (NewSimulator.canvasThrows g page = true ->
   NewSimulator.initializeCanvas g page random currentImageState = TypeError) /\
  (NewSimulator.canvasThrows g page = false ->
   exists src,
     NewSimulator.initializeCanvas g page random currentImageState
       = Normal src).
Proof.
  unfold NewSimulator.canvasThrows, NewSimulator.initializeCanvas.
  destruct (NewSimulator.infoCards page); cbn [negb andb];
    [|split; [discriminate | eauto]].
  destruct (NewSimulator.lightingCanvas page); cbn [negb andb];
    [|split; [discriminate | eauto]].
  destruct (NewSimulator.selectedEmotion g) as [e|] eqn:He.
  - split; [discriminate|]. intros _.
    destruct (getClassroomImagePath_normal g random
                (Z.of_nat currentImageState) e He) as [path ->].
    unfold NewSimulator.emotionImage. rewrite He. eauto.
  - split; [|discriminate]. intros _.
    unfold NewSimulator.emotionImage. rewrite He.
    now destruct (NewSimulator.getClassroomImagePath _ _ _).
Qed.

Lemma fold_cardStep_TypeError g page random currentValues envs :
  fold_left (NewSimulator.cardStep g page random currentValues) envs TypeError
    = TypeError.
Proof. induction envs as [|env envs IH]; [reflexivity | exact IH]. Qed.

Lemma fold_levelStep_TypeError g page random currentValues levels :
  fold_left (NewSimulator.levelStep g page random currentValues) levels
    TypeError = TypeError.
Proof.
  induction levels as [|level levels IH]; [reflexivity|].
  cbn [fold_left]. unfold NewSimulator.levelStep at 2.
  now rewrite fold_cardStep_TypeError.
Qed.

Lemma fold_cardStep g page random currentValues envs acc :
  fold_left (NewSimulator.cardStep g page random currentValues) envs
    (Normal acc) =
  match
    flat_map
      (fun env =>
         if String.eqb (fst env) (NewSimulator.selectedEnvironment g)
         then [environmentCard currentValues (fst env) (snd env)]
         else []) envs
  with
  | [] => Normal acc
  | card :: cards =>
      if NewSimulator.canvasThrows g page then TypeError
      else Normal (acc ++ card :: cards)%list
  end.
Proof.
  revert acc. induction envs as [|env envs IH]; intros acc; [reflexivity|].
  cbn [fold_left flat_map]. unfold NewSimulator.cardStep at 2.
  destruct (String.eqb (fst env) (NewSimulator.selectedEnvironment g));
    cbn [negb app]; [|apply IH].
  destruct (initializeCanvas_cases g page random
              (emotionImageState
                 (environmentCard currentValues (fst env) (snd env))))
    as [Hthrow Hok].
  destruct (NewSimulator.canvasThrows g page).
  - rewrite (Hthrow eq_refl). apply fold_cardStep_TypeError.
  - destruct (Hok eq_refl) as [src ->]. rewrite IH.
    destruct (flat_map _ envs); now rewrite <- ?app_assoc.
Qed.

Lemma fold_levelStep g page random currentValues levels acc :
  fold_left (NewSimulator.levelStep g page random currentValues) levels
    (Normal acc) =
  match
    updateRecommendationCards currentValues
      (NewSimulator.selectedEnvironment g) levels
  with
  | [] => Normal acc
  | card :: cards =>
      if NewSimulator.canvasThrows g page then TypeError
      else Normal (acc ++ card :: cards)%list
  end.
Proof.
  revert acc. induction levels as [|level levels IH]; intros acc;
    [reflexivity|].
  unfold updateRecommendationCards in *. cbn [fold_left flat_map].
  unfold NewSimulator.levelStep at 2. rewrite fold_cardStep.
  destruct (flat_map _ (snd level)) as [|card cards]; cbn [app]; [apply IH|].
  destruct (NewSimulator.canvasThrows g page).
  - apply fold_levelStep_TypeError.
  - rewrite IH. destruct (flat_map _ levels); cbn [app].
    + now rewrite app_nil_r.
    + now rewrite <- app_assoc.
Qed.

(** X19. With the container on the page, [updateRecommendationCards]
    shows the error card when [gradeData] is [undefined], and the card
    'No Age-Specific Recommendations Available' when the lighting data
    or its levels are missing or no level lists the selected
    environment.  When some level lists it, there is one card for each
    such level, headed by the capitalised name of the environment, if
    [initializeCanvas] completes; if it throws (it finds its container
    and the canvas but not the emotion images of the selected
    environment) only the error card is shown.  Without the container
    the page is left as it was. *)
Theorem updateRecommendationCards_selected
    (g : NewSimulator.Globals) (random : Q) (currentValues : gmap string Q)
    (gradeData :
       option
         (option (list (string * list (string * list (string * ParamInfo.t))))))
    (page : NewSimulator.Page) :
  let page' :=
    NewSimulator.updateRecommendationCards g random currentValues gradeData
      page in
  (NewSimulator.recommendationCards page = None -> page' = page) /\
  (is_Some (NewSimulator.recommendationCards page) ->
   NewSimulator.infoCards page' = NewSimulator.infoCards page /\
   NewSimulator.lightingCanvas page' = NewSimulator.lightingCanvas page /\
   (gradeData = None ->
    NewSimulator.recommendationCards page' = Some ErrorCard) /\
   (gradeData = Some None ->
    NewSimulator.recommendationCards page' = Some NoRecommendationsCard) /\
   (forall recommendationLevels,
       gradeData = Some (Some recommendationLevels) ->
       let cards :=
         updateRecommendationCards currentValues
           (NewSimulator.selectedEnvironment g) recommendationLevels in
       NewSimulator.recommendationCards page' =
         Some (match cards with
               | [] => NoRecommendationsCard
               | _ :: _ =>
                   if NewSimulator.canvasThrows g page then ErrorCard
                   else EnvironmentCards cards
               end) /\
       Forall
         (fun card =>
            environment card = NewSimulator.selectedEnvironment g /\
            cardTitle card = capitalize (NewSimulator.selectedEnvironment g))
         cards /\
       length cards =
         length
           (List.filter
              (fun env =>
                 String.eqb (fst env) (NewSimulator.selectedEnvironment g))
              (flat_map snd recommendationLevels)) /\
       (cards = [] <->
        forall level env,
          In level recommendationLevels -> In env (snd level) ->
          fst env <> NewSimulator.selectedEnvironment g))).
Proof.
  intros page'. subst page'. unfold NewSimulator.updateRecommendationCards.
  split.
  { intros Hnone. now rewrite Hnone. }
  intros [previous Hprev]. rewrite Hprev.
  assert (Hkept :
            forall attempt : Completion CardsContent,
              NewSimulator.infoCards
                (match attempt with
                 | Normal content =>
                     NewSimulator.mkPage (Some content)
                       (NewSimulator.infoCards page)
                       (NewSimulator.lightingCanvas page)
                 | TypeError =>
                     NewSimulator.mkPage (Some ErrorCard)
                       (NewSimulator.infoCards page)
                       (NewSimulator.lightingCanvas page)
                 end) = NewSimulator.infoCards page /\
              NewSimulator.lightingCanvas
                (match attempt with
                 | Normal content =>
                     NewSimulator.mkPage (Some content)
                       (NewSimulator.infoCards page)
                       (NewSimulator.lightingCanvas page)
                 | TypeError =>
                     NewSimulator.mkPage (Some ErrorCard)
                       (NewSimulator.infoCards page)
                       (NewSimulator.lightingCanvas page)
                 end) = NewSimulator.lightingCanvas page)
    by (intros [content|]; split; reflexivity).
  split; [apply Hkept|]. split; [apply Hkept|].
  split; [now intros ->|]. split; [now intros ->|].
  intros recommendationLevels Hdata. subst gradeData.
  set (cards := updateRecommendationCards currentValues
                  (NewSimulator.selectedEnvironment g) recommendationLevels).
  destruct (selectedCards_shape currentValues
              (NewSimulator.selectedEnvironment g) recommendationLevels)
    as (Hall & Hlen & Hnil).
  fold cards in Hall, Hlen, Hnil.
  split; [|split; [|split; [exact Hlen | exact Hnil]]].
  - rewrite fold_levelStep. fold cards.
    destruct cards as [|card rest]; [reflexivity|].
    now destruct (NewSimulator.canvasThrows g page).
  - eapply Forall_impl; [exact Hall|].
    intros card Hcard. split; [exact Hcard|].
    unfold cardTitle. now rewrite Hcard.
Qed.

(** Three levels list the classroom.  With the emotion images in the
    data the container shows their three cards; without them, on a page
    that has the canvas, it shows the error card. *)
Lemma updateRecommendationCards_selected_witness :
  NewSimulator.recommendationCards
    (NewSimulator.updateRecommendationCards NewSimulator.withoutEmotion 0
       sampleValues (Some (Some sampleLevels)) NewSimulator.fullPage)
    = Some ErrorCard /\
  NewSimulator.recommendationCards
    (NewSimulator.updateRecommendationCards NewSimulator.withEmotion 0
       sampleValues (Some (Some sampleLevels)) NewSimulator.fullPage)
    = Some (EnvironmentCards
              (updateRecommendationCards sampleValues "classroom" sampleLevels)) /\
  length (updateRecommendationCards sampleValues "classroom" sampleLevels)
    = 3%nat.
Proof.
  destruct (updateRecommendationCards_selected NewSimulator.withoutEmotion 0
              sampleValues (Some (Some sampleLevels)) NewSimulator.fullPage)
    as [_ H1].
  destruct (updateRecommendationCards_selected NewSimulator.withEmotion 0
              sampleValues (Some (Some sampleLevels)) NewSimulator.fullPage)
    as [_ H2].
  destruct (H1 (mk_is_Some _ _ eq_refl)) as (_ & _ & _ & _ & H1').
  destruct (H2 (mk_is_Some _ _ eq_refl)) as (_ & _ & _ & _ & H2').
  destruct (H1' sampleLevels eq_refl) as (E1 & _).
  destruct (H2' sampleLevels eq_refl) as (E2 & _ & E3 & _).
  split; [exact E1|]. split; [exact E2 | exact E3].
Defined.

(** ** The pixel pipeline: order and bounds *)

Lemma Math_round_mono (x y : Q) : x <= y -> (Math_round x <= Math_round y)%Z.
Proof. intros H. unfold Math_round. apply Qfloor_resp_le. lra. Qed.

Lemma clamp_mono (x y : Q) : x <= y -> (clamp x <= clamp y)%Z.
Proof. intros H. apply Math_round_mono in H. unfold clamp. lia. Qed.

Lemma clamp_between (lo hi : Z) (x : Q) :
  (0 <= lo)%Z -> (hi <= 255)%Z ->
  inject_Z lo <= x <= inject_Z hi -> (lo <= clamp x <= hi)%Z.
Proof.
  intros Hlo Hhi [H1 H2].
  apply Math_round_mono in H1, H2. rewrite Math_round_inject_Z in H1, H2.
  unfold clamp. lia.
Qed.

Lemma lerp_mono (a a' b b' t : Q) :
  0 <= t <= 1 -> a <= a' -> b <= b' -> lerp a b t <= lerp a' b' t.
Proof. intros Ht Ha Hb. unfold lerp. nra. Qed.

Lemma lerp_between (lo hi a b t : Q) :
  0 <= t <= 1 -> lo <= a <= hi -> lo <= b <= hi ->
  lo <= lerp a b t <= hi.
Proof. intros Ht Ha Hb. unfold lerp. nra. Qed.

Lemma brightnessMultiplier_mono (glare glare' : Q) :
  glare <= glare' ->
  brightnessMultiplier glare <= brightnessMultiplier glare'.
Proof.
  intros H. unfold brightnessMultiplier.
  destruct (Qle_bool glare 19) eqn:E1, (Qle_bool glare' 19) eqn:E2;
    try apply Qle_bool_iff in E1; try apply Qle_bool_iff in E2;
    try apply Qle_bool_false in E1; try apply Qle_bool_false in E2;
    unfold Qdiv; change (/ 19) with (1 # 19); change (/ 9) with (1 # 9); lra.
Qed.

Lemma inject_Z_le (x y : Z) : (x <= y)%Z -> inject_Z x <= inject_Z y.
Proof. intros H. now rewrite <- Zle_Qle. Qed.

Lemma applyGlare_mono (brightness brightness' : Q) (px : rgb Z) :
  allBytes px -> brightness <= brightness' ->
  pixelLe (applyGlare brightness px) (applyGlare brightness' px).
Proof.
  destruct px as [[r g] b]. intros (Hr & Hg & Hb) H.
  unfold isByte in *. cbn.
  assert (Hr0 : 0 <= inject_Z r) by (apply (inject_Z_le 0); lia).
  assert (Hg0 : 0 <= inject_Z g) by (apply (inject_Z_le 0); lia).
  assert (Hb0 : 0 <= inject_Z b) by (apply (inject_Z_le 0); lia).
  repeat split; apply clamp_mono; nra.
Qed.

Lemma criFactor_unit (cri : Q) :
  0 <= cri <= 100 ->
  0 <= 1 - cri / 100 <= 1 /\ 0 <= 0.5 * (1 - cri / 100) <= 1.
Proof.
  intros H. unfold Qdiv. change (/ 100) with (1 # 100). lra.
Qed.

Lemma applyCRI_mono (cri : Q) (p q : rgb Z) :
  0 <= cri <= 100 -> pixelLe p q -> pixelLe (applyCRI cri p) (applyCRI cri q).
Proof.
  destruct p as [[r g] b], q as [[r' g'] b'].
  intros Hcri (Hr & Hg & Hb).
  destruct (criFactor_unit cri Hcri) as [Ht Ht'].
  apply inject_Z_le in Hr, Hg, Hb.
  assert (Havg : (inject_Z r + inject_Z g + inject_Z b) / 3 <=
                 (inject_Z r' + inject_Z g' + inject_Z b') / 3).
  { unfold Qdiv. change (/ 3) with (1 # 3). lra. }
  unfold applyCRI, pixelLe.
  destruct (Qltb cri 95);
    repeat split; apply clamp_mono;
    repeat (apply lerp_mono; try assumption).
Qed.

Lemma average_between (lo hi r g b : Q) :
  lo <= r <= hi -> lo <= g <= hi -> lo <= b <= hi ->
  lo <= (r + g + b) / 3 <= hi.
Proof.
  intros Hr Hg Hb. unfold Qdiv. change (/ 3) with (1 # 3). lra.
Qed.

Lemma processPixel_black mult brightness cri :
  processPixel mult brightness cri (0, 0, 0)%Z = (0, 0, 0)%Z.
Proof.
  destruct mult as [[mr mg] mb].
  assert (Hz : forall m : Q, clamp (inject_Z 0 * m) = 0%Z).
  { intros m. assert (E : inject_Z 0 * m == inject_Z 0)
      by (change (inject_Z 0) with 0; lra).
    rewrite E. now apply clamp_inject_Z. }
  unfold processPixel, applyTemperature, applyGlare. rewrite !Hz.
  assert (Hl : forall t : Q,
             lerp (inject_Z 0)
               ((inject_Z 0 + inject_Z 0 + inject_Z 0) / 3) t == inject_Z 0).
  { intros t. unfold lerp, Qdiv. change (/ 3) with (1 # 3).
    change (inject_Z 0) with 0. lra. }
  assert (Hc : forall t : Q,
             clamp (lerp (inject_Z 0)
               ((inject_Z 0 + inject_Z 0 + inject_Z 0) / 3) t) = 0%Z).
  { intros t. rewrite Hl. now apply clamp_inject_Z. }
  assert (Hc2 : forall t u : Q,
             clamp (lerp (lerp (inject_Z 0)
               ((inject_Z 0 + inject_Z 0 + inject_Z 0) / 3) t)
               ((inject_Z 0 + inject_Z 0 + inject_Z 0) / 3) u) = 0%Z).
  { intros t u.
    assert (E : lerp (lerp (inject_Z 0)
               ((inject_Z 0 + inject_Z 0 + inject_Z 0) / 3) t)
               ((inject_Z 0 + inject_Z 0 + inject_Z 0) / 3) u == inject_Z 0).
    { unfold lerp, Qdiv. change (/ 3) with (1 # 3).
      change (inject_Z 0) with 0. lra. }
    rewrite E. now apply clamp_inject_Z. }
  unfold applyCRI. destruct (Qltb cri 95); rewrite ?Hc2, ?Hc; reflexivity.
Qed.

(** X20. A black pixel of the snapshot is painted black, whatever the
    colour temperature, CRI, glare and flicker settings are. *)
Theorem processImageWithLighting_black
    (cct cri glare flicker : Q) (st : Canvas) (original : ImageData)
    (base : nat) :
  originalImageData st = Some original ->
  (base mod 4 = 0)%nat -> (base + 2 < length (data original))%nat ->
  pixelAt (data original) base = (0, 0, 0)%Z ->
  exists out : ImageData,
    painted (processImageWithLighting cct cri glare flicker st) = Some out /\
    pixelAt (data out) base = (0, 0, 0)%Z.
Proof.
  intros Horig Hbase Hlen Hpx.
  rewrite (processImageWithLighting_painted _ _ _ _ _ _ Horig).
  eexists. split; [reflexivity|]. cbn [data].
  rewrite pixelLoop_pixelAt by assumption.
  rewrite Hpx. apply processPixel_black.
Qed.

Lemma processImageWithLighting_black_witness :
  exists out : ImageData,
    painted (processImageWithLighting 6500 80 25 200
               (mkCanvas (Some (mkImageData [0; 0; 0; 255]%Z 1 1)) None))
      = Some out /\
    pixelAt (data out) 0 = (0, 0, 0)%Z.
Proof.
  apply (processImageWithLighting_black 6500 80 25 200
           (mkCanvas (Some (mkImageData [0; 0; 0; 255]%Z 1 1)) None)
           (mkImageData [0; 0; 0; 255]%Z 1 1) 0);
    [reflexivity | reflexivity | cbn; lia | reflexivity].
Defined.

(** X21. For a CRI between 0 and 100 the colour rendering stage only
    pulls the channels of a pixel towards their average: every channel
    it returns lies between the least and the greatest channel it was
    given.  A grey pixel therefore leaves the stage unchanged. *)
Theorem applyCRI_between (cri : Q) (px : rgb Z) :
  0 <= cri <= 100 -> allBytes px ->
  (forall c : nat,
      (minChannel px <= channel c (applyCRI cri px) <= maxChannel px)%Z) /\
  (forall v : Z, px = (v, v, v) -> applyCRI cri px = px).
Proof.
  intros Hcri Hbytes.
  assert (Hall : forall c : nat,
             (minChannel px <= channel c (applyCRI cri px) <= maxChannel px)%Z).
  { destruct px as [[r g] b]. destruct Hbytes as (Hr & Hg & Hb).
    unfold isByte in *.
    destruct (criFactor_unit cri Hcri) as [Ht Ht'].
    set (lo := Z.min r (Z.min g b)). set (hi := Z.max r (Z.max g b)).
    assert (Hlo : (0 <= lo)%Z) by (subst lo; lia).
    assert (Hhi : (hi <= 255)%Z) by (subst hi; lia).
    assert (Br : inject_Z lo <= inject_Z r <= inject_Z hi)
      by (split; apply inject_Z_le; subst lo hi; lia).
    assert (Bg : inject_Z lo <= inject_Z g <= inject_Z hi)
      by (split; apply inject_Z_le; subst lo hi; lia).
    assert (Bb : inject_Z lo <= inject_Z b <= inject_Z hi)
      by (split; apply inject_Z_le; subst lo hi; lia).
    pose proof (average_between _ _ _ _ _ Br Bg Bb) as Bavg.
    intros c. unfold minChannel, maxChannel. fold lo hi.
    unfold applyCRI.
    destruct (Qltb cri 95); destruct c as [|[|c]]; cbn [channel];
      apply clamp_between; try assumption;
      repeat (apply lerp_between; try assumption). }
  split; [exact Hall|].
  intros v ->.
  pose proof (Hall 0%nat) as H0. pose proof (Hall 1%nat) as H1.
  pose proof (Hall 2%nat) as H2.
  destruct (applyCRI cri (v, v, v)) as [[r g] b].
  cbn [channel minChannel maxChannel] in H0, H1, H2.
  repeat f_equal; lia.
Qed.

Lemma applyCRI_between_witness :
  (forall c : nat,
      (minChannel (200, 120, 40)%Z
         <= channel c (applyCRI 80 (200, 120, 40)%Z)
         <= maxChannel (200, 120, 40)%Z)%Z) /\
  (forall v : Z,
      (200, 120, 40)%Z = (v, v, v) ->
      applyCRI 80 (200, 120, 40)%Z = (200, 120, 40)%Z).
Proof.
  apply (applyCRI_between 80 (200, 120, 40)%Z).
  - split; unfold Qle; simpl; lia.
  - unfold allBytes, isByte. lia.
Defined.

(** X22. More glare never darkens the picture: for a CRI between 0 and
    100 and the same colour temperature, every colour channel of every
    pixel painted with the larger glare is at least the channel painted
    with the smaller glare. *)
Theorem processImageWithLighting_glare_monotone
    (cct cri glare glare' flicker flicker' : Q) (st : Canvas)
    (original : ImageData) (base : nat) :
  originalImageData st = Some original ->
  0 <= cri <= 100 -> glare <= glare' ->
  (base mod 4 = 0)%nat -> (base + 2 < length (data original))%nat ->
  exists out out' : ImageData,
    painted (processImageWithLighting cct cri glare flicker st) = Some out /\
    painted (processImageWithLighting cct cri glare' flicker' st) = Some out' /\
    pixelLe (pixelAt (data out) base) (pixelAt (data out') base).
Proof.
  intros Horig Hcri Hglare Hbase Hlen.
  rewrite !(processImageWithLighting_painted _ _ _ _ _ _ Horig).
  eexists _, _. split; [reflexivity|]. split; [reflexivity|]. cbn [data].
  rewrite !pixelLoop_pixelAt by assumption.
  unfold processPixel. apply applyCRI_mono; [exact Hcri|].
  apply applyGlare_mono; [apply applyTemperature_bytes|].
  now apply brightnessMultiplier_mono.
Qed.

Lemma processImageWithLighting_glare_monotone_witness :
  exists out out' : ImageData,
    painted (processImageWithLighting 3500 80 10 200 onePixelCanvas)
      = Some out /\
    painted (processImageWithLighting 3500 80 25 200 onePixelCanvas)
      = Some out' /\
    pixelLe (pixelAt (data out) 0) (pixelAt (data out') 0).
Proof.
  apply (processImageWithLighting_glare_monotone 3500 80 10 25 200 200
           onePixelCanvas onePixel 0).
  - reflexivity.
  - split; unfold Qle; simpl; lia.
  - unfold Qle; simpl; lia.
  - reflexivity.
  - cbn; lia.
Defined.

(** ** The comparison cards: errors and the unknown alert *)

Lemma hasRange_or_missing (records : list ParamData.t) :
  Forall hasRange records \/
  exists r, In r records /\ ParamData.range r = None.
Proof.
  induction records as [|r records [IH|(r' & Hin & Hr')]].
  - left. constructor.
  - destruct (ParamData.range r) as [rg|] eqn:E.
    + left. constructor; [|exact IH]. unfold hasRange. rewrite E. eauto.
    + right. exists r. split; [now left | exact E].
  - right. exists r'. split; [now right | exact Hr'].
Qed.

Lemma hasRange_not_missing (records : list ParamData.t) r :
  Forall hasRange records -> In r records -> ParamData.range r <> None.
Proof.
  intros Hall Hin E. rewrite Forall_forall in Hall.
  apply list_elem_of_In, Hall in Hin. destruct Hin as [rg Hrg]. congruence.
Qed.

Lemma fold_lastMatchStep_TypeError currentValue records :
  fold_left (lastMatchStep currentValue) records TypeError = TypeError.
Proof. induction records as [|r records IH]; [reflexivity | exact IH]. Qed.

Lemma fold_closestMidStep_TypeError currentValue records :
  fold_left (closestMidStep currentValue) records TypeError = TypeError.
Proof. induction records as [|r records IH]; [reflexivity | exact IH]. Qed.

Lemma fold_lastMatchStep_missing currentValue records st :
  (exists r, In r records /\ ParamData.range r = None) ->
  fold_left (lastMatchStep currentValue) records st = TypeError.
Proof.
  revert st. induction records as [|r records IH]; intros st (r' & Hin & Hr').
  - destruct Hin.
  - cbn [fold_left]. destruct Hin as [<-|Hin].
    + destruct st as [[bestMatch bestRating]|]; cbn [lastMatchStep];
        [rewrite Hr'|]; apply fold_lastMatchStep_TypeError.
    + apply IH. eauto.
Qed.

(** With every range present the first scan ends normally, on the
    starting record or on one of the records; it keeps the starting
    record when the current value is missing. *)
Lemma fold_lastMatchStep_found currentValue records bestMatch bestRating :
  Forall hasRange records ->
  exists bestMatch' bestRating',
    fold_left (lastMatchStep currentValue) records
      (Normal (bestMatch, bestRating)) = Normal (bestMatch', bestRating') /\
    (bestMatch' = bestMatch \/ exists r, bestMatch' = Some r /\ In r records) /\
    (currentValue = None -> bestMatch' = bestMatch).
Proof.
  intros Hall. revert bestMatch bestRating.
  induction Hall as [|r records [rg Hrg] _ IH]; intros bestMatch bestRating.
  - exists bestMatch, bestRating. cbn. auto.
  - cbn [fold_left lastMatchStep]. rewrite Hrg.
    destruct (inRangeOpt currentValue rg) eqn:Ein.
    + destruct (IH (Some r) (ParamData.rating r))
        as (bm & br & Hfold & [->|(r' & -> & Hin)] & Hnone).
      * exists (Some r), br. split; [exact Hfold|]. split.
        -- right. exists r. split; [reflexivity | now left].
        -- intros ->. discriminate.
      * exists (Some r'), br. split; [exact Hfold|]. split.
        -- right. exists r'. split; [reflexivity | now right].
        -- intros ->. discriminate.
    + destruct (IH bestMatch bestRating)
        as (bm & br & Hfold & [->|(r' & -> & Hin)] & Hnone).
      * exists bestMatch, br. split; [exact Hfold|]. auto.
      * exists (Some r'), br. split; [exact Hfold|]. split; [|exact Hnone].
        right. exists r'. split; [reflexivity | now right].
Qed.

Lemma fold_closestMidStep_undefined records st :
  Forall hasRange records ->
  fold_left (closestMidStep None) records (Normal st) = Normal st.
Proof.
  intros Hall. induction Hall as [|r records [rg Hrg] _ IH]; [reflexivity|].
  destruct st as [minDistance closestRange].
  cbn [fold_left closestMidStep]. rewrite Hrg. exact IH.
Qed.

Lemma fold_closestMidStep_found currentValue records minDistance closestRange :
  Forall hasRange records ->
  exists minDistance' closestRange',
    fold_left (closestMidStep currentValue) records
      (Normal (minDistance, closestRange))
      = Normal (minDistance', closestRange') /\
    (closestRange' = closestRange \/
     exists r, closestRange' = Some r /\ In r records).
Proof.
  intros Hall. revert minDistance closestRange.
  induction Hall as [|r records [rg Hrg] _ IH];
    intros minDistance closestRange.
  - exists minDistance, closestRange. cbn. auto.
  - cbn [fold_left closestMidStep]. rewrite Hrg.
    assert (Hstep : forall d c,
               (c = closestRange \/ c = Some r) ->
               exists minDistance' closestRange',
                 fold_left (closestMidStep currentValue) records (Normal (d, c))
                   = Normal (minDistance', closestRange') /\
                 (closestRange' = closestRange \/
                  exists r', closestRange' = Some r' /\ In r' (r :: records))).
    { intros d c Hc.
      destruct (IH d c) as (d' & c' & Hfold & [->|(r' & -> & Hin)]).
      - exists d', c. split; [exact Hfold|].
        destruct Hc as [->| ->]; [now left|].
        right. exists r. split; [reflexivity | now left].
      - exists d', (Some r'). split; [exact Hfold|].
        right. exists r'. split; [reflexivity | now right]. }
    destruct currentValue as [v|]; [|apply Hstep; now left].
    destruct (belowDistance (midDistance v rg) minDistance);
      apply Hstep; auto.
Qed.

Lemma comparisonCard_TypeError param currentValue records :
  comparisonCard param currentValue records = TypeError <->
  exists r, In r records /\ ParamData.range r = None.
Proof.
  split.
  - intros Hthrow.
    destruct (hasRange_or_missing records) as [Hall|Hmiss]; [|exact Hmiss].
    exfalso. revert Hthrow. unfold comparisonCard, findLastMatch, findClosestMid.
    destruct (fold_lastMatchStep_found currentValue records None "unknown" Hall)
      as (bm & br & -> & Hbm & _).
    destruct bm as [r|].
    + destruct Hbm as [?|(r' & [= <-] & Hin)]; [discriminate|].
      pose proof (hasRange_not_missing _ _ Hall Hin) as Hrg.
      destruct (ParamData.range r); [discriminate | congruence].
    + destruct (fold_closestMidStep_found currentValue records None None Hall)
        as (d & c & -> & Hc).
      destruct c as [r|]; [|discriminate].
      destruct Hc as [?|(r' & [= <-] & Hin)]; [discriminate|].
      pose proof (hasRange_not_missing _ _ Hall Hin) as Hrg.
      destruct (ParamData.range r); [discriminate | congruence].
  - intros Hmiss. unfold comparisonCard, findLastMatch.
    now rewrite fold_lastMatchStep_missing.
Qed.

Lemma comparisonCard_fields param currentValue records card :
  comparisonCard param currentValue records = Normal card ->
  cardParam card = param /\ cardCurrentValue card = currentValue /\
  cardUnit card = getUnit param.
Proof.
  unfold comparisonCard.
  destruct (findLastMatch currentValue records) as [[[bm|] br]|];
    [| |discriminate].
  - destruct (ParamData.range bm); [|discriminate].
    intros [= <-]. repeat split.
  - destruct (findClosestMid currentValue records) as [[d [c|]]|];
      [| |discriminate].
    + destruct (ParamData.range c); [|discriminate].
      intros [= <-]. repeat split.
    + intros [= <-]. repeat split.
Qed.

(** X23. [comparisonCard] throws exactly when one of the parameter's
    records has no range, wherever the record stands and whatever the
    current value is; [updateParameterValidation] never throws on the
    same records. *)
Theorem comparisonCard_throws
    (param : string) (currentValue : option Q) (records : list ParamData.t) :
  (comparisonCard param currentValue records = TypeError <->
   exists r, In r records /\ ParamData.range r = None) /\
  (forall paramName value el,
      updateParameterValidation paramName value (Some records) el
        <> TypeError).
Proof.
  split; [apply comparisonCard_TypeError|].
  intros paramName value el.
  destruct (updateParameterValidation_normal paramName value (Some records) el)
    as [e ->].
  discriminate.
Qed.

(** X24. When every record has a range, the card of a parameter shows
    the UNKNOWN alert exactly when the current value is missing or the
    parameter has no records; the card always carries the parameter,
    the current value and the parameter's unit. *)
Theorem comparisonCard_unknown
    (param : string) (currentValue : option Q) (records : list ParamData.t) :
  Forall hasRange records ->
  exists card,
    comparisonCard param currentValue records = Normal card /\
    cardParam card = param /\ cardCurrentValue card = currentValue /\
    cardUnit card = getUnit param /\
    (cardAlert card = UnknownAlert <->
     currentValue = None \/ records = []).
Proof.
  intros Hall.
  destruct (comparisonCard param currentValue records) as [card|] eqn:Hcard.
  2:{ apply comparisonCard_TypeError in Hcard as (r & Hin & Hr).
      exfalso. exact (hasRange_not_missing _ _ Hall Hin Hr). }
  destruct (comparisonCard_fields _ _ _ _ Hcard) as (Hp & Hv & Hu).
  exists card. split; [reflexivity|].
  split; [exact Hp|]. split; [exact Hv|]. split; [exact Hu|]. split.
  - intros Halert.
    destruct currentValue as [value|]; [right | now left].
    destruct records as [|r0 records]; [reflexivity | exfalso].
    revert Hcard. unfold comparisonCard, findLastMatch.
    destruct (fold_lastMatchStep value (r0 :: records) None "unknown" Hall)
      as [[Hfold _]|(i & r & Hfold & Hi & _)]; rewrite Hfold.
    + destruct (findClosestMid_spec value (r0 :: records) Hall)
        as (i & r & d & -> & Hi & _); [discriminate|].
      apply list_elem_of_lookup_2, list_elem_of_In in Hi.
      pose proof (hasRange_not_missing _ _ Hall Hi) as Hrg.
      destruct (ParamData.range r); [|congruence].
      intros [= <-]. discriminate.
    + apply list_elem_of_lookup_2, list_elem_of_In in Hi.
      pose proof (hasRange_not_missing _ _ Hall Hi) as Hrg.
      destruct (ParamData.range r); [|congruence].
      intros [= <-]. discriminate.
  - intros Hcase. revert Hcard. unfold comparisonCard, findLastMatch.
    destruct Hcase as [->| ->].
    + destruct (fold_lastMatchStep_found None records None "unknown" Hall)
        as (bm & br & -> & _ & Hnone).
      rewrite (Hnone eq_refl). unfold findClosestMid.
      rewrite fold_closestMidStep_undefined by exact Hall.
      intros [= <-]. reflexivity.
    + cbn. intros [= <-]. reflexivity.
Qed.

Lemma comparisonCard_unknown_witness :
  exists card,
    comparisonCard "CCT" None cctRecords = Normal card /\
    cardParam card = "CCT" /\ cardCurrentValue card = None /\
    cardUnit card = getUnit "CCT" /\
    (cardAlert card = UnknownAlert <->
     (None : option Q) = None \/ cctRecords = []).
Proof.
  apply (comparisonCard_unknown "CCT" None cctRecords).
  repeat constructor; unfold hasRange; cbn; eauto.
Defined.

Lemma missingRange_cons param recs gradeData :
  missingRange ((param, recs) :: gradeData) <->
  (exists records r,
      recs = Some records /\
      param <> "age_range" /\ param <> "lighting_data" /\
      In r records /\ ParamData.range r = None) \/
  missingRange gradeData.
Proof.
  unfold missingRange. split.
  - intros (p & rs & r & [Heq|Hin] & H).
    + injection Heq as -> ->. left. exists rs, r. split; [reflexivity | exact H].
    + right. exists p, rs, r. split; [exact Hin | exact H].
  - intros [(rs & r & -> & H)|(p & rs & r & Hin & H)].
    + exists param, rs, r. split; [now left | exact H].
    + exists p, rs, r. split; [now right | exact H].
Qed.

Lemma comparisonCards_TypeError currentValues gradeData :
  comparisonCards currentValues gradeData = TypeError <->
  missingRange gradeData.
Proof.
  induction gradeData as [|[param recs] gradeData IH].
  - cbn. split; [discriminate|]. intros (? & ? & ? & [] & _).
  - rewrite missingRange_cons. cbn [comparisonCards].
    destruct (String.eqb_spec param "age_range") as [E1|E1]; cbn [orb].
    { rewrite IH. split; [now right|].
      intros [(rs & r & _ & H & _)|H]; [congruence | exact H]. }
    destruct (String.eqb_spec param "lighting_data") as [E2|E2].
    { rewrite IH. split; [now right|].
      intros [(rs & r & _ & _ & H & _)|H]; [congruence | exact H]. }
    destruct recs as [records|].
    + destruct (comparisonCard param (currentValues !! param) records)
        as [card|] eqn:Hcard.
      * destruct (comparisonCards currentValues gradeData) as [cards|]
          eqn:Hrest.
        -- split; [discriminate|].
           intros [(rs & r & [= <-] & _ & _ & Hin & Hr)|H].
           ++ assert (Hthrow : comparisonCard param (currentValues !! param)
                                 records = TypeError)
                by (apply comparisonCard_TypeError; eauto).
              congruence.
           ++ apply IH in H. discriminate.
        -- split; [|reflexivity]. intros _. right. now apply IH.
      * split; [|reflexivity]. intros _. left.
        apply comparisonCard_TypeError in Hcard as (r & Hin & Hr).
        exists records, r. auto.
    + rewrite IH. split; [now right|].
      intros [(rs & r & [=] & _)|H]. exact H.
Qed.

Lemma comparisonCards_fields currentValues gradeData cards :
  comparisonCards currentValues gradeData = Normal cards ->
  cardParam <$> cards = fst <$> List.filter listed gradeData /\
  Forall (fun card =>
            cardCurrentValue card = currentValues !! cardParam card /\
            cardUnit card = getUnit (cardParam card)) cards.
Proof.
  revert cards. induction gradeData as [|[param recs] gradeData IH];
    intros cards.
  - cbn. intros [= <-]. split; [reflexivity | constructor].
  - cbn [comparisonCards List.filter]. unfold listed at 1. cbn [fst snd].
    destruct (String.eqb param "age_range" || String.eqb param "lighting_data");
      cbn [negb andb]; [apply IH|].
    destruct recs as [records|]; [|apply IH].
    destruct (comparisonCard param (currentValues !! param) records)
      as [card|] eqn:Hcard; [|discriminate].
    destruct (comparisonCards currentValues gradeData) as [rest|];
      [|discriminate].
    intros [= <-]. destruct (IH rest eq_refl) as [Hparams Hall].
    destruct (comparisonCard_fields _ _ _ _ Hcard) as (Hp & Hv & Hu).
    rewrite bool_decide_eq_true_2 by eauto.
    split.
    + cbn. now rewrite Hp, Hparams.
    + constructor; [|exact Hall]. rewrite Hp. auto.
Qed.

(** X25. [comparisonCards] throws exactly when a record without a range
    stands under a key it builds a card for; one such record anywhere
    leaves the page without any card.  Otherwise there is one card for
    each key other than 'age_range' and 'lighting_data' that holds an
    array, in key order, each with the current value and the unit of
    its parameter. *)
Theorem comparisonCards_cards
    (currentValues : gmap string Q)
    (gradeData : list (string * option (list ParamData.t))) :
  (comparisonCards currentValues gradeData = TypeError <->
   missingRange gradeData) /\
  (forall cards,
      comparisonCards currentValues gradeData = Normal cards ->
      cardParam <$> cards = fst <$> List.filter listed gradeData /\
      Forall (fun card =>
                cardCurrentValue card = currentValues !! cardParam card /\
                cardUnit card = getUnit (cardParam card)) cards).
Proof.
  split; [apply comparisonCards_TypeError|].
  intros cards. apply comparisonCards_fields.
Qed.
